(** * A recycling virtual list: shallow embedding of [VirtualList]

    The JavaScript class keeps a bounded pool of card elements, fetches
    pages when one of two sentinel elements becomes visible, and moves the
    cards with CSS transforms.  The DOM is modelled as a store of elements
    addressed by references, so that the pool, the recycle set and the
    rendered list all alias the same cards, exactly as the arrays of
    element references do in the source.

    Conventions of the model:
    - JavaScript numbers that the component handles (page cursors, pixel
      positions, heights) are integers here ([Z]);
    - the [data-y] attribute, a decimal string in the DOM, is kept as the
      number it denotes ([None] when the attribute is absent), which is what
      the accessor [y] returns in either case;
    - [undefined] array reads ([pool[i]] out of range, [pool.at(k)]) are
      [None], and a call on [undefined] raises [TypeError];
    - the component is mounted: the three skeleton elements exist;
    - [style.transform] holds the last string assigned to it;
    - the host's functions, when the configuration has them, return: a
      host function that throws is not modelled; [getTemplate] returns a
      new element on every call;
    - an asynchronous handler is split at its [await] into the part that
      runs when the handler is called and the continuation that runs once
      the page has arrived; a rejected handler is recorded in the trace;
    - the observer's callbacks are the calls of [notify], when the pages
      requested by one notification arrive, in order, before the next, and
      the steps of [scheduled] in general; pages always arrive (a failing
      fetch is not modelled);
    - [container.style.height = container.scrollHeight] depends on the
      browser's layout and is left out. *)

From stdpp Require Import base list strings pretty.
From Stdlib Require Import ZArith Lia.

Open Scope Z_scope.

(** ** Module-level constants and helpers of the source *)

(** [const MARGIN = 16] *)
Definition MARGIN : Z := 16.

(** An element reference: an index into the store of created elements. *)
Abbreviation ref := nat (only parsing).

(** The part of an [HTMLElement] the component reads or writes. *)
Record Element := mkElement {
  attr_data_y : option Z;          (* getAttribute("data-y") *)
  style_transform : option string; (* style.transform, once assigned *)
  rect_height : Z;                 (* getBoundingClientRect().height *)
  innerHTML : string               (* what the host's template rendered *)
}.

Definition setAttribute_data_y (value : Z) (e : Element) : Element :=
  mkElement (Some value) (style_transform e) (rect_height e) (innerHTML e).

Definition set_style_transform (css : string) (e : Element) : Element :=
  mkElement (attr_data_y e) (Some css) (rect_height e) (innerHTML e).

(** A JavaScript value that is a number or [null], printed by a template
    literal. *)
Definition template_literal (value : option Z) : string :=
  match value with
  | Some n => pretty n
  | None => "null"
  end.

(** [translateY(value)] : [`translateY(${value}px)`] *)
Definition translateY (value : option Z) : string :=
  "translateY(" +:+ template_literal value +:+ "px)".

(** [ToNumber] on a number or [null]. *)
Definition to_number (value : option Z) : Z := default 0 value.

(** [Array.prototype.at] *)
Definition at_ {A} (l : list A) (k : Z) : option A :=
  let k' := if k <? 0 then Z.of_nat (length l) + k else k in
  if k' <? 0 then None else l !! Z.to_nat k'.

(** [slice(0, n)] and [slice(n)]; a missing [n] is [undefined], for which
    both return the whole array. *)
Definition slice_to {A} (n : option nat) (l : list A) : list A :=
  match n with Some k => take k l | None => l end.

Definition slice_from {A} (n : option nat) (l : list A) : list A :=
  match n with Some k => drop k l | None => l end.

(** [this.pool.length < this.limit], false when the limit is [NaN]. *)
Definition below_limit (len : nat) (limit : option nat) : bool :=
  match limit with Some l => (len <? l)%nat | None => false end.

Inductive Direction := top | down.

Inductive Error := TypeError.

(** An [IntersectionObserverEntry], reduced to what the handler reads. *)
Record Entry := mkEntry { target_id : string; isIntersecting : bool }.

Section Component.

Context {T : Type}.

(** [props]: every field may be missing from the object the host passes. *)
Record Props := mkProps {
  getPage : option (Z -> list T);
  getTemplate : option (T -> Element);
  updateTemplate : option (T -> Element -> Element);
  pageSize : option nat
}.

(** Calls the component makes to the host, and rejected handlers. *)
Inductive Event :=
| Fetch (page : Z)
| Create (datum : T) (card : ref)
| Bind (datum : T) (card : ref)
| Rejected (e : Error).

(** The instance fields, followed by the document it is mounted in. *)
Record State := mkState {
  props : Props;
  start : Z;
  end_ : Z;
  limit : option nat;
  pool : list ref;
  heap : list Element;                (* every element created so far *)
  list_children : list ref;           (* children of #virtual-list *)
  top_style : option string;          (* #top-observer style.transform *)
  bottom_style : option string;       (* #bottom-observer style.transform *)
  trace : list Event
}.

Definition set_start (v : Z) (s : State) : State :=
  mkState (props s) v (end_ s) (limit s) (pool s) (heap s)
          (list_children s) (top_style s) (bottom_style s) (trace s).
Definition set_end (v : Z) (s : State) : State :=
  mkState (props s) (start s) v (limit s) (pool s) (heap s)
          (list_children s) (top_style s) (bottom_style s) (trace s).
Definition set_pool (v : list ref) (s : State) : State :=
  mkState (props s) (start s) (end_ s) (limit s) v (heap s)
          (list_children s) (top_style s) (bottom_style s) (trace s).
Definition set_heap (v : list Element) (s : State) : State :=
  mkState (props s) (start s) (end_ s) (limit s) (pool s) v
          (list_children s) (top_style s) (bottom_style s) (trace s).
Definition set_list_children (v : list ref) (s : State) : State :=
  mkState (props s) (start s) (end_ s) (limit s) (pool s) (heap s)
          v (top_style s) (bottom_style s) (trace s).
Definition set_top_style (v : option string) (s : State) : State :=
  mkState (props s) (start s) (end_ s) (limit s) (pool s) (heap s)
          (list_children s) v (bottom_style s) (trace s).
Definition set_bottom_style (v : option string) (s : State) : State :=
  mkState (props s) (start s) (end_ s) (limit s) (pool s) (heap s)
          (list_children s) (top_style s) v (trace s).
Definition log (ev : Event) (s : State) : State :=
  mkState (props s) (start s) (end_ s) (limit s) (pool s) (heap s)
          (list_children s) (top_style s) (bottom_style s) (trace s ++ [ev]).

(** ** Computations that mutate the state and may throw *)

Inductive Result (A : Type) :=
| Ok (a : A) (s : State)
| Throw (e : Error) (s : State).
Arguments Ok {A} a s.
Arguments Throw {A} e s.

Definition M (A : Type) := State -> Result A.

Definition ret {A} (a : A) : M A := fun s => Ok a s.
Definition throw {A} (e : Error) : M A := fun s => Throw e s.
Definition bind {A B} (m : M A) (k : A -> M B) : M B :=
  fun s => match m s with
           | Ok a s' => k a s'
           | Throw e s' => Throw e s'
           end.
Definition gets {A} (f : State -> A) : M A := fun s => Ok (f s) s.
Definition modify (f : State -> State) : M unit := fun s => Ok tt (f s).

Notation "'let*' x ':=' m 'in' k" := (bind m (fun x => k))
  (at level 10, x name, m at level 100, k at level 200).
Notation "m ';;' k" := (bind m (fun _ => k))
  (at level 100, k at level 200, right associativity).

(** The state a computation leaves behind, whether it returned or threw. *)
Definition final {A} (r : Result A) : State :=
  match r with Ok _ s => s | Throw _ s => s end.

(** [for (const x of xs) body(x)] *)
Fixpoint for_each {A} (xs : list A) (body : A -> M unit) : M unit :=
  match xs with
  | [] => ret tt
  | x :: rest => body x ;; for_each rest body
  end.

(** Dereferencing: an [undefined] array read stays [undefined]. *)
Definition deref (s : State) (element : option ref) : option Element :=
  match element with Some r => heap s !! r | None => None end.

(** [function y(element, value = undefined)] *)
Definition y (element : option ref) (value : option Z) : M (option Z) :=
  (match value, element with
   | Some v, Some r =>
       modify (fun s => set_heap (alter (setAttribute_data_y v) r (heap s)) s)
   | _, _ => ret tt
   end) ;;
  let* e := gets (fun s => deref s element) in
  ret (match e with Some e => attr_data_y e | None => None end).

(** [element.getBoundingClientRect().height] *)
Definition getBoundingClientRect_height (element : option ref) : M Z :=
  let* e := gets (fun s => deref s element) in
  match e with
  | Some e => ret (rect_height e)
  | None => throw TypeError
  end.

(** [element.style.transform = css] *)
Definition assign_style_transform (element : option ref) (css : string)
  : M unit :=
  let* e := gets (fun s => deref s element) in
  match e, element with
  | Some _, Some r =>
      modify (fun s => set_heap (alter (set_style_transform css) r (heap s)) s)
  | _, _ => throw TypeError
  end.

(** ** [#updateElementsPosition] *)

(** Body of the loop of the branch [direction === "down"]. *)
Definition down_body (i : nat) : M unit :=
  let* pool := gets pool in
  let prev := at_ pool (Z.of_nat i - 1) in
  let curr := pool !! i in
  let* y_prev := y prev None in
  match y_prev with
  | None => y curr (Some 0) ;; ret tt
  | Some _ =>
      let* y_prev := y prev None in
      let* height := getBoundingClientRect_height prev in
      let newY := to_number y_prev + MARGIN * 2 + height in
      y curr (Some newY) ;;
      assign_style_transform curr (translateY (Some newY))
  end.

(** Body of the loop of the branch [direction === "top"]. *)
Definition top_body (i : nat) : M unit :=
  let* pool := gets pool in
  let curr := pool !! i in
  let next := at_ pool (Z.of_nat i + 1) in
  let* y_next := y next None in
  let* height := getBoundingClientRect_height curr in
  let newY := to_number y_next - MARGIN * 2 - height in
  y curr (Some newY) ;;
  assign_style_transform curr (translateY (Some newY)).

Definition updateElementsPosition (direction : Direction) : M unit :=
  (match direction with
   | down =>
       let* pool := gets pool in
       for_each (seq 0 (length pool)) down_body
   | top =>
       let* n := gets (fun s => pageSize (props s)) in
       match n with
       | Some n => for_each (rev (seq 0 n)) top_body
       | None => ret tt     (* NaN >= 0 is false: no iteration *)
       end
   end) ;;
  let* pool := gets pool in
  let first := pool !! 0%nat in
  let last := at_ pool (-1) in
  let* topY := y first None in
  let* y_last := y last None in
  let* height := getBoundingClientRect_height last in
  let bottomY := to_number y_last + MARGIN * 2 + height in
  modify (set_top_style (Some (translateY topY))) ;;
  modify (set_bottom_style (Some (translateY (Some bottomY)))).

(** ** Calls to the host's functions *)

(** [this.props.getTemplate(datum)]: the host builds a new element. *)
Definition call_getTemplate (datum : T) : M ref :=
  let* f := gets (fun s => getTemplate (props s)) in
  match f with
  | None => throw TypeError
  | Some f =>
      let* card := gets (fun s => length (heap s)) in
      modify (fun s => set_heap (heap s ++ [f datum]) s) ;;
      modify (log (Create datum card)) ;;
      ret card
  end.

(** [this.props.updateTemplate(datum, element)]: the host mutates the
    element in place.  The host is taken to dereference the element, so a
    call with [undefined] throws. *)
Definition call_updateTemplate (datum : option T) (element : option ref)
  : M unit :=
  let* f := gets (fun s => updateTemplate (props s)) in
  let* e := gets (fun s => deref s element) in
  match f, datum, element, e with
  | Some f, Some d, Some r, Some _ =>
      modify (fun s => set_heap (alter (f d) r (heap s)) s) ;;
      modify (log (Bind d r))
  | _, _, _, _ => throw TypeError
  end.

(** [#updateData(elements, data)] *)
Definition updateData (elements : list ref) (data : list T) : M unit :=
  for_each (seq 0 (length data))
    (fun i => call_updateTemplate (data !! i) (elements !! i)).

(** ** [#handleBottomObserver] *)

(** Up to the [await]: [this.props.getPage(this.end++)]. *)
Definition handleBottomObserver_begin : M (list T) :=
  let* page := gets end_ in
  modify (set_end (page + 1)) ;;
  let* f := gets (fun s => getPage (props s)) in
  match f with
  | None => throw TypeError
  | Some f => modify (log (Fetch page)) ;; ret (f page)
  end.

(** The loop [for (const datum of data)] of the append branch; [fragment]
    is the document fragment the cards are collected in. *)
Fixpoint append_cards (data : list T) (fragment : list ref) : M (list ref) :=
  match data with
  | [] => ret fragment
  | datum :: rest =>
      let* card := call_getTemplate datum in
      modify (fun s => set_pool (pool s ++ [card]) s) ;;
      append_cards rest (fragment ++ [card])
  end.

(** After the [await]. *)
Definition handleBottomObserver_resume (data : list T) : M unit :=
  let* pool0 := gets pool in
  let* lim := gets limit in
  (if below_limit (length pool0) lim then
     let* fragment := append_cards data [] in
     modify (fun s => set_list_children (list_children s ++ fragment) s)
   else
     let* n := gets (fun s => pageSize (props s)) in
     let toRecycle := slice_to n pool0 in
     let unchanged := slice_from n pool0 in
     modify (set_pool (unchanged ++ toRecycle)) ;;
     updateData toRecycle data ;;
     let* st := gets start in
     modify (set_start (st + 1))) ;;
  updateElementsPosition down.

Definition handleBottomObserver : M unit :=
  let* data := handleBottomObserver_begin in
  handleBottomObserver_resume data.

(** ** [#handleTopObserver] *)

(** Up to the [await]. *)
Definition handleTopObserver_begin : M (list T) :=
  let* st := gets start in
  modify (set_start (st - 1)) ;;
  let* en := gets end_ in
  modify (set_end (en - 1)) ;;
  let* f := gets (fun s => getPage (props s)) in
  let* page := gets start in
  match f with
  | None => throw TypeError
  | Some f => modify (log (Fetch page)) ;; ret (f page)
  end.

(** After the [await]. *)
Definition handleTopObserver_resume (data : list T) : M unit :=
  let* pool0 := gets pool in
  let* n := gets (fun s => pageSize (props s)) in
  let unchanged := slice_to n pool0 in
  let toRecycle := slice_from n pool0 in
  modify (set_pool (toRecycle ++ unchanged)) ;;
  updateData toRecycle data ;;
  updateElementsPosition top.

Definition handleTopObserver : M unit :=
  let* data := handleTopObserver_begin in
  handleTopObserver_resume data.

(** ** [#handleIntersectionObserver] *)

(** A handler suspended at its [await], holding the page it waits for. *)
Inductive Pending :=
| PendingTop (data : list T)
| PendingBottom (data : list T).

(** Calling an [async] handler without awaiting it: the part before the
    [await] runs at once; a throw there rejects the handler's promise and
    does not reach the caller. *)
Definition call_async (begin : M (list T)) (k : list T -> Pending)
    (s : State) : State * list Pending :=
  match begin s with
  | Ok data s' => (s', [k data])
  | Throw e s' => (log (Rejected e) s', [])
  end.

Definition handle_entry (entry : Entry) (s : State) : State * list Pending :=
  if isIntersecting entry then
    if String.eqb (target_id entry) "top-observer" && (0 <? start s) then
      call_async handleTopObserver_begin PendingTop s
    else if String.eqb (target_id entry) "bottom-observer" then
      call_async handleBottomObserver_begin PendingBottom s
    else (s, [])
  else (s, []).

Fixpoint handleIntersectionObserver (entries : list Entry) (s : State)
  : State * list Pending :=
  match entries with
  | [] => (s, [])
  | entry :: rest =>
      let (s1, p1) := handle_entry entry s in
      let (s2, p2) := handleIntersectionObserver rest s1 in
      (s2, p1 ++ p2)
  end.

(** Resuming a suspended handler once its page has arrived. *)
Definition settle (r : Result unit) : State :=
  match r with
  | Ok _ s => s
  | Throw e s => log (Rejected e) s
  end.

Definition resume (p : Pending) (s : State) : State :=
  match p with
  | PendingTop data => settle (handleTopObserver_resume data s)
  | PendingBottom data => settle (handleBottomObserver_resume data s)
  end.

(** One notification of the observer: the handlers it starts run up to
    their [await] while the entries are examined, and are then resumed in
    the order they were started, before the next notification. *)
Definition notify (entries : list Entry) (s : State) : State :=
  let (s1, pending) := handleIntersectionObserver entries s in
  foldl (fun s p => resume p s) s1 pending.

(** ** Construction and mounting *)

(** [constructor(root, props)]; [this.props.pageSize * 2] is [NaN] when the
    page size is missing.  The result type leaves room for a throw. *)
Definition constructor (p : Props) : Result unit :=
  Ok tt (mkState p 0 0 (option_map (fun n => (n * 2)%nat) (pageSize p)) []
                 [] [] None None []).

(** [render()] writes the skeleton: an empty list between two sentinels. *)
Definition render : M unit :=
  modify (set_list_children []) ;;
  modify (set_top_style None) ;;
  modify (set_bottom_style None).

(** [new VirtualList(root, props).render()] *)
Definition initialize (p : Props) : Result unit :=
  match constructor p with
  | Ok _ s => render s
  | Throw e s => Throw e s
  end.

(** ** Reading the model *)

(** The position stored on a card, and its measured height. *)
Definition y_at (s : State) (r : ref) : option Z :=
  match heap s !! r with Some e => attr_data_y e | None => None end.

Definition height_at (s : State) (r : ref) : Z :=
  match heap s !! r with Some e => rect_height e | None => 0 end.

(** Every pooled reference points at a created element. *)
Definition valid (s : State) : Prop :=
  Forall (fun r => (r < length (heap s))%nat) (pool s).

(** Every pooled card has a stored position. *)
Definition placed (s : State) : Prop :=
  Forall (fun r => is_Some (y_at s r)) (pool s).

(** Every pooled card from index [k] on has a stored position. *)
Definition placed_from (k : nat) (s : State) : Prop :=
  forall i r, (k <= i)%nat -> pool s !! i = Some r -> is_Some (y_at s r).

(** What a layout step may do to one element: move it, nothing else. *)
Definition moved (e0 e : Element) : Prop :=
  rect_height e = rect_height e0 /\ innerHTML e = innerHTML e0.

(** Same instance, same rendered list, same sentinels, same trace: only
    cards were touched, and none was created. *)
Definition cards_only (s s' : State) : Prop :=
  exists h, s' = set_heap h s /\ length h = length (heap s).

(** A card is written at [rc] and every other card is left alone. *)
Definition writes_at (rc : ref) (newY : Z) (s s' : State) : Prop :=
  cards_only s s' /\
  (forall r, r <> rc -> heap s' !! r = heap s !! r) /\
  exists e0 e, heap s !! rc = Some e0 /\ heap s' !! rc = Some e /\
               moved e0 e /\ attr_data_y e = Some newY.

(** Every card of [s] is still there in [s'], at most moved. *)
Definition moved_all (s s' : State) : Prop :=
  forall r e0, heap s !! r = Some e0 ->
    exists e, heap s' !! r = Some e /\ moved e0 e.

(** Where the down pass puts the card at index [j], given the position [y0]
    it gives the first card and the heights of the pooled cards. *)
Fixpoint down_pos (heights : list Z) (y0 : Z) (j : nat) : Z :=
  match j with
  | O => y0
  | S j' => down_pos heights y0 j' + MARGIN * 2 + heights !!! j'
  end.

Definition pool_heights (s : State) : list Z := height_at s <$> pool s.

(** The position the down pass gives the first card: [pool.at(-1)] is the
    last card, so the first card is stacked below the place the last card
    had before the pass, or put at 0 when the last card was never placed. *)
Definition down_anchor (s : State) : Z :=
  match last (pool s) with
  | Some rl =>
      match y_at s rl with
      | None => 0
      | Some yl => yl + MARGIN * 2 + height_at s rl
      end
  | None => 0
  end.

(** The two halves of [updateElementsPosition], named for the proofs: the
    loop over the cards, then the lines that place the sentinels. *)
Definition layout_cards (direction : Direction) : M unit :=
  match direction with
  | down =>
      let* pool := gets pool in
      for_each (seq 0 (length pool)) down_body
  | top =>
      let* n := gets (fun s => pageSize (props s)) in
      match n with
      | Some n => for_each (rev (seq 0 n)) top_body
      | None => ret tt
      end
  end.

Definition layout_sentinels : M unit :=
  let* pool := gets pool in
  let first := pool !! 0%nat in
  let last := at_ pool (-1) in
  let* topY := y first None in
  let* y_last := y last None in
  let* height := getBoundingClientRect_height last in
  let bottomY := to_number y_last + MARGIN * 2 + height in
  modify (set_top_style (Some (translateY topY))) ;;
  modify (set_bottom_style (Some (translateY (Some bottomY)))).

(** The state after the sentinels were placed around the cards of [s]. *)
Definition bracketed (s : State) (rf rl : ref) : State :=
  set_bottom_style
    (Some (translateY (Some (to_number (y_at s rl) + MARGIN * 2
                             + height_at s rl))))
    (set_top_style (Some (translateY (y_at s rf))) s).

(** What a layout pass keeps, whether it returns or throws: the instance
    fields, the rendered list, the trace and the number of cards. *)
Definition layout_frame (s s' : State) : Prop :=
  props s' = props s /\ start s' = start s /\ end_ s' = end_ s /\
  limit s' = limit s /\ pool s' = pool s /\
  list_children s' = list_children s /\ trace s' = trace s /\
  length (heap s') = length (heap s).

Definition keeps_frame {A} (m : M A) : Prop :=
  forall s, layout_frame s (final (m s)).

(** The state with further events at the end of its trace. *)
Definition log_all (evs : list Event) (s : State) : State :=
  mkState (props s) (start s) (end_ s) (limit s) (pool s) (heap s)
          (list_children s) (top_style s) (bottom_style s) (trace s ++ evs).

(** The pool after a recycle, in either direction: the cards from index
    [n] on, followed by the first [n] cards. *)
Definition rotated (n : nat) (l : list ref) : list ref := drop n l ++ take n l.

(** The state in which the bottom handler starts its layout pass when it
    recycles: pool rotated, the cards in [h] rebound, [start] advanced. *)
Definition recycled_down (n : nat) (data : list T) (h : list Element)
    (s : State) : State :=
  set_start (start s + 1)
    (set_heap h
       (log_all (zip_with Bind data (take n (pool s)))
          (set_pool (rotated n (pool s)) s))).

(** The state in which the top handler starts its layout pass. *)
Definition recycled_up (n : nat) (data : list T) (h : list Element)
    (s : State) : State :=
  set_heap h
    (log_all (zip_with Bind data (drop n (pool s)))
       (set_pool (rotated n (pool s)) s)).

(** The state in which the bottom handler starts its layout pass when it
    appends: one new card per record, at the end of the pool and of the
    rendered list. *)
Definition appended (gt : T -> Element) (data : list T) (s : State) : State :=
  let cards := seq (length (heap s)) (length data) in
  set_list_children (list_children s ++ cards)
    (set_pool (pool s ++ cards)
       (set_heap (heap s ++ (gt <$> data))
          (log_all (zip_with Create data cards) s))).

(** The two entries the observer reports for a visible sentinel. *)
Definition top_visible : Entry := mkEntry "top-observer" true.
Definition bottom_visible : Entry := mkEntry "bottom-observer" true.

(** States the mounted component can be in, when every notification
    reports one entry and the handler it starts runs to completion before
    the next notification. *)
Inductive reachable (p : Props) : State -> Prop :=
| reachable_initial s : initialize p = Ok tt s -> reachable p s
| reachable_notify s entry :
    reachable p s -> reachable p (notify [entry] s).

(** What the handlers maintain when every page has [n] records. *)
Definition window_invariant (p : Props) (n : nat) (s : State) : Prop :=
  props s = p /\ limit s = Some (n * 2)%nat /\
  valid s /\ NoDup (pool s) /\
  0 <= start s /\
  Z.of_nat (length (pool s)) = Z.of_nat n * (end_ s - start s) /\
  0 <= end_ s - start s <= 2 /\
  (0 < start s -> length (pool s) = (n * 2)%nat).

End Component.

Arguments Ok {T A} a s.
Arguments Throw {T A} e s.

(** * A concrete list

    Pages of two integers; a card is as high as 40 plus the number it shows,
    and rebinding a card keeps its position and transform. *)

Definition demo_getPage (page : Z) : list Z := [10 * page; 10 * page + 1].

Definition demo_getTemplate (datum : Z) : Element :=
  mkElement None None (40 + datum) (pretty datum).

Definition demo_updateTemplate (datum : Z) (e : Element) : Element :=
  mkElement (attr_data_y e) (style_transform e) (40 + datum) (pretty datum).

Definition demo_props : Props :=
  mkProps (Some demo_getPage) (Some demo_getTemplate)
          (Some demo_updateTemplate) (Some 2%nat).

(** A configuration with nothing in it. *)
Definition empty_props : @Props Z := mkProps None None None None.

(** Mounted, then the bottom sentinel seen once, twice, three times. *)
Definition demo_initial : State := final (initialize demo_props).
Definition demo_one_page : State := notify [bottom_visible] demo_initial.
Definition demo_two_pages : State := notify [bottom_visible] demo_one_page.
Definition demo_recycled : State := notify [bottom_visible] demo_two_pages.

(** The first bottom trigger just before its layout pass: page 0 fetched,
    two new cards, neither placed yet. *)
Definition demo_before_first_pass : State :=
  appended demo_getTemplate (demo_getPage 0)
    (log (Fetch 0) (set_end 1 demo_initial)).

(** The third bottom trigger just before its layout pass: page 2 fetched,
    the pool rotated, cards 0 and 1 rebound to the records 20 and 21. *)
Definition demo_before_pass : State :=
  recycled_down 2 (demo_getPage 2)
    (alter (demo_updateTemplate 21) 1%nat
       (alter (demo_updateTemplate 20) 0%nat (heap demo_two_pages)))
    (log (Fetch 2) (set_end 3 demo_two_pages)).

(** The scenario of pages of five records. *)
Definition five_getPage (page : Z) : list Z :=
  (fun k => 5 * page + k) <$> [0; 1; 2; 3; 4].

Definition five_props : Props :=
  mkProps (Some five_getPage) (Some demo_getTemplate)
          (Some demo_updateTemplate) (Some 5%nat).

Definition five_initial : State := final (initialize five_props).

(** * Verification *)

Section Verification.

Context {T : Type}.

Implicit Types (s : @State T) (r rc rp rf rl : ref).

Notation "'let*' x ':=' m 'in' k" := (bind m (fun x => k))
  (at level 10, x name, m at level 100, k at level 200).
Notation "m ';;' k" := (bind m (fun _ => k))
  (at level 100, k at level 200, right associativity).

Ltac run :=
  unfold bind, gets, modify, ret, throw; simpl.

Lemma at_nat {A} (l : list A) (i : nat) : at_ l (Z.of_nat i) = l !! i.
Proof.
  unfold at_.
  destruct (Z.ltb_spec (Z.of_nat i) 0) as [H|H]; [lia|].
  destruct (Z.ltb_spec (Z.of_nat i) 0) as [H'|H']; [lia|].
  by rewrite Nat2Z.id.
Qed.

Lemma at_pred {A} (l : list A) (i : nat) :
  at_ l (Z.of_nat (S i) - 1) = l !! i.
Proof. rewrite <- at_nat. f_equal. lia. Qed.

Lemma at_succ {A} (l : list A) (i : nat) :
  at_ l (Z.of_nat i + 1) = l !! S i.
Proof. rewrite <- at_nat. f_equal. lia. Qed.

Lemma at_last {A} (l : list A) : at_ l (-1) = last l.
Proof.
  unfold at_. simpl. rewrite last_lookup.
  destruct l as [|x l]; [done|].
  destruct (Z.ltb_spec (Z.of_nat (length (x :: l)) + -1) 0) as [H|H].
  - simpl in H. lia.
  - f_equal. simpl. lia.
Qed.

Lemma down_body_step (s : @State T) (i : nat) (rc rp : ref) :
  pool s !! i = Some rc -> (rc < length (heap s))%nat ->
  at_ (pool s) (Z.of_nat i - 1) = Some rp -> (rp < length (heap s))%nat ->
  exists s', down_body i s = Ok tt s' /\
    writes_at rc (match y_at s rp with
                  | None => 0
                  | Some yp => yp + MARGIN * 2 + height_at s rp
                  end) s s'.
Proof.
  intros Hc Hcv Hp Hpv.
  destruct (lookup_lt_is_Some_2 _ _ Hcv) as [ec Hec].
  destruct (lookup_lt_is_Some_2 _ _ Hpv) as [ep Hep].
  unfold down_body, y, getBoundingClientRect_height, assign_style_transform,
    y_at, height_at.
  run.
  rewrite Hp, Hc. simpl. rewrite Hep.
  destruct (attr_data_y ep) as [yp|] eqn:Hy; simpl.
  - rewrite Hep, Hy. simpl.
    rewrite list_lookup_alter, decide_True, Hec by done. simpl.
    eexists. split; [reflexivity|].
    split; [|split].
    + eexists. split; [reflexivity|]. simpl. by rewrite !length_alter.
    + intros r Hr. simpl. by rewrite !list_lookup_alter_ne.
    + exists ec. eexists. split; [done|]. simpl.
      rewrite list_alter_alter_eq, list_lookup_alter, decide_True, Hec by done.
      simpl. by repeat split.
  - eexists. split; [reflexivity|].
    split; [|split].
    + eexists. split; [reflexivity|]. simpl. by rewrite !length_alter.
    + intros r Hr. simpl. by rewrite !list_lookup_alter_ne.
    + exists ec. eexists. split; [done|]. simpl.
      rewrite list_lookup_alter, decide_True, Hec by done.
      simpl. by repeat split.
Qed.

Lemma top_body_step (s : @State T) (i : nat) (rc : ref) :
  pool s !! i = Some rc -> (rc < length (heap s))%nat ->
  exists s', top_body i s = Ok tt s' /\
    writes_at rc (to_number (match pool s !! S i with
                             | Some rn => y_at s rn
                             | None => None
                             end) - MARGIN * 2 - height_at s rc) s s'.
Proof.
  intros Hc Hcv.
  destruct (lookup_lt_is_Some_2 _ _ Hcv) as [ec Hec].
  unfold top_body, y, getBoundingClientRect_height, assign_style_transform,
    y_at, height_at.
  run. rewrite at_succ, Hc. simpl. rewrite Hec.
  rewrite list_lookup_alter, decide_True, Hec by done. simpl.
  eexists. split; [reflexivity|].
  split; [|split].
  - eexists. split; [reflexivity|]. simpl. by rewrite !length_alter.
  - intros r Hr. simpl. by rewrite !list_lookup_alter_ne.
  - exists ec. eexists. split; [done|]. simpl.
    rewrite list_alter_alter_eq, list_lookup_alter, decide_True, Hec by done.
    simpl. split; [by split|].
    do 2 f_equal. by destruct (pool s !! S i).
Qed.

(** *** Composition *)

Lemma for_each_app {A} (xs ys : list A) (body : A -> @M T unit) (s : @State T) :
  for_each (xs ++ ys) body s = (for_each xs body ;; for_each ys body) s.
Proof.
  revert s. induction xs as [|x xs IH]; intros s; simpl; [done|].
  unfold bind in *. destruct (body x s); [apply IH | done].
Qed.

Lemma cards_only_refl s : cards_only s s.
Proof. exists (heap s). by destruct s. Qed.

Lemma cards_only_trans s1 s2 s3 :
  cards_only s1 s2 -> cards_only s2 s3 -> cards_only s1 s3.
Proof.
  intros (h & -> & Hl) (h' & -> & Hl'). exists h'. split; [done|].
  simpl in Hl'. congruence.
Qed.

Lemma cards_only_pool s s' : cards_only s s' -> pool s' = pool s.
Proof. by intros (h & -> & _). Qed.

Lemma cards_only_length s s' :
  cards_only s s' -> length (heap s') = length (heap s).
Proof. by intros (h & -> & ?). Qed.

Lemma cards_only_valid s s' : cards_only s s' -> valid s -> valid s'.
Proof.
  intros Hc. unfold valid.
  by rewrite (cards_only_pool _ _ Hc), (cards_only_length _ _ Hc).
Qed.

Lemma moved_refl e : moved e e.
Proof. by split. Qed.

Lemma moved_trans e1 e2 e3 : moved e1 e2 -> moved e2 e3 -> moved e1 e3.
Proof. unfold moved. intros [] []. split; congruence. Qed.

Lemma moved_all_refl s : moved_all s s.
Proof. intros r e0 H. exists e0. split; [done | apply moved_refl]. Qed.

Lemma moved_all_trans s1 s2 s3 :
  moved_all s1 s2 -> moved_all s2 s3 -> moved_all s1 s3.
Proof.
  intros H12 H23 r e0 H.
  destruct (H12 _ _ H) as (e1 & H1 & M1).
  destruct (H23 _ _ H1) as (e2 & H2 & M2).
  exists e2. split; [done | by eapply moved_trans].
Qed.

Lemma writes_at_moved_all rc newY s s' :
  writes_at rc newY s s' -> moved_all s s'.
Proof.
  intros (_ & Hother & e0 & e & H0 & H1 & Hm & _) r e1 Hr.
  destruct (decide (r = rc)) as [->|Hne].
  - exists e. split; [done|]. congruence.
  - exists e1. split; [by rewrite Hother | apply moved_refl].
Qed.

Lemma moved_all_height s s' r :
  cards_only s s' -> moved_all s s' -> height_at s' r = height_at s r.
Proof.
  intros Hc Hm. unfold height_at.
  destruct (heap s !! r) as [e0|] eqn:H0.
  - by destruct (Hm _ _ H0) as (e & -> & He & _).
  - apply lookup_ge_None in H0.
    rewrite <- (cards_only_length _ _ Hc) in H0.
    apply lookup_ge_None in H0. by rewrite H0.
Qed.

(** *** The down pass *)

Lemma pool_heights_lookup (s : @State T) (j : nat) (r : ref) :
  pool s !! j = Some r -> pool_heights s !!! j = height_at s r.
Proof.
  intros H. apply list_lookup_total_correct.
  unfold pool_heights. by rewrite list_lookup_fmap, H.
Qed.

Lemma valid_lookup (s : @State T) (j : nat) (r : ref) :
  valid s -> pool s !! j = Some r -> (r < length (heap s))%nat.
Proof. intros Hv H. exact (Forall_lookup_1 _ _ _ _ Hv H). Qed.

Lemma y_at_unchanged (s s' : @State T) (r : ref) :
  heap s' !! r = heap s !! r -> y_at s' r = y_at s r.
Proof. unfold y_at. by intros ->. Qed.

Lemma writes_at_y rc newY s s' : writes_at rc newY s s' -> y_at s' rc = Some newY.
Proof.
  intros (_ & _ & e0 & e & _ & H & _ & Hy). unfold y_at. by rewrite H.
Qed.

Lemma down_loop (s : @State T) (k : nat) :
  valid s -> NoDup (pool s) -> (k <= length (pool s))%nat ->
  exists s', for_each (seq 0 k) down_body s = Ok tt s' /\
    cards_only s s' /\ moved_all s s' /\
    (forall r, r ∉ take k (pool s) -> heap s' !! r = heap s !! r) /\
    (forall j r, (j < k)%nat -> pool s !! j = Some r ->
       y_at s' r = Some (down_pos (pool_heights s) (down_anchor s) j)).
Proof.
  intros Hv Hnd. induction k as [|k IH]; intros Hk.
  - exists s. split; [done|].
    split; [apply cards_only_refl|]. split; [apply moved_all_refl|].
    split; [done|]. intros; lia.
  - destruct IH as (s1 & Hrun & Hc1 & Hm1 & Hout1 & Hpos1); [lia|].
    destruct (lookup_lt_is_Some_2 (pool s) k) as [rc Hrc]; [lia|].
    assert (Hpool1 : pool s1 = pool s) by by apply cards_only_pool.
    assert (Hv1 : valid s1) by by eapply cards_only_valid.
    (* the card read as [prev], and what is read from it *)
    assert (exists rp, at_ (pool s1) (Z.of_nat k - 1) = Some rp /\
              (rp < length (heap s1))%nat /\
              match y_at s1 rp with
              | None => 0
              | Some yp => yp + MARGIN * 2 + height_at s1 rp
              end = down_pos (pool_heights s) (down_anchor s) k)
      as (rp & Hrp & Hrpv & Hnew).
    { rewrite Hpool1. destruct k as [|k'].
      - simpl. rewrite at_last.
        destruct (last (pool s)) as [rl|] eqn:Hl.
        2:{ apply last_None in Hl. rewrite Hl in Hrc. done. }
        exists rl. split; [done|].
        assert (Hin : pool s !! pred (length (pool s)) = Some rl)
          by by rewrite <- last_lookup.
        split.
        { rewrite (cards_only_length _ _ Hc1). by eapply valid_lookup. }
        unfold down_anchor. rewrite Hl.
        rewrite (y_at_unchanged s s1 rl) by (apply Hout1, not_elem_of_nil).
        by rewrite (moved_all_height s s1).
      - rewrite at_pred.
        destruct (lookup_lt_is_Some_2 (pool s) k') as [rp Hrp]; [lia|].
        exists rp. split; [done|]. split.
        { rewrite (cards_only_length _ _ Hc1). by eapply valid_lookup. }
        rewrite (Hpos1 k' rp) by (done || lia). simpl.
        rewrite (moved_all_height s s1) by done.
        by rewrite (pool_heights_lookup s k' rp). }
    destruct (down_body_step s1 k rc rp) as (s2 & Hstep & Hw); try done.
    { by rewrite Hpool1. }
    { rewrite (cards_only_length _ _ Hc1). by eapply valid_lookup. }
    rewrite Hnew in Hw.
    exists s2. split.
    { rewrite seq_S, for_each_app. unfold bind. rewrite Hrun. simpl.
      unfold bind. by rewrite Hstep. }
    destruct Hw as (Hc2 & Hother & Hcard).
    assert (Hw : writes_at rc (down_pos (pool_heights s) (down_anchor s) k)
                   s1 s2) by done.
    split; [by eapply cards_only_trans|].
    split; [eapply moved_all_trans; [done | by eapply writes_at_moved_all]|].
    split.
    + intros r Hr. rewrite (take_S_r _ _ _ Hrc) in Hr.
      apply not_elem_of_app in Hr as [Hr1 Hr2].
      apply not_elem_of_cons in Hr2 as [Hr2 _].
      rewrite Hother by done. by apply Hout1.
    + intros j r Hj Hjr.
      destruct (decide (j = k)) as [->|Hne].
      * assert (r = rc) as -> by congruence. by eapply writes_at_y.
      * rewrite (y_at_unchanged s1 s2 r); [apply Hpos1; [lia | done]|].
        apply Hother. intros ->.
        apply Hne. by eapply NoDup_lookup.
Qed.

(** *** The top pass *)

Lemma top_loop (k : nat) (s : @State T) :
  valid s -> NoDup (pool s) -> (k <= length (pool s))%nat ->
  exists s', for_each (rev (seq 0 k)) top_body s = Ok tt s' /\
    cards_only s s' /\ moved_all s s' /\
    (forall r, r ∉ take k (pool s) -> heap s' !! r = heap s !! r) /\
    (forall j r, (j < k)%nat -> pool s !! j = Some r ->
       y_at s' r = Some (to_number (match pool s !! S j with
                                    | Some rn => y_at s' rn
                                    | None => None
                                    end) - MARGIN * 2 - height_at s r)).
Proof.
  revert s. induction k as [|k IH]; intros s Hv Hnd Hk.
  - exists s. split; [done|].
    split; [apply cards_only_refl|]. split; [apply moved_all_refl|].
    split; [done|]. intros; lia.
  - destruct (lookup_lt_is_Some_2 (pool s) k) as [rc Hrc]; [lia|].
    destruct (top_body_step s k rc) as (s1 & Hstep & Hw); [done| |].
    { by eapply valid_lookup. }
    pose proof Hw as (Hc1 & Hother & _).
    assert (Hpool1 : pool s1 = pool s) by by apply cards_only_pool.
    destruct (IH s1) as (s2 & Hrun & Hc2 & Hm2 & Hout2 & Hpos2).
    { by eapply cards_only_valid. }
    { by rewrite Hpool1. }
    { rewrite Hpool1. lia. }
    rewrite Hpool1 in Hout2, Hpos2.
    assert (Hm1 : moved_all s s1) by by eapply writes_at_moved_all.
    assert (Hfresh : rc ∉ take k (pool s)).
    { intros (j & Hj & Hlt)%elem_of_take.
      assert (j = k) by by eapply NoDup_lookup. lia. }
    exists s2. split.
    { rewrite seq_S, rev_unit. simpl. unfold bind. by rewrite Hstep. }
    split; [by eapply cards_only_trans|].
    split; [by eapply moved_all_trans|].
    split.
    + intros r Hr. rewrite (take_S_r _ _ _ Hrc) in Hr.
      apply not_elem_of_app in Hr as [Hr1 Hr2].
      apply not_elem_of_cons in Hr2 as [Hr2 _].
      rewrite Hout2 by done. by apply Hother.
    + intros j r Hj Hjr.
      destruct (decide (j = k)) as [->|Hne].
      * assert (r = rc) as -> by congruence.
        rewrite (y_at_unchanged s1 s2 rc) by by apply Hout2.
        rewrite (writes_at_y _ _ _ _ Hw).
        destruct (pool s !! S k) as [rn|] eqn:Hrn; [|done].
        do 4 f_equal.
        symmetry. transitivity (y_at s1 rn).
        { apply y_at_unchanged, Hout2.
          intros (j & Hj' & Hlt)%elem_of_take.
          assert (j = S k) by by eapply NoDup_lookup. lia. }
        apply y_at_unchanged, Hother. intros ->.
        assert (S k = k) by by eapply NoDup_lookup. lia.
      * rewrite (Hpos2 j r) by (done || lia).
        by rewrite (moved_all_height s s1).
Qed.

(** *** The two halves of [#updateElementsPosition] *)

Lemma updateElementsPosition_halves (direction : Direction) s :
  updateElementsPosition direction s
  = (layout_cards direction ;; layout_sentinels) s.
Proof. by destruct direction. Qed.

Lemma layout_sentinels_step (s : @State T) (rf rl : ref) :
  pool s !! 0%nat = Some rf -> last (pool s) = Some rl ->
  (rl < length (heap s))%nat ->
  layout_sentinels s = Ok tt (bracketed s rf rl).
Proof.
  intros Hf Hl Hlv.
  destruct (lookup_lt_is_Some_2 _ _ Hlv) as [el Hel].
  unfold layout_sentinels, y, getBoundingClientRect_height, bracketed,
    y_at, height_at.
  run. rewrite at_last, Hf, Hl. simpl. by rewrite Hel.
Qed.

(** *** Whole passes *)

Lemma nonempty_ends {A} (l : list A) :
  l <> [] -> exists x z, l !! 0%nat = Some x /\ last l = Some z.
Proof.
  intros Hne. destruct l as [|x l]; [done|].
  destruct (last (x :: l)) as [z|] eqn:Hl.
  - by exists x, z.
  - by apply last_None in Hl.
Qed.

Lemma last_valid s rl :
  valid s -> last (pool s) = Some rl -> (rl < length (heap s))%nat.
Proof. rewrite last_lookup. intros Hv Hl. by eapply valid_lookup. Qed.

Lemma down_pass s :
  valid s -> NoDup (pool s) -> pool s <> [] ->
  exists s1 rf rl,
    pool s !! 0%nat = Some rf /\ last (pool s) = Some rl /\
    updateElementsPosition down s = Ok tt (bracketed s1 rf rl) /\
    cards_only s s1 /\ moved_all s s1 /\
    (forall r, r ∉ pool s -> heap s1 !! r = heap s !! r) /\
    (forall j r, pool s !! j = Some r ->
       y_at s1 r = Some (down_pos (pool_heights s) (down_anchor s) j)).
Proof.
  intros Hv Hnd Hne.
  destruct (nonempty_ends _ Hne) as (rf & rl & Hf & Hl).
  destruct (down_loop s (length (pool s))) as (s1 & Hrun & Hc & Hm & Hout & Hpos);
    [done..|].
  rewrite firstn_all in Hout.
  exists s1, rf, rl. repeat (split; [done|]). split; [|split; [done|split; [done|]]].
  - rewrite updateElementsPosition_halves. unfold bind, layout_cards.
    run. rewrite Hrun.
    rewrite <- (cards_only_pool _ _ Hc) in Hf, Hl.
    apply layout_sentinels_step; [done..|].
    eapply last_valid; [|done]. by eapply cards_only_valid.
  - split; [done|]. intros j r Hj. apply Hpos; [|done].
    by eapply lookup_lt_Some.
Qed.

Lemma top_pass s (n : nat) :
  pageSize (props s) = Some n -> (n <= length (pool s))%nat ->
  valid s -> NoDup (pool s) -> pool s <> [] ->
  exists s1 rf rl,
    pool s !! 0%nat = Some rf /\ last (pool s) = Some rl /\
    updateElementsPosition top s = Ok tt (bracketed s1 rf rl) /\
    cards_only s s1 /\ moved_all s s1 /\
    (forall r, r ∉ take n (pool s) -> heap s1 !! r = heap s !! r) /\
    (forall j r, (j < n)%nat -> pool s !! j = Some r ->
       y_at s1 r = Some (to_number (match pool s !! S j with
                                    | Some rn => y_at s1 rn
                                    | None => None
                                    end) - MARGIN * 2 - height_at s r)).
Proof.
  intros Hn Hle Hv Hnd Hne.
  destruct (nonempty_ends _ Hne) as (rf & rl & Hf & Hl).
  destruct (top_loop n s) as (s1 & Hrun & Hc & Hm & Hout & Hpos); [done..|].
  exists s1, rf, rl. repeat (split; [done|]). split; [|done].
  rewrite updateElementsPosition_halves. unfold bind, layout_cards.
  run. rewrite Hn, Hrun.
  rewrite <- (cards_only_pool _ _ Hc) in Hf, Hl.
  apply layout_sentinels_step; [done..|].
  eapply last_valid; [|done]. by eapply cards_only_valid.
Qed.

Lemma down_pos_shift (heights : list Z) (y0 d : Z) (j : nat) :
  down_pos heights (y0 + d) j = down_pos heights y0 j + d.
Proof. induction j as [|j IH]; simpl; [done|]. rewrite IH. lia. Qed.

Lemma pool_heights_moved s s' :
  cards_only s s' -> moved_all s s' -> pool_heights s' = pool_heights s.
Proof.
  intros Hc Hm. unfold pool_heights. rewrite (cards_only_pool _ _ Hc).
  apply list_fmap_ext. intros i r _. by apply moved_all_height.
Qed.

Lemma bracketed_valid s rf rl : valid (bracketed s rf rl) <-> valid s.
Proof. done. Qed.

(** ** The position engine *)

(** C4, as amended.  A down pass over a non-empty pool of distinct, created
    cards returns, keeps the pool, and stacks every card under its
    predecessor: the position of [curr] is the position of [prev] plus the
    height of [prev] plus [2 * MARGIN].  The first card is stacked in the
    same way under the place the last card had before the pass, and is put
    at 0 only when the last card had no stored position. *)
Theorem down_pass_stacks_cards s :
  valid s -> NoDup (pool s) -> pool s <> [] ->
  exists s' rf rl,
    updateElementsPosition down s = Ok tt s' /\ pool s' = pool s /\
    pool s !! 0%nat = Some rf /\ last (pool s) = Some rl /\
    y_at s' rf = Some (match y_at s rl with
                       | None => 0
                       | Some yl => yl + height_at s rl + 2 * MARGIN
                       end) /\
    (forall i prev curr,
       pool s !! i = Some prev -> pool s !! S i = Some curr ->
       exists yp, y_at s' prev = Some yp /\
                  y_at s' curr = Some (yp + height_at s' prev + 2 * MARGIN)).
Proof.
  intros Hv Hnd Hne.
  destruct (down_pass s) as (s1 & rf & rl & Hf & Hl & Hrun & Hc & Hm & _ & Hpos);
    [done..|].
  exists (bracketed s1 rf rl), rf, rl.
  split; [done|]. split; [exact (cards_only_pool _ _ Hc)|].
  split; [done|]. split; [done|]. split.
  - change (y_at (bracketed s1 rf rl) rf) with (y_at s1 rf).
    rewrite (Hpos 0%nat rf Hf). simpl. unfold down_anchor. rewrite Hl.
    destruct (y_at s rl); f_equal; lia.
  - intros i prev curr Hp Hcu.
    exists (down_pos (pool_heights s) (down_anchor s) i).
    change (y_at (bracketed s1 rf rl)) with (y_at s1).
    change (height_at (bracketed s1 rf rl)) with (height_at s1).
    split; [by apply Hpos|].
    rewrite (Hpos (S i) curr Hcu). simpl.
    rewrite (pool_heights_lookup s i prev Hp).
    rewrite (moved_all_height s s1) by done.
    f_equal. lia.
Qed.

(** C5, as amended.  With the cards' heights unchanged, a second down pass
    right after the first does not reproduce the positions: it moves every
    pooled card by one and the same amount, the distance from the first
    card's position to the lower edge of the last card (its position plus
    its height plus [2 * MARGIN]), as they were after the first pass.  The
    offsets between cards are the same after both passes. *)
Theorem down_pass_twice_shifts s :
  valid s -> NoDup (pool s) -> pool s <> [] ->
  exists s1 s2 rf rl yf yl,
    updateElementsPosition down s = Ok tt s1 /\
    updateElementsPosition down s1 = Ok tt s2 /\
    pool s1 = pool s /\ pool s2 = pool s /\
    (forall r, height_at s2 r = height_at s1 r) /\
    pool s !! 0%nat = Some rf /\ last (pool s) = Some rl /\
    y_at s1 rf = Some yf /\ y_at s1 rl = Some yl /\
    forall r, r ∈ pool s ->
      exists y1, y_at s1 r = Some y1 /\
        y_at s2 r = Some (y1 + (yl + height_at s1 rl + 2 * MARGIN - yf)).
Proof.
  intros Hv Hnd Hne.
  destruct (down_pass s)
    as (t1 & rf & rl & Hf & Hl & Hrun1 & Hc1 & Hm1 & _ & Hpos1); [done..|].
  set (s1 := bracketed t1 rf rl) in *.
  assert (Hpool1 : pool s1 = pool s) by exact (cards_only_pool _ _ Hc1).
  destruct (down_pass s1)
    as (t2 & rf' & rl' & Hf' & Hl' & Hrun2 & Hc2 & Hm2 & _ & Hpos2).
  { apply bracketed_valid. by eapply cards_only_valid. }
  { by rewrite Hpool1. }
  { by rewrite Hpool1. }
  rewrite Hpool1 in Hf', Hl', Hpos2.
  assert (rf' = rf) as -> by congruence.
  assert (rl' = rl) as -> by congruence.
  assert (Hlast : pool s !! pred (length (pool s)) = Some rl)
    by by rewrite <- last_lookup.
  set (hs := pool_heights s) in *. set (a := down_anchor s) in *.
  assert (Hhs : pool_heights s1 = hs) by exact (pool_heights_moved _ _ Hc1 Hm1).
  assert (Hyl : y_at s1 rl = Some (down_pos hs a (pred (length (pool s)))))
    by by apply Hpos1.
  assert (Ha : down_anchor s1
               = a + (down_pos hs a (pred (length (pool s)))
                      + height_at s1 rl + 2 * MARGIN - a)).
  { unfold down_anchor at 1. rewrite Hpool1, Hl, Hyl. lia. }
  rewrite Hhs, Ha in Hpos2.
  exists s1, (bracketed t2 rf rl), rf, rl, a,
    (down_pos hs a (pred (length (pool s)))).
  split; [done|]. split; [done|]. split; [done|].
  split; [rewrite <- Hpool1; exact (cards_only_pool _ _ Hc2)|].
  split; [intros r; exact (moved_all_height s1 t2 r Hc2 Hm2)|].
  split; [done|]. split; [done|].
  split; [exact (Hpos1 0%nat rf Hf)|]. split; [done|].
  intros r (j & Hj)%list_elem_of_lookup.
  exists (down_pos hs a j). split; [by apply Hpos1|].
  change (y_at (bracketed t2 rf rl) r) with (y_at t2 r).
  by rewrite (Hpos2 j r Hj), down_pos_shift.
Qed.

(** C6.  A top pass on a pool of distinct, created cards that holds more
    than [pageSize] cards, the one at index [pageSize] having a stored
    position, returns, and leaves every card at an index [i < pageSize] at
    the position of the card at [i + 1] minus its own height minus
    [2 * MARGIN].  No other card is written: the cards at the indices from
    [pageSize] on, and the cards outside the pool, are what they were. *)
Theorem top_pass_stacks_upwards s (n : nat) (rn : ref) (yn : Z) :
  pageSize (props s) = Some n ->
  valid s -> NoDup (pool s) ->
  pool s !! n = Some rn -> y_at s rn = Some yn ->
  exists s',
    updateElementsPosition top s = Ok tt s' /\ pool s' = pool s /\
    (forall i curr, (i < n)%nat -> pool s !! i = Some curr ->
       exists next y_next,
         pool s !! S i = Some next /\ y_at s' next = Some y_next /\
         y_at s' curr = Some (y_next - height_at s' curr - 2 * MARGIN)) /\
    (forall i r, (n <= i)%nat -> pool s !! i = Some r ->
       heap s' !! r = heap s !! r) /\
    (forall r, r ∉ pool s -> heap s' !! r = heap s !! r).
Proof.
  intros Hn Hv Hnd Hrn Hyn.
  assert (Hlt : (n < length (pool s))%nat) by by eapply lookup_lt_Some.
  destruct (top_pass s n)
    as (s1 & rf & rl & Hf & Hl & Hrun & Hc & Hm & Hout & Hpos);
    [done | lia | done | done | |].
  { intros E. rewrite E in Hrn. done. }
  assert (Hkeep : forall i r, (n <= i)%nat -> pool s !! i = Some r ->
            heap s1 !! r = heap s !! r).
  { intros i r Hi Hr. apply Hout.
    intros (j & Hj & Hjn)%elem_of_take.
    assert (j = i) by by eapply NoDup_lookup. lia. }
  exists (bracketed s1 rf rl).
  split; [done|]. split; [exact (cards_only_pool _ _ Hc)|].
  change (heap (bracketed s1 rf rl)) with (heap s1).
  split; [|split; [done|]].
  - intros i curr Hi Hcu.
    change (y_at (bracketed s1 rf rl)) with (y_at s1).
    change (height_at (bracketed s1 rf rl)) with (height_at s1).
    destruct (lookup_lt_is_Some_2 (pool s) (S i)) as [next Hnext]; [lia|].
    assert (exists y_next, y_at s1 next = Some y_next) as [y_next Hy].
    { destruct (decide (S i = n)) as [E|E].
      - rewrite E in Hnext. assert (next = rn) as -> by congruence.
        exists yn. rewrite <- Hyn. apply y_at_unchanged. by eapply Hkeep.
      - eexists. apply (Hpos (S i)); [lia | done]. }
    exists next, y_next. split; [done|]. split; [done|].
    rewrite (Hpos i curr Hi Hcu), Hnext, Hy. simpl.
    rewrite (moved_all_height s s1) by done. f_equal. lia.
  - intros r Hr. apply Hout. intros (j & Hj & _)%elem_of_take. apply Hr.
    by eapply list_elem_of_lookup_2.
Qed.

Lemma top_pass_without_page_size s :
  pageSize (props s) = None -> valid s -> pool s <> [] ->
  exists rf rl,
    pool s !! 0%nat = Some rf /\ last (pool s) = Some rl /\
    updateElementsPosition top s = Ok tt (bracketed s rf rl).
Proof.
  intros Hn Hv Hne.
  destruct (nonempty_ends _ Hne) as (rf & rl & Hf & Hl).
  exists rf, rl. split; [done|]. split; [done|].
  rewrite updateElementsPosition_halves. unfold bind, layout_cards.
  run. rewrite Hn. simpl.
  apply layout_sentinels_step; [done..|]. by eapply last_valid.
Qed.

Lemma placed_from_start s : placed s <-> placed_from 0 s.
Proof.
  unfold placed, placed_from. rewrite Forall_lookup. split.
  - intros H i r _ Hr. by apply (H i).
  - intros H i r Hr. apply (H i); [lia | done].
Qed.

(** What either pass leaves behind, as far as the sentinels care: every
    pooled card has a stored position, provided the cards the top pass does
    not write had one. *)
Lemma pass_brackets (direction : Direction) s :
  valid s -> NoDup (pool s) -> pool s <> [] ->
  (direction = top ->
   exists n, pageSize (props s) = Some n /\
             (n <= length (pool s))%nat /\ placed_from n s) ->
  exists s1 rf rl,
    pool s !! 0%nat = Some rf /\ last (pool s) = Some rl /\
    updateElementsPosition direction s = Ok tt (bracketed s1 rf rl) /\
    cards_only s s1 /\ moved_all s s1 /\ placed s1.
Proof.
  intros Hv Hnd Hne Htop.
  enough (exists s1 rf rl,
    pool s !! 0%nat = Some rf /\ last (pool s) = Some rl /\
    updateElementsPosition direction s = Ok tt (bracketed s1 rf rl) /\
    cards_only s s1 /\ moved_all s s1 /\
    Forall (fun r => is_Some (y_at s1 r)) (pool s))
    as (s1 & rf & rl & Hf & Hl & Hrun & Hc & Hm & Hall).
  { exists s1, rf, rl. repeat (split; [done|]).
    unfold placed. by rewrite (cards_only_pool _ _ Hc). }
  destruct direction.
  - destruct Htop as (n & Hn & Hle & Hfrom); [done|].
    destruct (top_pass s n)
      as (s1 & rf & rl & Hf & Hl & Hrun & Hc & Hm & Hout & Hpos); [done..|].
    exists s1, rf, rl. repeat (split; [done|]).
    apply Forall_lookup_2. intros j r Hj.
    destruct (decide (j < n)%nat) as [Hlt|Hge].
    + by rewrite (Hpos j r Hlt Hj).
    + rewrite (y_at_unchanged s s1 r).
      { apply (Hfrom j); [lia | done]. }
      apply Hout. intros (j' & Hj' & Hlt)%elem_of_take.
      assert (j' = j) by by eapply NoDup_lookup. lia.
  - destruct (down_pass s)
      as (s1 & rf & rl & Hf & Hl & Hrun & Hc & Hm & _ & Hpos); [done..|].
    exists s1, rf, rl. repeat (split; [done|]).
    apply Forall_lookup_2. intros j r Hj.
    by rewrite (Hpos j r Hj).
Qed.

(** C7.  Either pass, on a non-empty pool of distinct, created cards (for
    the top pass: a page size within the pool, and a stored position on the
    cards from index [pageSize] on, which the pass does not write), returns
    with the top sentinel translated to the stored position of the first
    card and the bottom sentinel translated to the stored position of the
    last card plus its height plus [2 * MARGIN]: the [style.transform] of
    either sentinel is the text [translateY(], the decimal numeral of that
    position, [px)]. *)
Theorem sentinels_bracket_pool (direction : Direction) s :
  valid s -> NoDup (pool s) -> pool s <> [] ->
  (direction = top ->
   exists n, pageSize (props s) = Some n /\
             (n <= length (pool s))%nat /\ placed_from n s) ->
  exists s' rf rl yf yl,
    updateElementsPosition direction s = Ok tt s' /\
    pool s' !! 0%nat = Some rf /\ last (pool s') = Some rl /\
    y_at s' rf = Some yf /\ y_at s' rl = Some yl /\
    top_style s' = Some ("translateY(" +:+ pretty yf +:+ "px)") /\
    bottom_style s'
    = Some ("translateY("
            +:+ pretty (yl + height_at s' rl + 2 * MARGIN) +:+ "px)").
Proof.
  intros Hv Hnd Hne Htop.
  destruct (pass_brackets direction s)
    as (s1 & rf & rl & Hf & Hl & Hrun & Hc & Hm & Hplaced); [done..|].
  rewrite <- (cards_only_pool _ _ Hc) in Hf, Hl.
  pose proof Hl as Hl'. rewrite last_lookup in Hl'.
  destruct (Forall_lookup_1 _ _ _ _ Hplaced Hf) as [yf Hyf].
  destruct (Forall_lookup_1 _ _ _ _ Hplaced Hl') as [yl Hyl].
  exists (bracketed s1 rf rl), rf, rl, yf, yl.
  do 5 (split; [done|]).
  change (height_at (bracketed s1 rf rl)) with (height_at s1).
  change (top_style (bracketed s1 rf rl))
    with (Some (translateY (y_at s1 rf))).
  change (bottom_style (bracketed s1 rf rl))
    with (Some (translateY (Some (to_number (y_at s1 rl) + MARGIN * 2
                                  + height_at s1 rl)))).
  rewrite Hyf, Hyl. split; [done|].
  unfold translateY, template_literal, to_number. simpl default.
  by replace (yl + MARGIN * 2 + height_at s1 rl)
    with (yl + height_at s1 rl + 2 * MARGIN) by lia.
Qed.

(** ** What a layout pass cannot change *)

Lemma layout_frame_refl s : layout_frame s s.
Proof. by repeat split. Qed.

Lemma layout_frame_trans s1 s2 s3 :
  layout_frame s1 s2 -> layout_frame s2 s3 -> layout_frame s1 s3.
Proof.
  unfold layout_frame. intros H12 H23.
  destruct H12 as (?&?&?&?&?&?&?&?), H23 as (?&?&?&?&?&?&?&?).
  repeat split; congruence.
Qed.

Lemma keeps_frame_ret {A} (a : A) : keeps_frame (T:=T) (ret a).
Proof. intros s. apply layout_frame_refl. Qed.

Lemma keeps_frame_throw {A} (e : Error) : keeps_frame (T:=T) (A:=A) (throw e).
Proof. intros s. apply layout_frame_refl. Qed.

Lemma keeps_frame_gets {A} (f : @State T -> A) : keeps_frame (gets f).
Proof. intros s. apply layout_frame_refl. Qed.

Lemma keeps_frame_bind {A B} (m : @M T A) (k : A -> @M T B) :
  keeps_frame m -> (forall a, keeps_frame (k a)) -> keeps_frame (bind m k).
Proof.
  intros Hm Hk s. unfold bind. specialize (Hm s).
  destruct (m s) as [a s'|e s']; simpl in Hm; [|done].
  eapply layout_frame_trans; [done | apply Hk].
Qed.

Lemma keeps_frame_for_each {A} (xs : list A) (body : A -> @M T unit) :
  (forall x, keeps_frame (body x)) -> keeps_frame (for_each xs body).
Proof.
  intros Hb. induction xs as [|x xs IH]; simpl.
  - apply keeps_frame_ret.
  - apply keeps_frame_bind; [apply Hb | done].
Qed.

Lemma keeps_frame_alter (f : Element -> Element) (r : ref) :
  keeps_frame (T:=T) (modify (fun s => set_heap (alter f r (heap s)) s)).
Proof. intros s. repeat split. simpl. apply length_alter. Qed.

Lemma keeps_frame_top_style (css : option string) :
  keeps_frame (T:=T) (modify (set_top_style css)).
Proof. intros s. by repeat split. Qed.

Lemma keeps_frame_bottom_style (css : option string) :
  keeps_frame (T:=T) (modify (set_bottom_style css)).
Proof. intros s. by repeat split. Qed.

Create HintDb frame discriminated.
#[local] Hint Resolve keeps_frame_ret keeps_frame_throw keeps_frame_gets
  keeps_frame_alter keeps_frame_top_style keeps_frame_bottom_style : frame.

Ltac frame_step :=
  match goal with
  | |- keeps_frame (bind _ _) => apply keeps_frame_bind; [|intros ?]
  | |- keeps_frame (for_each _ _) => apply keeps_frame_for_each; intros ?
  | |- keeps_frame (match ?x with _ => _ end) => destruct x
  | |- keeps_frame _ => solve [auto with frame]
  end.

Lemma keeps_frame_y (element : option ref) (value : option Z) :
  keeps_frame (T:=T) (y element value).
Proof. unfold y. repeat frame_step. Qed.

Lemma keeps_frame_height (element : option ref) :
  keeps_frame (T:=T) (getBoundingClientRect_height element).
Proof. unfold getBoundingClientRect_height. repeat frame_step. Qed.

Lemma keeps_frame_assign (element : option ref) (css : string) :
  keeps_frame (T:=T) (assign_style_transform element css).
Proof. unfold assign_style_transform. repeat frame_step. Qed.

#[local] Hint Resolve keeps_frame_y keeps_frame_height keeps_frame_assign
  : frame.

Lemma keeps_frame_down_body (i : nat) : keeps_frame (T:=T) (down_body i).
Proof. unfold down_body. repeat frame_step. Qed.

Lemma keeps_frame_top_body (i : nat) : keeps_frame (T:=T) (top_body i).
Proof. unfold top_body. repeat frame_step. Qed.

#[local] Hint Resolve keeps_frame_down_body keeps_frame_top_body : frame.

Lemma keeps_frame_updateElementsPosition (direction : Direction) :
  keeps_frame (T:=T) (updateElementsPosition direction).
Proof. unfold updateElementsPosition. repeat frame_step. Qed.

(** ** Calls to the host *)

Lemma log_all_snoc s (h : list Element) (evs : list (@Event T)) (ev : Event) :
  log ev (set_heap h (log_all evs s)) = set_heap h (log_all (evs ++ [ev]) s).
Proof. unfold log, set_heap, log_all. simpl. by rewrite app_assoc. Qed.

Lemma log_all_nil s : log_all [] s = s.
Proof. destruct s. unfold log_all. simpl. by rewrite app_nil_r. Qed.

Lemma updateData_loop s (ut : T -> Element -> Element)
    (elements : list ref) (data : list T) (k : nat) :
  updateTemplate (props s) = Some ut ->
  Forall (fun r => (r < length (heap s))%nat) elements -> NoDup elements ->
  (length data <= length elements)%nat -> (k <= length data)%nat ->
  exists h,
    for_each (seq 0 k)
      (fun i => call_updateTemplate (data !! i) (elements !! i)) s
    = Ok tt (set_heap h (log_all (zip_with Bind (take k data)
                                           (take k elements)) s)) /\
    length h = length (heap s) /\
    (forall r, r ∉ take k elements -> h !! r = heap s !! r) /\
    (forall i r d, (i < k)%nat -> elements !! i = Some r ->
       data !! i = Some d -> h !! r = ut d <$> heap s !! r).
Proof.
  intros Hut Hv Hnd Hlen. induction k as [|k IH]; intros Hk.
  - exists (heap s). split.
    { simpl. rewrite log_all_nil. by destruct s. }
    split; [done|]. split; [done|]. intros; lia.
  - destruct IH as (h & Hrun & Hl & Hout & Hin); [lia|].
    destruct (lookup_lt_is_Some_2 data k) as [d Hd]; [lia|].
    destruct (lookup_lt_is_Some_2 elements k) as [r Hr]; [lia|].
    assert (Hrv : (r < length h)%nat).
    { rewrite Hl. exact (Forall_lookup_1 _ _ _ _ Hv Hr). }
    destruct (lookup_lt_is_Some_2 _ _ Hrv) as [e He].
    assert (Hfresh : r ∉ take k elements).
    { intros (j & Hj & Hlt)%elem_of_take.
      assert (j = k) by by eapply NoDup_lookup. lia. }
    exists (alter (ut d) r h). split; [|split; [|split]].
    + rewrite seq_S, for_each_app. unfold bind at 1. rewrite Hrun. simpl.
      unfold call_updateTemplate. run. rewrite Hut, Hd, Hr. simpl.
      rewrite He. simpl.
      rewrite (take_S_r _ _ _ Hd), (take_S_r _ _ _ Hr).
      rewrite zip_with_app by (rewrite !length_take; lia).
      simpl. f_equal. apply (log_all_snoc s).
    + by rewrite length_alter.
    + intros r' Hr'. rewrite (take_S_r _ _ _ Hr) in Hr'.
      apply not_elem_of_app in Hr' as [Hr1 Hr2].
      apply not_elem_of_cons in Hr2 as [Hr2 _].
      rewrite list_lookup_alter_ne by done. by apply Hout.
    + intros i r' d' Hi Hr' Hd'.
      destruct (decide (i = k)) as [->|Hne].
      * assert (r' = r) as -> by congruence.
        assert (d' = d) as -> by congruence.
        rewrite list_lookup_alter, decide_True by done.
        by rewrite (Hout r Hfresh).
      * rewrite list_lookup_alter_ne.
        { apply (Hin i); [lia | done..]. }
        intros ->. apply Hne. symmetry. by eapply NoDup_lookup.
Qed.

Lemma updateData_rebinds s (ut : T -> Element -> Element)
    (elements : list ref) (data : list T) :
  updateTemplate (props s) = Some ut ->
  Forall (fun r => (r < length (heap s))%nat) elements -> NoDup elements ->
  length data = length elements ->
  exists h,
    updateData elements data s
    = Ok tt (set_heap h (log_all (zip_with Bind data elements) s)) /\
    length h = length (heap s) /\
    (forall r, r ∉ elements -> h !! r = heap s !! r) /\
    (forall i r d, elements !! i = Some r -> data !! i = Some d ->
       h !! r = ut d <$> heap s !! r).
Proof.
  intros Hut Hv Hnd Hlen.
  destruct (updateData_loop s ut elements data (length data))
    as (h & Hrun & Hl & Hout & Hin); [done | done | done | lia | lia |].
  rewrite firstn_all in Hrun. rewrite Hlen, firstn_all in Hrun, Hout.
  rewrite <- Hlen in Hrun.
  exists h. split; [done|]. split; [done|]. split; [done|].
  intros i r d Hr Hd. apply (Hin i); [|done..].
  by eapply lookup_lt_Some.
Qed.

Lemma append_cards_creates (gt : T -> Element) (data : list T) :
  forall s (fragment : list ref),
  getTemplate (props s) = Some gt ->
  let cards := seq (length (heap s)) (length data) in
  append_cards data fragment s
  = Ok (fragment ++ cards)
       (set_pool (pool s ++ cards)
          (set_heap (heap s ++ (gt <$> data))
             (log_all (zip_with Create data cards) s))).
Proof.
  induction data as [|d data IH]; intros s fragment Hgt; simpl.
  - unfold ret. rewrite !app_nil_r. f_equal. destruct s.
    unfold set_pool, set_heap, log_all. simpl. by rewrite !app_nil_r.
  - unfold call_getTemplate. run. rewrite Hgt. simpl.
    rewrite IH by done. simpl. rewrite length_app. simpl.
    replace (length (heap s) + 1)%nat with (S (length (heap s))) by lia.
    rewrite <- !app_assoc. simpl. f_equal.
    unfold set_pool, set_heap, log_all. simpl.
    by rewrite <- !app_assoc.
Qed.

(** ** The handlers, up to their layout pass *)

Lemma rotated_perm (n : nat) (l : list ref) : rotated n l ≡ₚ l.
Proof.
  unfold rotated. rewrite Permutation_app_comm. by rewrite take_drop.
Qed.

Lemma rotated_length (n : nat) (l : list ref) : length (rotated n l) = length l.
Proof. by rewrite (Permutation_length (rotated_perm n l)). Qed.

Lemma handleBottomObserver_begin_fetches s (gp : Z -> list T) :
  getPage (props s) = Some gp ->
  handleBottomObserver_begin s
  = Ok (gp (end_ s)) (log (Fetch (end_ s)) (set_end (end_ s + 1) s)).
Proof. intros H. unfold handleBottomObserver_begin. run. by rewrite H. Qed.

Lemma handleTopObserver_begin_fetches s (gp : Z -> list T) :
  getPage (props s) = Some gp ->
  handleTopObserver_begin s
  = Ok (gp (start s - 1))
       (log (Fetch (start s - 1))
            (set_end (end_ s - 1) (set_start (start s - 1) s))).
Proof. intros H. unfold handleTopObserver_begin. run. by rewrite H. Qed.

Lemma resume_bottom_appends s (gt : T -> Element) (lim : nat) (data : list T) :
  getTemplate (props s) = Some gt -> limit s = Some lim ->
  (length (pool s) < lim)%nat ->
  handleBottomObserver_resume data s
  = updateElementsPosition down (appended gt data s).
Proof.
  intros Hgt Hlim Hlt. unfold handleBottomObserver_resume. run.
  rewrite Hlim. simpl.
  destruct (Nat.ltb_spec (length (pool s)) lim) as [_|?]; [|lia].
  by rewrite (append_cards_creates gt data s []).
Qed.

Lemma resume_bottom_recycles s (ut : T -> Element -> Element) (n : nat)
    (data : list T) :
  updateTemplate (props s) = Some ut -> pageSize (props s) = Some n ->
  limit s = Some (n * 2)%nat -> (n * 2 <= length (pool s))%nat ->
  valid s -> NoDup (pool s) -> length data = n ->
  exists h,
    handleBottomObserver_resume data s
    = updateElementsPosition down (recycled_down n data h s) /\
    length h = length (heap s) /\
    (forall r, r ∉ take n (pool s) -> h !! r = heap s !! r) /\
    (forall i r d, take n (pool s) !! i = Some r -> data !! i = Some d ->
       h !! r = ut d <$> heap s !! r).
Proof.
  intros Hut Hn Hlim Hlen Hv Hnd Hdata.
  destruct (updateData_rebinds (set_pool (rotated n (pool s)) s) ut
              (take n (pool s)) data)
    as (h & Hrun & Hl & Hout & Hin); [done | | | |].
  { by apply Forall_take. }
  { eapply sublist_NoDup; [done | apply sublist_take]. }
  { rewrite length_take. lia. }
  exists h. split; [|done].
  unfold handleBottomObserver_resume. run.
  rewrite Hlim. simpl.
  destruct (Nat.ltb_spec (length (pool s)) (n * 2)) as [?|_]; [lia|].
  rewrite Hn. simpl.
  unfold rotated in Hrun. by rewrite Hrun.
Qed.

Lemma resume_top_recycles s (ut : T -> Element -> Element) (n : nat)
    (data : list T) :
  updateTemplate (props s) = Some ut -> pageSize (props s) = Some n ->
  length (pool s) = (n * 2)%nat ->
  valid s -> NoDup (pool s) -> length data = n ->
  exists h,
    handleTopObserver_resume data s
    = updateElementsPosition top (recycled_up n data h s) /\
    length h = length (heap s) /\
    (forall r, r ∉ drop n (pool s) -> h !! r = heap s !! r) /\
    (forall i r d, drop n (pool s) !! i = Some r -> data !! i = Some d ->
       h !! r = ut d <$> heap s !! r).
Proof.
  intros Hut Hn Hlen Hv Hnd Hdata.
  destruct (updateData_rebinds (set_pool (rotated n (pool s)) s) ut
              (drop n (pool s)) data)
    as (h & Hrun & Hl & Hout & Hin); [done | | | |].
  { by apply Forall_drop. }
  { eapply sublist_NoDup; [done | apply sublist_drop]. }
  { rewrite length_drop. lia. }
  exists h. split; [|done].
  unfold handleTopObserver_resume. run. rewrite Hn. simpl.
  unfold rotated in Hrun. by rewrite Hrun.
Qed.

Lemma notify_bottom_visible s :
  notify [bottom_visible] s = settle (handleBottomObserver s).
Proof.
  unfold notify, handleBottomObserver, bind, handleIntersectionObserver,
    handle_entry, bottom_visible, call_async.
  simpl. by destruct (handleBottomObserver_begin s).
Qed.

Lemma notify_top_visible s :
  0 < start s -> notify [top_visible] s = settle (handleTopObserver s).
Proof.
  intros Hpos.
  unfold notify, handleTopObserver, bind, handleIntersectionObserver,
    handle_entry, top_visible, call_async.
  simpl. destruct (Z.ltb_spec 0 (start s)) as [_|?]; [|lia].
  by destruct (handleTopObserver_begin s).
Qed.

Lemma rotated_valid (n : nat) s (h : list Element) :
  valid s -> length h = length (heap s) ->
  Forall (fun r => (r < length h)%nat) (rotated n (pool s)).
Proof.
  intros Hv ->. by rewrite (rotated_perm n (pool s)).
Qed.

Lemma rotated_NoDup (n : nat) (l : list ref) : NoDup l -> NoDup (rotated n l).
Proof. intros H. by rewrite (rotated_perm n l). Qed.

Lemma rotated_nonempty (n : nat) (l : list ref) : l <> [] -> rotated n l <> [].
Proof.
  intros Hne E. apply Hne. apply length_zero_iff_nil.
  by rewrite <- (rotated_length n l), E.
Qed.

(** ** The window manager *)

(** C1.  A bottom trigger handled on a full pool ([2 * pageSize] distinct,
    created cards) whose page has [pageSize] records returns; the pool is
    the previously remaining cards followed by the first [pageSize] ones,
    so its length is unchanged; the host is asked for page [end] and then
    to rebind exactly the first [pageSize] cards, in pool order, to the
    records in page order, after which each of them is the rebound card,
    at most moved by the layout pass; no card is created; [start] and [end]
    are both one more. *)
Theorem bottom_trigger_at_limit_recycles s (gp : Z -> list T)
    (ut : T -> Element -> Element) (n : nat) :
  getPage (props s) = Some gp -> updateTemplate (props s) = Some ut ->
  pageSize (props s) = Some n -> limit s = Some (n * 2)%nat ->
  (0 < n)%nat -> valid s -> NoDup (pool s) ->
  length (pool s) = (2 * n)%nat -> length (gp (end_ s)) = n ->
  exists s',
    handleBottomObserver s = Ok tt s' /\
    notify [bottom_visible] s = s' /\
    length (pool s') = (2 * n)%nat /\
    pool s' = drop n (pool s) ++ take n (pool s) /\
    trace s'
    = trace s ++ Fetch (end_ s) :: zip_with Bind (gp (end_ s))
                                                (take n (pool s)) /\
    (forall i r d e0,
       pool s !! i = Some r -> gp (end_ s) !! i = Some d ->
       heap s !! r = Some e0 ->
       exists e, heap s' !! r = Some e /\ moved (ut d e0) e) /\
    length (heap s') = length (heap s) /\
    start s' = start s + 1 /\ end_ s' = end_ s + 1.
Proof.
  intros Hgp Hut Hn Hlim Hpos Hv Hnd Hlen Hdata.
  set (sb := log (Fetch (end_ s)) (set_end (end_ s + 1) s)).
  destruct (resume_bottom_recycles sb ut n (gp (end_ s)))
    as (h & Hres & Hl & Hout & Hin);
    [exact Hut | exact Hn | exact Hlim | simpl; lia | exact Hv | exact Hnd
    | exact Hdata |].
  set (sr := recycled_down n (gp (end_ s)) h sb) in *.
  destruct (down_pass sr)
    as (s1 & rf & rl & _ & _ & Hrun & Hc & Hm & _ & _).
  { by apply rotated_valid. }
  { by apply rotated_NoDup. }
  { apply rotated_nonempty. intros E. change (pool s = []) in E.
    rewrite E in Hlen. simpl in Hlen. lia. }
  assert (Hok : handleBottomObserver s = Ok tt (bracketed s1 rf rl)).
  { unfold handleBottomObserver, bind.
    rewrite (handleBottomObserver_begin_fetches s gp Hgp).
    fold sb. by rewrite Hres. }
  exists (bracketed s1 rf rl). split; [done|].
  split; [by rewrite notify_bottom_visible, Hok|].
  destruct Hc as (h1 & -> & Hl1). simpl in *.
  split; [by rewrite rotated_length|]. split; [done|].
  split; [by rewrite <- app_assoc|].
  split; [|split; [congruence | done]].
  intros i r d e0 Hr Hd He0.
  assert (Hi : (i < n)%nat).
  { rewrite <- Hdata. by eapply lookup_lt_Some. }
  assert (Hh : h !! r = Some (ut d e0)).
  { rewrite (Hin i r d), He0; [done | | done].
    by rewrite lookup_take_lt. }
  exact (Hm r _ Hh).
Qed.

(** C2.  A top trigger handled with [start > 0] on a full pool whose page
    has [pageSize] records returns; [start] and [end] are both one less;
    the page fetched is the new [start]; the last [pageSize] cards in
    prior pool order are the ones rebound, in order, to the records, and
    they now come first in the pool, followed by the first [pageSize]
    cards, which are exactly what they were. *)
Theorem top_trigger_recycles_upwards s (gp : Z -> list T)
    (ut : T -> Element -> Element) (n : nat) :
  getPage (props s) = Some gp -> updateTemplate (props s) = Some ut ->
  pageSize (props s) = Some n ->
  (0 < n)%nat -> valid s -> NoDup (pool s) ->
  length (pool s) = (2 * n)%nat -> 0 < start s ->
  length (gp (start s - 1)) = n ->
  exists s',
    handleTopObserver s = Ok tt s' /\
    notify [top_visible] s = s' /\
    start s' = start s - 1 /\ end_ s' = end_ s - 1 /\
    trace s'
    = trace s ++ Fetch (start s')
                 :: zip_with Bind (gp (start s'))
                                  (drop (length (pool s) - n) (pool s)) /\
    pool s' = drop (length (pool s) - n) (pool s) ++ take n (pool s) /\
    (forall i r d e0,
       drop (length (pool s) - n) (pool s) !! i = Some r ->
       gp (start s') !! i = Some d -> heap s !! r = Some e0 ->
       exists e, heap s' !! r = Some e /\ moved (ut d e0) e) /\
    (forall r, r ∈ take n (pool s) -> heap s' !! r = heap s !! r).
Proof.
  intros Hgp Hut Hn Hpos Hv Hnd Hlen Hstart Hdata.
  replace (length (pool s) - n)%nat with n by lia.
  set (sb := log (Fetch (start s - 1))
               (set_end (end_ s - 1) (set_start (start s - 1) s))).
  destruct (resume_top_recycles sb ut n (gp (start s - 1)))
    as (h & Hres & Hl & Hout & Hin);
    [exact Hut | exact Hn | simpl; lia | exact Hv | exact Hnd | exact Hdata |].
  set (sr := recycled_up n (gp (start s - 1)) h sb) in *.
  destruct (top_pass sr n)
    as (s1 & rf & rl & _ & _ & Hrun & Hc & Hm & Hkeep & _).
  { done. }
  { simpl. rewrite rotated_length. lia. }
  { by apply rotated_valid. }
  { by apply rotated_NoDup. }
  { apply rotated_nonempty. intros E. change (pool s = []) in E.
    rewrite E in Hlen. simpl in Hlen. lia. }
  assert (Hok : handleTopObserver s = Ok tt (bracketed s1 rf rl)).
  { unfold handleTopObserver, bind.
    rewrite (handleTopObserver_begin_fetches s gp Hgp).
    fold sb. by rewrite Hres. }
  exists (bracketed s1 rf rl). split; [done|].
  split; [by rewrite notify_top_visible, Hok|].
  destruct Hc as (h1 & E1 & Hl1).
  assert (Hheap : heap (bracketed s1 rf rl) = h1) by by rewrite E1.
  rewrite Hheap. rewrite E1. simpl.
  split; [done|]. split; [done|].
  split; [by rewrite <- app_assoc|]. split; [done|].
  rewrite E1 in Hm, Hkeep. simpl in Hm, Hkeep, Hl1.
  change (heap sb) with (heap s) in Hout, Hin.
  change (pool sb) with (pool s) in Hout, Hin.
  split.
  - intros i r d e0 Hr Hd He0.
    assert (Hh : h !! r = Some (ut d e0)).
    { by rewrite (Hin i r d), He0. }
    exact (Hm r _ Hh).
  - intros r Hr.
    assert (Hnot : r ∉ drop n (pool s)).
    { intros Hin'. rewrite <- (take_drop n (pool s)) in Hnd.
      apply NoDup_app in Hnd as (_ & Hdisj & _). by apply (Hdisj r). }
    rewrite Hkeep; [by apply Hout|].
    unfold rotated. rewrite take_app_length'; [done|].
    rewrite length_drop. lia.
Qed.

(** C8.  A top-sentinel entry examined while [start] is 0 starts no
    handler and leaves the whole state as it was: no fetch is logged, the
    cursors, the pool and every card, with its position, are untouched. *)
Theorem top_trigger_at_start_zero_is_ignored s (visible : bool) :
  start s = 0 ->
  handleIntersectionObserver [mkEntry "top-observer" visible] s = (s, []) /\
  notify [mkEntry "top-observer" visible] s = s.
Proof.
  intros H0.
  unfold notify, handleIntersectionObserver, handle_entry. simpl.
  rewrite H0. simpl. by destruct visible.
Qed.

(** ** Reachable states *)

Lemma notify_cases s (entry : Entry) :
  notify [entry] s = s \/
  (0 < start s /\ notify [entry] s = settle (handleTopObserver s)) \/
  notify [entry] s = settle (handleBottomObserver s).
Proof.
  destruct entry as [id [|]]; [|by left].
  unfold notify, handleIntersectionObserver, handle_entry. simpl.
  destruct (String.eqb id "top-observer" && (0 <? start s)) eqn:Htop.
  - apply andb_true_iff in Htop as [_ Hpos%Z.ltb_lt].
    right; left. split; [done|].
    unfold handleTopObserver, bind, call_async.
    by destruct (handleTopObserver_begin s).
  - destruct (String.eqb id "bottom-observer"); [|by left].
    right; right.
    unfold handleBottomObserver, bind, call_async.
    by destruct (handleBottomObserver_begin s).
Qed.

Lemma window_invariant_frame (p : @Props T) (n : nat) s s' :
  layout_frame s s' -> window_invariant p n s -> window_invariant p n s'.
Proof.
  intros (Hp & Hs & He & Hl & Hpool & _ & _ & Hh).
  unfold window_invariant, valid. by rewrite Hp, Hs, He, Hl, Hpool, Hh.
Qed.

Lemma window_invariant_settle (p : @Props T) (n : nat) (r : @Result T unit) :
  window_invariant p n (final r) -> window_invariant p n (settle r).
Proof. by destruct r. Qed.

Lemma window_invariant_initial (p : @Props T) (n : nat) s :
  pageSize p = Some n -> initialize p = Ok tt s -> window_invariant p n s.
Proof.
  intros Hn. unfold initialize, constructor, render. run. rewrite Hn.
  intros [= <-]. unfold window_invariant, valid. simpl.
  repeat split; try done; try lia. apply NoDup_nil_2.
Qed.

Lemma window_invariant_appended (p : @Props T) (n : nat) (gt : T -> Element)
    (data : list T) s :
  window_invariant p n s -> length data = n ->
  (length (pool s) < n * 2)%nat ->
  window_invariant p n
    (appended gt data (log (Fetch (end_ s)) (set_end (end_ s + 1) s))).
Proof.
  intros (Hp & Hl & Hv & Hnd & Hs & Hlen & Hd & Hfull) Hdata Hlt.
  unfold window_invariant, valid, appended. simpl.
  split; [done|]. split; [done|]. split; [|split; [|split; [done|]]].
  - rewrite length_app, length_fmap. apply Forall_app. split.
    + eapply Forall_impl; [exact Hv|]. simpl. intros; lia.
    + apply Forall_seq. intros; lia.
  - apply NoDup_app. split; [done|]. split; [|apply NoDup_seq].
    intros r Hr [Hge _]%elem_of_seq.
    apply list_elem_of_lookup in Hr as [i Hi].
    pose proof (valid_lookup s i _ Hv Hi). lia.
  - rewrite length_app, length_seq, Hdata.
    assert (0 < start s -> False) by (intros H%Hfull; lia).
    split; [nia|]. split; [nia|]. intros; lia.
Qed.

Lemma window_invariant_recycled_down (p : @Props T) (n : nat) (data : list T)
    (h : list Element) s :
  window_invariant p n s -> (n * 2 <= length (pool s))%nat ->
  length h = length (heap s) ->
  window_invariant p n
    (recycled_down n data h (log (Fetch (end_ s)) (set_end (end_ s + 1) s))).
Proof.
  intros (Hp & Hl & Hv & Hnd & Hs & Hlen & Hd & Hfull) Hge Hh.
  unfold window_invariant, valid, recycled_down. simpl.
  split; [done|]. split; [done|].
  split; [by apply rotated_valid|]. split; [by apply rotated_NoDup|].
  rewrite rotated_length.
  split; [lia|]. split; [nia|]. split; [lia|]. intros _. nia.
Qed.

Lemma window_invariant_recycled_up (p : @Props T) (n : nat) (data : list T)
    (h : list Element) s :
  window_invariant p n s -> 0 < start s -> length h = length (heap s) ->
  window_invariant p n
    (recycled_up n data h
       (log (Fetch (start s - 1))
            (set_end (end_ s - 1) (set_start (start s - 1) s)))).
Proof.
  intros (Hp & Hl & Hv & Hnd & Hs & Hlen & Hd & Hfull) Hpos Hh.
  unfold window_invariant, valid, recycled_up. simpl.
  split; [done|]. split; [done|].
  split; [by apply rotated_valid|]. split; [by apply rotated_NoDup|].
  rewrite rotated_length.
  split; [lia|]. split; [nia|]. split; [lia|]. intros _. by apply Hfull.
Qed.

Section WellFormedProps.

(** A configuration with every field present, whose pages all have
    [pageSize] records. *)
Variables (gp : Z -> list T) (gt : T -> Element)
          (ut : T -> Element -> Element) (n : nat).
Hypothesis full_pages : forall page, length (gp page) = n.

Let p : @Props T := mkProps (Some gp) (Some gt) (Some ut) (Some n).

Lemma window_invariant_full s :
  window_invariant p n s -> (length (pool s) <= n * 2)%nat.
Proof. intros (_ & _ & _ & _ & _ & Hlen & Hd & _). nia. Qed.

Lemma bottom_handler_below_limit s :
  window_invariant p n s -> (length (pool s) < n * 2)%nat ->
  layout_frame
    (appended gt (gp (end_ s)) (log (Fetch (end_ s)) (set_end (end_ s + 1) s)))
    (final (handleBottomObserver s)).
Proof.
  intros Hinv Hlt. pose proof Hinv as (Hp & Hl & _).
  unfold handleBottomObserver, bind.
  rewrite (handleBottomObserver_begin_fetches s gp) by by rewrite Hp.
  rewrite (resume_bottom_appends _ gt (n * 2)); [| by simpl; rewrite Hp | done..].
  apply keeps_frame_updateElementsPosition.
Qed.

Lemma bottom_handler_at_limit s :
  window_invariant p n s -> (n * 2 <= length (pool s))%nat ->
  exists h,
    length h = length (heap s) /\
    layout_frame
      (recycled_down n (gp (end_ s)) h
         (log (Fetch (end_ s)) (set_end (end_ s + 1) s)))
      (final (handleBottomObserver s)).
Proof.
  intros Hinv Hge. pose proof Hinv as (Hp & Hl & Hv & Hnd & _).
  unfold handleBottomObserver, bind.
  rewrite (handleBottomObserver_begin_fetches s gp) by by rewrite Hp.
  destruct (resume_bottom_recycles
              (log (Fetch (end_ s)) (set_end (end_ s + 1) s)) ut n
              (gp (end_ s)))
    as (h & Hres & Hh & _);
    [by simpl; rewrite Hp | by simpl; rewrite Hp | exact Hl | exact Hge
    | exact Hv | exact Hnd | apply full_pages |].
  exists h. split; [done|]. rewrite Hres.
  apply keeps_frame_updateElementsPosition.
Qed.

Lemma top_handler_recycles s :
  window_invariant p n s -> 0 < start s ->
  exists h,
    length h = length (heap s) /\
    layout_frame
      (recycled_up n (gp (start s - 1)) h
         (log (Fetch (start s - 1))
              (set_end (end_ s - 1) (set_start (start s - 1) s))))
      (final (handleTopObserver s)).
Proof.
  intros Hinv Hpos. pose proof Hinv as (Hp & Hl & Hv & Hnd & _ & _ & _ & Hfull).
  unfold handleTopObserver, bind.
  rewrite (handleTopObserver_begin_fetches s gp) by by rewrite Hp.
  destruct (resume_top_recycles
              (log (Fetch (start s - 1))
                   (set_end (end_ s - 1) (set_start (start s - 1) s))) ut n
              (gp (start s - 1)))
    as (h & Hres & Hh & _);
    [by simpl; rewrite Hp | by simpl; rewrite Hp | by apply Hfull
    | exact Hv | exact Hnd | apply full_pages |].
  exists h. split; [done|]. rewrite Hres.
  apply keeps_frame_updateElementsPosition.
Qed.

Lemma window_invariant_notify s (entry : Entry) :
  window_invariant p n s -> window_invariant p n (notify [entry] s).
Proof.
  intros Hinv.
  destruct (notify_cases s entry) as [-> | [[Hpos ->] | ->]]; [done | |].
  - apply window_invariant_settle.
    destruct (top_handler_recycles s Hinv Hpos) as (h & Hh & Hframe).
    eapply window_invariant_frame; [exact Hframe|].
    by apply window_invariant_recycled_up.
  - apply window_invariant_settle.
    destruct (decide (length (pool s) < n * 2)%nat) as [Hlt|Hge].
    + eapply window_invariant_frame;
        [exact (bottom_handler_below_limit s Hinv Hlt)|].
      by apply window_invariant_appended.
    + destruct (bottom_handler_at_limit s Hinv) as (h & Hh & Hframe); [lia|].
      eapply window_invariant_frame; [exact Hframe|].
      apply window_invariant_recycled_down; [done | lia | done].
Qed.

Lemma reachable_invariant s : reachable p s -> window_invariant p n s.
Proof.
  induction 1 as [s Hinit | s entry _ IH].
  - by apply window_invariant_initial.
  - by apply window_invariant_notify.
Qed.

(** C10.  In every state reached while each page has [pageSize] records,
    and each handler has run to completion before the next notification,
    the pool holds [pageSize * (end - start)] cards and [end - start] is
    0, 1 or 2. *)
Theorem cursors_track_pool s :
  reachable (mkProps (Some gp) (Some gt) (Some ut) (Some n)) s ->
  Z.of_nat (length (pool s)) = Z.of_nat n * (end_ s - start s) /\
  0 <= end_ s - start s <= 2.
Proof.
  intros Hinv%reachable_invariant.
  by destruct Hinv as (_ & _ & _ & _ & _ & Hlen & Hd & _).
Qed.

(** *** The hypotheses of the handler and pass theorems are invariants *)

Lemma reachable_well_formed s :
  reachable p s ->
  props s = p /\ limit s = Some (n * 2)%nat /\ valid s /\ NoDup (pool s) /\
  0 <= start s /\ (0 < start s -> length (pool s) = (n * 2)%nat).
Proof.
  intros (Hp & Hl & Hv & Hnd & Hs & _ & _ & Hfull)%reachable_invariant.
  by repeat split.
Qed.

Hypothesis positive_page_size : (0 < n)%nat.

Lemma bottom_handler_places s :
  window_invariant p n s ->
  exists s', handleBottomObserver s = Ok tt s' /\ placed s'.
Proof.
  intros Hinv. pose proof Hinv as (Hp & Hl & Hv & Hnd & _).
  set (sb := log (Fetch (end_ s)) (set_end (end_ s + 1) s)).
  assert (exists sa, handleBottomObserver s = updateElementsPosition down sa /\
            window_invariant p n sa /\ pool sa <> [])
    as (sa & Hrun & (_ & _ & Hva & Hnda & _) & Hne).
  { unfold handleBottomObserver, bind.
    rewrite (handleBottomObserver_begin_fetches s gp) by by rewrite Hp.
    fold sb.
    destruct (decide (length (pool s) < n * 2)%nat) as [Hlt|Hge].
    - exists (appended gt (gp (end_ s)) sb). split; [|split].
      + apply (resume_bottom_appends sb gt (n * 2));
          [by simpl; rewrite Hp | done | done].
      + by apply window_invariant_appended.
      + unfold appended. simpl. rewrite full_pages.
        destruct n; [lia|]. simpl. by destruct (pool s).
    - destruct (resume_bottom_recycles sb ut n (gp (end_ s)))
        as (h & Hres & Hh & _);
        [by simpl; rewrite Hp | by simpl; rewrite Hp | exact Hl
        | simpl; lia | exact Hv | exact Hnd | apply full_pages |].
      exists (recycled_down n (gp (end_ s)) h sb). split; [done|]. split.
      + apply window_invariant_recycled_down; [done | lia | done].
      + apply rotated_nonempty. intros E. change (pool s = []) in E.
        rewrite E in Hge. simpl in Hge. lia. }
  destruct (pass_brackets down sa)
    as (s1 & rf & rl & _ & _ & Hpass & _ & _ & Hplaced); [done.. | |].
  { intros [=]. }
  exists (bracketed s1 rf rl). split; [by rewrite Hrun | done].
Qed.

(** The state in which the top handler runs its pass meets the hypotheses
    of the theorems on the top pass: the cards it will not write are the
    first [pageSize] cards of the pool before, untouched and still placed. *)
Lemma top_handler_pass_ready s :
  window_invariant p n s -> placed s -> 0 < start s ->
  exists sr,
    handleTopObserver s = updateElementsPosition top sr /\
    pageSize (props sr) = Some n /\ valid sr /\ NoDup (pool sr) /\
    length (pool sr) = (n * 2)%nat /\ placed_from n sr.
Proof.
  intros Hinv Hplaced Hpos.
  pose proof Hinv as (Hp & Hl & Hv & Hnd & _ & _ & _ & Hfull).
  specialize (Hfull Hpos).
  set (sb := log (Fetch (start s - 1))
               (set_end (end_ s - 1) (set_start (start s - 1) s))).
  destruct (resume_top_recycles sb ut n (gp (start s - 1)))
    as (h & Hres & Hh & Hout & _);
    [by simpl; rewrite Hp | by simpl; rewrite Hp | exact Hfull
    | exact Hv | exact Hnd | apply full_pages |].
  change (heap sb) with (heap s) in Hout, Hh.
  change (pool sb) with (pool s) in Hout.
  exists (recycled_up n (gp (start s - 1)) h sb).
  split.
  { unfold handleTopObserver, bind.
    rewrite (handleTopObserver_begin_fetches s gp) by by rewrite Hp.
    fold sb. exact Hres. }
  split; [by simpl; rewrite Hp|].
  split; [by apply rotated_valid|]. split; [by apply rotated_NoDup|].
  split; [simpl; by rewrite rotated_length|].
  intros i r Hi Hr. simpl in Hr. unfold rotated in Hr.
  rewrite lookup_app_r in Hr; rewrite length_drop in *; [|lia].
  apply lookup_take_Some in Hr as [Hr Hlt].
  assert (Hnot : r ∉ drop n (pool s)).
  { intros (j & Hj)%list_elem_of_lookup. rewrite lookup_drop in Hj.
    assert (n + j = i - (length (pool s) - n))%nat by by eapply NoDup_lookup.
    lia. }
  unfold y_at. simpl. rewrite (Hout r Hnot).
  exact (Forall_lookup_1 _ _ _ _ Hplaced Hr).
Qed.

Lemma top_handler_places s :
  window_invariant p n s -> placed s -> 0 < start s ->
  exists s', handleTopObserver s = Ok tt s' /\ placed s'.
Proof.
  intros Hinv Hplaced Hpos.
  destruct (top_handler_pass_ready s Hinv Hplaced Hpos)
    as (sr & Hrun & Hn & Hvr & Hndr & Hlen & Hfrom).
  destruct (pass_brackets top sr)
    as (s1 & rf & rl & _ & _ & Hpass & _ & _ & Hplaced1); [done.. | | |].
  { intros E. rewrite E in Hlen. simpl in Hlen. lia. }
  { intros _. exists n. split; [done|]. split; [lia | done]. }
  exists (bracketed s1 rf rl). split; [by rewrite Hrun | done].
Qed.

Lemma reachable_placed s : reachable p s -> placed s.
Proof.
  induction 1 as [s Hinit | s entry Hreach IH].
  - unfold initialize, constructor, render in Hinit. revert Hinit. run.
    intros [= <-]. by apply Forall_nil.
  - pose proof (reachable_invariant s Hreach) as Hinv.
    destruct (notify_cases s entry) as [-> | [[Hpos ->] | ->]]; [done | |].
    + by destruct (top_handler_places s Hinv IH Hpos) as (s' & -> & ?).
    + by destruct (bottom_handler_places s Hinv) as (s' & -> & ?).
Qed.

(** A top trigger handled in a reachable state runs its pass on a state
    the theorems on the top pass cover. *)
Lemma reachable_top_pass_ready s :
  reachable p s -> 0 < start s ->
  exists sr rn yn,
    handleTopObserver s = updateElementsPosition top sr /\
    pageSize (props sr) = Some n /\ valid sr /\ NoDup (pool sr) /\
    pool sr <> [] /\ (n <= length (pool sr))%nat /\ placed_from n sr /\
    pool sr !! n = Some rn /\ y_at sr rn = Some yn.
Proof.
  intros Hreach Hpos.
  destruct (top_handler_pass_ready s (reachable_invariant s Hreach)
              (reachable_placed s Hreach) Hpos)
    as (sr & Hrun & Hn & Hv & Hnd & Hlen & Hfrom).
  destruct (lookup_lt_is_Some_2 (pool sr) n) as [rn Hrn]; [lia|].
  destruct (Hfrom n rn (le_n n) Hrn) as [yn Hyn].
  exists sr, rn, yn. repeat (split; [done|]).
  split; [|split; [lia | done]].
  intros E. by rewrite E in Hrn.
Qed.

End WellFormedProps.

(** ** Configuration *)

(** C9, as amended.  No configuration makes initialization fail: the
    constructor and [render] check nothing.  A missing page function or a
    missing page size shows only when the first bottom-sentinel event is
    handled: that handler throws a [TypeError], and so does it for a
    missing view factory once the first page has a record and the page
    size is positive. *)
Theorem malformed_configuration_fails_late (p : @Props T) :
  exists s,
    initialize p = Ok tt s /\
    start s = 0 /\ end_ s = 0 /\ pool s = [] /\ trace s = [] /\
    (getPage p = None \/ pageSize p = None ->
     exists s', handleBottomObserver s = Throw TypeError s') /\
    (getTemplate p = None ->
     forall (gp : Z -> list T) (n : nat),
       getPage p = Some gp -> pageSize p = Some n ->
       (0 < n)%nat -> gp 0 <> [] ->
       exists s', handleBottomObserver s = Throw TypeError s').
Proof.
  destruct p as [ogp ogt out on].
  eexists. split; [reflexivity|]. simpl.
  do 4 (split; [done|]). split.
  - intros Hmiss.
    unfold handleBottomObserver, handleBottomObserver_begin. run.
    destruct ogp as [gp|]; [|by eexists].
    destruct Hmiss as [?|Hn]; [done|]. rewrite Hn.
    unfold handleBottomObserver_resume, updateData, call_updateTemplate.
    run.
    destruct (gp 0) as [|d data]; simpl.
    + unfold updateElementsPosition, y, getBoundingClientRect_height. run.
      by eexists.
    + destruct out; by eexists.
  - intros -> gp n [= ->] [= ->] Hpos Hne.
    unfold handleBottomObserver, handleBottomObserver_begin,
      handleBottomObserver_resume.
    run.
    destruct (Nat.ltb_spec 0 (n * 2)) as [_|?]; [|lia].
    destruct (gp 0) as [|d data]; [done|]. simpl.
    unfold call_getTemplate. run. by eexists.
Qed.

End Verification.

(** * The theorems at work on the concrete list *)

Ltac by_evaluation := apply (bool_decide_unpack _); vm_compute; exact I.

Lemma demo_reachable_two_pages : reachable demo_props demo_two_pages.
Proof. do 2 apply reachable_notify. by apply reachable_initial. Qed.

Lemma demo_valid_two_pages : valid demo_two_pages.
Proof. unfold valid. by_evaluation. Qed.

Lemma demo_NoDup_two_pages : NoDup (pool demo_two_pages).
Proof. by_evaluation. Qed.

Lemma demo_valid_recycled : valid demo_recycled.
Proof. unfold valid. by_evaluation. Qed.

Lemma demo_NoDup_recycled : NoDup (pool demo_recycled).
Proof. by_evaluation. Qed.

(** The scenario with pages of five records: three bottom triggers leave
    5, 10 and 10 cards in the pool, and the cursors at 1 and 3. *)
Example five_records_three_pages :
  let s1 := notify [bottom_visible] five_initial in
  let s2 := notify [bottom_visible] s1 in
  let s3 := notify [bottom_visible] s2 in
  length (pool s1) = 5%nat /\ length (pool s2) = 10%nat /\
  length (pool s3) = 10%nat /\ start s3 = 1 /\ end_ s3 = 3 /\
  pool s3 = [5; 6; 7; 8; 9; 0; 1; 2; 3; 4]%nat.
Proof. vm_compute. by repeat split. Qed.

(** After that a top trigger fetches page 0, moves the last five cards to
    the front of the pool and rebinds them to its records. *)
Example five_records_back_up :
  let s3 := notify [bottom_visible]
              (notify [bottom_visible]
                 (notify [bottom_visible] five_initial)) in
  let s4 := notify [top_visible] s3 in
  start s4 = 0 /\ end_ s4 = 2 /\
  pool s4 = [0; 1; 2; 3; 4; 5; 6; 7; 8; 9]%nat /\
  trace s4 = trace s3 ++ [Fetch 0; Bind 0 0%nat; Bind 1 1%nat; Bind 2 2%nat;
                          Bind 3 3%nat; Bind 4 4%nat].
Proof. vm_compute. by repeat split. Qed.

(** C1 on the concrete list: the third bottom trigger. *)
Lemma bottom_trigger_at_limit_recycles_witness :
  exists s',
    handleBottomObserver demo_two_pages = Ok tt s' /\
    pool s' = [2; 3; 0; 1]%nat /\ start s' = 1 /\ end_ s' = 3.
Proof.
  destruct (bottom_trigger_at_limit_recycles demo_two_pages demo_getPage
              demo_updateTemplate 2)
    as (s' & Hok & _ & _ & Hpool & _ & _ & _ & Hs & He);
    [reflexivity | reflexivity | reflexivity | reflexivity | lia
    | exact demo_valid_two_pages | exact demo_NoDup_two_pages
    | reflexivity | reflexivity |].
  exists s'. split; [exact Hok|]. split; [exact Hpool|].
  split; [exact Hs | exact He].
Defined.

(** C2 on the concrete list: scrolling back up after the recycle. *)
Lemma top_trigger_recycles_upwards_witness :
  exists s',
    handleTopObserver demo_recycled = Ok tt s' /\
    pool s' = [0; 1; 2; 3]%nat /\ start s' = 0 /\ end_ s' = 2.
Proof.
  destruct (top_trigger_recycles_upwards demo_recycled demo_getPage
              demo_updateTemplate 2)
    as (s' & Hok & _ & Hs & He & _ & Hpool & _);
    [reflexivity | reflexivity | reflexivity | lia
    | exact demo_valid_recycled | exact demo_NoDup_recycled
    | reflexivity | reflexivity | reflexivity |].
  exists s'. split; [exact Hok|]. split; [exact Hpool|].
  split; [exact Hs | exact He].
Defined.

(** C10 on the concrete list, after two pages. *)
Lemma cursors_track_pool_witness :
  Z.of_nat (length (pool demo_two_pages))
  = 2 * (end_ demo_two_pages - start demo_two_pages) /\
  0 <= end_ demo_two_pages - start demo_two_pages <= 2.
Proof.
  exact (cursors_track_pool demo_getPage demo_getTemplate demo_updateTemplate
           2 (fun page => eq_refl) demo_two_pages demo_reachable_two_pages).
Defined.

Lemma demo_valid_before_pass : valid demo_before_pass.
Proof. unfold valid. by_evaluation. Qed.

Lemma demo_NoDup_before_pass : NoDup (pool demo_before_pass).
Proof. by_evaluation. Qed.

Lemma demo_nonempty_before_pass : pool demo_before_pass <> [].
Proof. by_evaluation. Qed.

Lemma demo_nonempty_two_pages : pool demo_two_pages <> [].
Proof. by_evaluation. Qed.

(** C4, as amended, on the pass that ends the third bottom trigger. *)
Lemma down_pass_stacks_cards_witness :
  exists s',
    updateElementsPosition down demo_before_pass = Ok tt s' /\
    pool s' = [2; 3; 0; 1]%nat.
Proof.
  destruct (down_pass_stacks_cards demo_before_pass)
    as (s' & rf & rl & Hok & Hpool & _);
    [exact demo_valid_before_pass | exact demo_NoDup_before_pass
    | exact demo_nonempty_before_pass |].
  exists s'. split; [exact Hok | exact Hpool].
Defined.

(** C4 fails as stated: the down pass that ends the third bottom trigger
    leaves the first pooled card at 165, not at 0. *)
Lemma down_pass_first_card_not_at_zero :
  exists s' rf,
    updateElementsPosition down demo_before_pass = Ok tt s' /\
    s' = demo_recycled /\
    pool s' !! 0%nat = Some rf /\
    y_at s' rf = Some 165 /\ y_at s' rf <> Some 0.
Proof.
  exists demo_recycled, 2%nat.
  split; [vm_compute; reflexivity|]. split; [reflexivity|].
  split; [vm_compute; reflexivity|]. split; [vm_compute; reflexivity|].
  vm_compute. discriminate.
Qed.

Lemma demo_valid_before_first_pass : valid demo_before_first_pass.
Proof. unfold valid. by_evaluation. Qed.

Lemma demo_NoDup_before_first_pass : NoDup (pool demo_before_first_pass).
Proof. by_evaluation. Qed.

Lemma demo_nonempty_before_first_pass : pool demo_before_first_pass <> [].
Proof. by_evaluation. Qed.

(** C5, as amended, on the first page's two new cards. *)
Lemma down_pass_twice_shifts_witness :
  exists s1 s2,
    updateElementsPosition down demo_before_first_pass = Ok tt s1 /\
    updateElementsPosition down s1 = Ok tt s2 /\
    pool s2 = [0; 1]%nat.
Proof.
  destruct (down_pass_twice_shifts demo_before_first_pass
              demo_valid_before_first_pass demo_NoDup_before_first_pass
              demo_nonempty_before_first_pass)
    as (s1 & s2 & rf & rl & yf & yl & Hrun1 & Hrun2 & _ & Hpool & _).
  exists s1, s2. split; [exact Hrun1|]. split; [exact Hrun2 | exact Hpool].
Defined.

(** C5 fails as stated: the heights stay what they are, and the card that
    the first pass puts at 0 is at 145 after the second. *)
Lemma down_pass_twice_moves_cards :
  exists s2,
    updateElementsPosition down demo_before_first_pass = Ok tt demo_one_page /\
    updateElementsPosition down demo_one_page = Ok tt s2 /\
    pool s2 = pool demo_one_page /\
    height_at s2 0%nat = height_at demo_one_page 0%nat /\
    height_at s2 1%nat = height_at demo_one_page 1%nat /\
    y_at demo_one_page 0%nat = Some 0 /\ y_at s2 0%nat = Some 145 /\
    y_at demo_one_page 0%nat <> y_at s2 0%nat.
Proof.
  exists (final (updateElementsPosition down demo_one_page)).
  split; [vm_compute; reflexivity|].
  split; [vm_compute; reflexivity|].
  split; [vm_compute; reflexivity|].
  split; [vm_compute; reflexivity|].
  split; [vm_compute; reflexivity|].
  split; [vm_compute; reflexivity|].
  split; [vm_compute; reflexivity|].
  vm_compute. discriminate.
Qed.

(** C6 on the full pool of the concrete list. *)
Lemma top_pass_stacks_upwards_witness :
  exists s',
    updateElementsPosition top demo_two_pages = Ok tt s' /\
    pool s' = [0; 1; 2; 3]%nat.
Proof.
  destruct (top_pass_stacks_upwards demo_two_pages 2 2 145)
    as (s' & Hok & Hpool & _);
    [reflexivity | exact demo_valid_two_pages | exact demo_NoDup_two_pages
    | reflexivity | reflexivity |].
  exists s'. split; [exact Hok | exact Hpool].
Defined.

Lemma demo_placed_two_pages : placed demo_two_pages.
Proof. unfold placed. by_evaluation. Qed.

(** C7 on the full pool of the concrete list, for the top pass: the
    sentinels end at 0 and at 310 pixels. *)
Lemma sentinels_bracket_pool_witness :
  exists s' rl (yf yl : Z),
    updateElementsPosition top demo_two_pages = Ok tt s' /\
    top_style s' = Some ("translateY(" +:+ pretty yf +:+ "px)") /\
    bottom_style s'
    = Some ("translateY("
            +:+ pretty (yl + height_at s' rl + 2 * MARGIN) +:+ "px)") /\
    top_style s' = Some "translateY(0px)" /\
    bottom_style s' = Some "translateY(310px)".
Proof.
  destruct (sentinels_bracket_pool top demo_two_pages
              demo_valid_two_pages demo_NoDup_two_pages
              demo_nonempty_two_pages)
    as (s' & rf & rl & yf & yl & Hok & _ & _ & _ & _ & Htop & Hbottom).
  { intros _. exists 2%nat. split; [reflexivity|].
    split; [vm_compute; lia|].
    intros i r _ Hr.
    exact (Forall_lookup_1 _ _ _ _ demo_placed_two_pages Hr). }
  exists s', rl, yf, yl. split; [exact Hok|]. split; [exact Htop|].
  split; [exact Hbottom|].
  assert (Hs : s' = final (updateElementsPosition top demo_two_pages))
    by (rewrite Hok; reflexivity).
  rewrite Hs. split; vm_compute; reflexivity.
Defined.

(** C8 on the concrete list, whose [start] is 0 after two pages. *)
Lemma top_trigger_at_start_zero_is_ignored_witness :
  handleIntersectionObserver [top_visible] demo_two_pages
  = (demo_two_pages, []).
Proof.
  exact (proj1 (top_trigger_at_start_zero_is_ignored demo_two_pages true
                  eq_refl)).
Defined.

(** C9 fails as stated: a configuration with nothing in it is initialized
    without any error. *)
Lemma empty_configuration_is_accepted :
  exists s,
    initialize empty_props = Ok tt s /\
    trace s = [] /\
    forall e s', initialize empty_props <> Throw e s'.
Proof. eexists. split; [reflexivity|]. split; [reflexivity | discriminate]. Qed.

(** * Further properties of the code *)

(** ** What is kept whether a computation returns or throws *)

Section Keeps.

Context {T : Type}.
Variable R : @State T -> @State T -> Prop.
Hypothesis R_refl : forall s, R s s.
Hypothesis R_trans : forall s1 s2 s3, R s1 s2 -> R s2 s3 -> R s1 s3.

(** [m] relates the state it starts in to the state it leaves. *)
Definition keeps {A} (m : @M T A) : Prop := forall s, R s (final (m s)).

Lemma keeps_ret {A} (a : A) : keeps (ret a).
Proof. intros s. apply R_refl. Qed.

Lemma keeps_throw {A} (e : Error) : keeps (A:=A) (throw e).
Proof. intros s. apply R_refl. Qed.

Lemma keeps_gets {A} (f : @State T -> A) : keeps (gets f).
Proof. intros s. apply R_refl. Qed.

Lemma keeps_bind {A B} (m : @M T A) (k : A -> @M T B) :
  keeps m -> (forall a, keeps (k a)) -> keeps (bind m k).
Proof.
  intros Hm Hk s. unfold bind. specialize (Hm s).
  destruct (m s) as [a s'|e s']; simpl in Hm; [|done].
  eapply R_trans; [done | apply Hk].
Qed.

Lemma keeps_for_each {A} (xs : list A) (body : A -> @M T unit) :
  (forall x, keeps (body x)) -> keeps (for_each xs body).
Proof.
  intros Hb. induction xs as [|x xs IH]; simpl.
  - apply keeps_ret.
  - apply keeps_bind; [apply Hb | done].
Qed.

End Keeps.

Ltac keeps_step refl trans :=
  match goal with
  | |- keeps _ (bind _ _) => apply keeps_bind; [exact trans | |intros ?]
  | |- keeps _ (for_each _ _) =>
      apply keeps_for_each; [exact refl | exact trans | intros ?]
  | |- keeps _ (ret _) => apply keeps_ret; exact refl
  | |- keeps _ (throw _) => apply keeps_throw; exact refl
  | |- keeps _ (gets _) => apply keeps_gets; exact refl
  | |- keeps _ (match ?x with _ => _ end) => destruct x
  end.

Section Further.

Context {T : Type}.

Implicit Types (s : @State T) (r rc rp rf rl : ref).

Notation "'let*' x ':=' m 'in' k" := (bind m (fun x => k))
  (at level 10, x name, m at level 100, k at level 200).
Notation "m ';;' k" := (bind m (fun _ => k))
  (at level 100, k at level 200, right associativity).

Ltac run :=
  unfold bind, gets, modify, ret, throw; simpl.

(** ** The accessor [y] *)

(** X1.  [y(element, value)] on an element of the document stores the value and
    returns it, a later [y(element)] returns it again, and nothing but that
    element's [data-y] is written; on [undefined] either call returns
    [null] and writes nothing. *)
Theorem y_stores_then_returns s r (v : Z) (e0 : Element) :
  heap s !! r = Some e0 ->
  exists s',
    y (Some r) (Some v) s = Ok (Some v) s' /\
    y (Some r) None s' = Ok (Some v) s' /\
    s' = set_heap (<[r := setAttribute_data_y v e0]> (heap s)) s /\
    (forall value, y None value s = Ok None s).
Proof.
  intros He.
  assert (Hlt : (r < length (heap s))%nat) by by eapply lookup_lt_Some.
  eexists. split; [|split; [|split]].
  - unfold y. run. rewrite list_lookup_alter, decide_True, He by done.
    reflexivity.
  - unfold y. run. by rewrite list_lookup_alter, decide_True, He.
  - f_equal. apply list_eq. intros i.
    rewrite list_lookup_alter, list_lookup_insert.
    destruct (decide (r = i)) as [->|Hne].
    + by rewrite decide_True, He by done.
    + rewrite decide_False; [done|]. by intros [? _].
  - intros [v'|]; by unfold y.
Qed.

(** ** Passes that cannot run *)

Lemma top_pass_first_card_missing s (k : nat) :
  pageSize (props s) = Some (S k) -> (length (pool s) <= k)%nat ->
  updateElementsPosition top s = Throw TypeError s.
Proof.
  intros Hn Hlt.
  unfold updateElementsPosition. run. rewrite Hn.
  rewrite seq_S, rev_unit. simpl.
  unfold top_body at 1, y, getBoundingClientRect_height. run.
  rewrite at_succ.
  rewrite (lookup_ge_None_2 (pool s) k) by lia.
  by rewrite (lookup_ge_None_2 (pool s) (S k)) by lia.
Qed.

(** X2.  A top pass over a pool shorter than the page size throws a
    [TypeError] at its first card, before writing anything. *)
Theorem top_pass_beyond_pool_throws s (n : nat) :
  pageSize (props s) = Some n -> (length (pool s) < n)%nat ->
  updateElementsPosition top s = Throw TypeError s.
Proof.
  intros Hn Hlt. destruct n as [|k]; [lia|].
  apply (top_pass_first_card_missing s k Hn). lia.
Qed.

(** X3.  A pass over an empty pool throws a [TypeError], in either direction
    and whatever the page size, and leaves the state as it was: no
    sentinel is moved. *)
Theorem pass_over_empty_pool_throws (direction : Direction) s :
  pool s = [] -> updateElementsPosition direction s = Throw TypeError s.
Proof.
  intros Hempty. destruct direction.
  - destruct (pageSize (props s)) as [[|k]|] eqn:Hn.
    + unfold updateElementsPosition, y, getBoundingClientRect_height. run.
      rewrite Hn. simpl. by rewrite Hempty.
    + apply (top_pass_first_card_missing s k Hn).
      rewrite Hempty. simpl. lia.
    + unfold updateElementsPosition, y, getBoundingClientRect_height. run.
      rewrite Hn. simpl. by rewrite Hempty.
  - unfold updateElementsPosition, y, getBoundingClientRect_height. run.
    rewrite Hempty. simpl. unfold ret. by rewrite Hempty.
Qed.

(** ** What a pass never touches *)

(** Only positions and transforms of cards, and the sentinels, differ. *)
Definition moves_only (s s' : @State T) : Prop :=
  layout_frame s s' /\ Forall2 moved (heap s) (heap s').

Lemma moves_only_refl s : moves_only s s.
Proof.
  split; [apply layout_frame_refl|].
  induction (heap s); constructor; [apply moved_refl | done].
Qed.

Lemma moves_only_trans s1 s2 s3 :
  moves_only s1 s2 -> moves_only s2 s3 -> moves_only s1 s3.
Proof.
  intros [F12 H12] [F23 H23]. split; [by eapply layout_frame_trans|].
  revert H23. generalize (heap s3). induction H12 as [|e1 e2 l1 l2 Hm _ IH];
    intros l3 H23; inversion H23; subst; constructor.
  - by eapply moved_trans.
  - by apply IH.
Qed.

Lemma keeps_moves_only_alter (f : Element -> Element) (r : ref) :
  (forall e, moved e (f e)) ->
  keeps moves_only (T:=T)
    (modify (fun s => set_heap (alter f r (heap s)) s)).
Proof.
  intros Hf s. split.
  - repeat split. simpl. apply length_alter.
  - simpl. apply Forall2_alter_r.
    + induction (heap s); constructor; [apply moved_refl | done].
    + intros e e' _ _ Hm. eapply moved_trans; [exact Hm | apply Hf].
Qed.

Lemma keeps_moves_only_style (f : @State T -> @State T) :
  (forall s, layout_frame s (f s) /\ heap (f s) = heap s) ->
  keeps moves_only (modify f).
Proof.
  intros Hf s. destruct (Hf s) as [Hframe Hheap]. split; [done|].
  simpl. rewrite Hheap. apply moves_only_refl.
Qed.

Ltac moves_only_step :=
  first
    [ keeps_step moves_only_refl moves_only_trans
    | apply keeps_moves_only_alter; intros ?; by split
    | apply keeps_moves_only_style; intros ?; by repeat split ].

(** X4.  Whether it returns or throws, a pass changes neither the cursors, the
    pool, the rendered list, the configuration nor the trace, creates no
    card, and leaves the height and the content of every card alone. *)
Theorem pass_only_moves_cards (direction : Direction) s :
  moves_only s (final (updateElementsPosition direction s)).
Proof.
  revert s. change (keeps moves_only (updateElementsPosition direction)).
  unfold updateElementsPosition, down_body, top_body, y,
    getBoundingClientRect_height, assign_style_transform.
  repeat moves_only_step.
Qed.

(** ** Cards do not overlap *)



(** ** Entries that start nothing *)

(** X6.  Entries that are not intersecting, or whose target is neither
    sentinel, start no handler: the notification leaves the state as it
    was, whatever the cursors are. *)
Theorem idle_entries_are_ignored (entries : list Entry) s :
  Forall (fun entry =>
            isIntersecting entry = false \/
            (target_id entry <> "top-observer" /\
             target_id entry <> "bottom-observer")) entries ->
  handleIntersectionObserver entries s = (s, []) /\
  notify entries s = s.
Proof.
  intros Hidle.
  assert (H : handleIntersectionObserver entries s = (s, [])).
  { induction Hidle as [|entry entries Hentry _ IH]; [done|].
    simpl. unfold handle_entry.
    destruct Hentry as [->|[Htop Hbottom]]; [by rewrite IH|].
    apply String.eqb_neq in Htop, Hbottom. rewrite Htop, Hbottom. simpl.
    destruct (isIntersecting entry); by rewrite IH. }
  split; [done|]. unfold notify. by rewrite H.
Qed.

(** ** Rebinding *)

Lemma zip_with_take_both {A B C} (f : A -> B -> C) (l : list A) (k : list B) :
  zip_with f (take (length l) l) (take (length l) k) = zip_with f l k.
Proof.
  revert k. induction l as [|x l IH]; intros [|z k]; simpl; [done..|].
  by rewrite IH.
Qed.

(** X7.  [#updateData] with no more records than elements returns after asking
    the host, in order, to rebind the first elements to the records, one
    record each: those elements are what the host made of them, and every
    other element, the surplus of [elements] included, is left alone. *)
Theorem updateData_rebinds_in_order s (ut : T -> Element -> Element)
    (elements : list ref) (data : list T) :
  updateTemplate (props s) = Some ut ->
  Forall (fun r => (r < length (heap s))%nat) elements -> NoDup elements ->
  (length data <= length elements)%nat ->
  exists h,
    updateData elements data s
    = Ok tt (set_heap h (log_all (zip_with Bind data elements) s)) /\
    length h = length (heap s) /\
    (forall i r d, elements !! i = Some r -> data !! i = Some d ->
       h !! r = ut d <$> heap s !! r) /\
    (forall r, r ∉ take (length data) elements -> h !! r = heap s !! r).
Proof.
  intros Hut Hv Hnd Hlen.
  destruct (updateData_loop s ut elements data (length data))
    as (h & Hrun & Hl & Hout & Hin); [done..|].
  rewrite zip_with_take_both in Hrun.
  exists h. split; [done|]. split; [done|]. split; [|done].
  intros i r d Hr Hd. apply (Hin i); [|done..].
  by eapply lookup_lt_Some.
Qed.

(** ** The bottom handler on pages of any size *)

Lemma appended_valid (gt : T -> Element) (data : list T) s :
  valid s -> valid (appended gt data s).
Proof.
  intros Hv. unfold valid, appended. simpl.
  rewrite length_app, length_fmap. apply Forall_app. split.
  - eapply Forall_impl; [exact Hv|]. simpl. intros; lia.
  - apply Forall_seq. intros; lia.
Qed.

Lemma appended_NoDup (gt : T -> Element) (data : list T) s :
  valid s -> NoDup (pool s) -> NoDup (pool (appended gt data s)).
Proof.
  intros Hv Hnd. unfold appended. simpl.
  apply NoDup_app. split; [done|]. split; [|apply NoDup_seq].
  intros r Hr [Hge _]%elem_of_seq.
  apply list_elem_of_lookup in Hr as [i Hi].
  pose proof (valid_lookup s i _ Hv Hi). lia.
Qed.

(** X8.  Below the limit a bottom trigger appends one new card per record of
    the page, however many there are and whatever the limit is: the pool
    and the rendered list grow by the same new cards, [end] advances and
    [start] stays; every card that existed keeps its height and content, and
    each new card is the host's template for its record, moved into place. *)
Theorem bottom_trigger_below_limit_appends s (gp : Z -> list T)
    (gt : T -> Element) (lim : nat) :
  getPage (props s) = Some gp -> getTemplate (props s) = Some gt ->
  limit s = Some lim -> (length (pool s) < lim)%nat ->
  valid s -> NoDup (pool s) ->
  pool s <> [] \/ gp (end_ s) <> [] ->
  let data := gp (end_ s) in
  let cards := seq (length (heap s)) (length data) in
  exists s',
    handleBottomObserver s = Ok tt s' /\
    notify [bottom_visible] s = s' /\
    pool s' = pool s ++ cards /\
    list_children s' = list_children s ++ cards /\
    start s' = start s /\ end_ s' = end_ s + 1 /\
    trace s' = trace s ++ Fetch (end_ s) :: zip_with Create data cards /\
    (forall r e0, heap s !! r = Some e0 ->
       exists e, heap s' !! r = Some e /\ moved e0 e) /\
    (forall k d, data !! k = Some d ->
       exists e, heap s' !! (length (heap s) + k)%nat = Some e /\
                 moved (gt d) e).
Proof.
  intros Hgp Hgt Hlim Hlt Hv Hnd Hsome data cards.
  set (sb := log (Fetch (end_ s)) (set_end (end_ s + 1) s)).
  set (sa := appended gt data sb).
  destruct (down_pass sa)
    as (s1 & rf & rl & _ & _ & Hrun & Hc & Hm & _ & _).
  { by apply appended_valid. }
  { by apply appended_NoDup. }
  { unfold sa, appended. simpl. intros [E1 E2]%app_eq_nil.
    destruct Hsome as [?|Hdata]; [done|]. apply Hdata.
    apply (f_equal length) in E2. rewrite length_seq in E2.
    by apply length_zero_iff_nil. }
  assert (Hok : handleBottomObserver s = Ok tt (bracketed s1 rf rl)).
  { unfold handleBottomObserver, bind.
    rewrite (handleBottomObserver_begin_fetches s gp Hgp). fold sb.
    by rewrite (resume_bottom_appends sb gt lim). }
  exists (bracketed s1 rf rl). split; [done|].
  split; [by rewrite notify_bottom_visible, Hok|].
  destruct Hc as (h1 & -> & Hl1). simpl in *.
  do 4 (split; [done|]). split; [by rewrite <- app_assoc|].
  split.
  - intros r e0 Hr. apply (Hm r e0).
    change (heap sa) with (heap s ++ (gt <$> data)).
    by apply lookup_app_l_Some.
  - intros k d Hd. apply (Hm _ (gt d)).
    change (heap sa) with (heap s ++ (gt <$> data)).
    rewrite lookup_app_r by lia.
    replace (length (heap s) + k - length (heap s))%nat with k by lia.
    by rewrite list_lookup_fmap, Hd.
Qed.

(** X9.  When the pool is empty and the page fetched is empty too, the bottom
    handler throws a [TypeError] in its layout pass: the fetch was made and
    [end] was advanced, and nothing else has changed. *)
Theorem bottom_trigger_with_nothing_to_show s (gp : Z -> list T) (lim : nat) :
  getPage (props s) = Some gp -> limit s = Some lim -> (0 < lim)%nat ->
  pool s = [] -> gp (end_ s) = [] ->
  handleBottomObserver s
  = Throw TypeError (log (Fetch (end_ s)) (set_end (end_ s + 1) s)) /\
  notify [bottom_visible] s
  = log (Rejected TypeError)
        (log (Fetch (end_ s)) (set_end (end_ s + 1) s)).
Proof.
  intros Hgp Hlim Hpos Hempty Hdata.
  assert (H : handleBottomObserver s
              = Throw TypeError
                  (log (Fetch (end_ s)) (set_end (end_ s + 1) s))).
  { unfold handleBottomObserver, bind.
    rewrite (handleBottomObserver_begin_fetches s gp Hgp), Hdata.
    unfold handleBottomObserver_resume. run. rewrite Hlim, Hempty. simpl.
    destruct (Nat.ltb_spec 0 lim) as [_|?]; [|lia]. simpl.
    unfold updateElementsPosition, y, getBoundingClientRect_height. run.
    rewrite Hempty. simpl. unfold ret. rewrite Hempty. simpl.
    f_equal. destruct s. unfold log, set_end, set_list_children. simpl in *.
    by rewrite app_nil_r. }
  split; [done|]. by rewrite notify_bottom_visible, H.
Qed.

(** X10.  At the limit a page with fewer records than [pageSize] is handled like
    a full one, the pool rotated by [pageSize] and both cursors advanced,
    but only as many leading cards as there are records are rebound: every
    other card, the rest of the recycled ones included, keeps its height
    and content. *)
Theorem bottom_trigger_with_short_page s (gp : Z -> list T)
    (ut : T -> Element -> Element) (n : nat) :
  getPage (props s) = Some gp -> updateTemplate (props s) = Some ut ->
  pageSize (props s) = Some n -> limit s = Some (n * 2)%nat ->
  (n * 2 <= length (pool s))%nat ->
  valid s -> NoDup (pool s) -> pool s <> [] ->
  (length (gp (end_ s)) <= n)%nat ->
  let data := gp (end_ s) in
  exists s',
    handleBottomObserver s = Ok tt s' /\
    pool s' = drop n (pool s) ++ take n (pool s) /\
    start s' = start s + 1 /\ end_ s' = end_ s + 1 /\
    trace s'
    = trace s ++ Fetch (end_ s) :: zip_with Bind data (take n (pool s)) /\
    (forall i r d e0,
       pool s !! i = Some r -> data !! i = Some d ->
       heap s !! r = Some e0 ->
       exists e, heap s' !! r = Some e /\ moved (ut d e0) e) /\
    (forall i r e0,
       (length data <= i)%nat -> pool s !! i = Some r ->
       heap s !! r = Some e0 ->
       exists e, heap s' !! r = Some e /\ moved e0 e).
Proof.
  intros Hgp Hut Hn Hlim Hfull Hv Hnd Hne Hshort data.
  set (sb := log (Fetch (end_ s)) (set_end (end_ s + 1) s)).
  destruct (updateData_loop (set_pool (rotated n (pool s)) sb) ut
              (take n (pool s)) data (length data))
    as (h & Hrun & Hl & Hout & Hin); [done | | | | done |].
  { by apply Forall_take. }
  { eapply sublist_NoDup; [done | apply sublist_take]. }
  { rewrite length_take. unfold data. lia. }
  rewrite zip_with_take_both in Hrun.
  change (heap (set_pool (rotated n (pool s)) sb)) with (heap s)
    in Hl, Hout, Hin.
  set (sr := recycled_down n data h sb).
  assert (Hres : handleBottomObserver_resume data sb
                 = updateElementsPosition down sr).
  { unfold handleBottomObserver_resume. run. rewrite Hlim. simpl.
    destruct (Nat.ltb_spec (length (pool s)) (n * 2)) as [?|_]; [lia|].
    change (props sb) with (props s). rewrite Hn. simpl.
    fold (rotated n (pool s)). unfold updateData. by rewrite Hrun. }
  destruct (down_pass sr)
    as (s1 & rf & rl & _ & _ & Hpass & Hc & Hm & _ & _).
  { by apply rotated_valid. }
  { by apply rotated_NoDup. }
  { by apply rotated_nonempty. }
  exists (bracketed s1 rf rl). split.
  { unfold handleBottomObserver, bind.
    rewrite (handleBottomObserver_begin_fetches s gp Hgp). fold sb.
    fold data. by rewrite Hres. }
  destruct Hc as (h1 & -> & Hl1). simpl in *.
  do 3 (split; [done|]). split; [by rewrite <- app_assoc|].
  split.
  - intros i r d e0 Hr Hd He0. apply (Hm r).
    change (h !! r = Some (ut d e0)).
    assert (Hi : (i < n)%nat).
    { apply lookup_lt_Some in Hd. fold data in Hshort. lia. }
    rewrite (Hin i r d), He0; [done | | | done].
    + by eapply lookup_lt_Some.
    + by rewrite lookup_take_lt.
  - intros i r e0 Hi Hr He0. apply (Hm r).
    change (h !! r = Some e0). rewrite Hout; [done|].
    intros (j & Hj & Hlt)%elem_of_take.
    apply lookup_take_Some in Hj as [Hj _].
    assert (j = i) by by eapply NoDup_lookup. lia.
Qed.

(** ** Invariants of every configuration *)

(** What rebinding and layout keep, whether they return or throw. *)
Definition rebind_frame (s s' : @State T) : Prop :=
  props s' = props s /\ start s' = start s /\ end_ s' = end_ s /\
  limit s' = limit s /\ pool s' = pool s /\
  list_children s' = list_children s /\
  length (heap s') = length (heap s).

(** What holds of the instance and its document whatever the host passes
    as configuration and whatever the pages hold. *)
Definition sound (p : @Props T) (s : @State T) : Prop :=
  props s = p /\
  limit s = option_map (fun n => (n * 2)%nat) (pageSize p) /\
  0 <= start s <= end_ s /\
  NoDup (pool s) /\ pool s ≡ₚ list_children s /\
  list_children s = seq 0 (length (heap s)) /\
  (pageSize p = None -> pool s = []).

Lemma rebind_frame_refl s : rebind_frame s s.
Proof. by repeat split. Qed.

Lemma rebind_frame_trans s1 s2 s3 :
  rebind_frame s1 s2 -> rebind_frame s2 s3 -> rebind_frame s1 s3.
Proof.
  unfold rebind_frame. intros H12 H23.
  destruct H12 as (?&?&?&?&?&?&?), H23 as (?&?&?&?&?&?&?).
  repeat split; congruence.
Qed.

Lemma layout_frame_rebind_frame s s' : layout_frame s s' -> rebind_frame s s'.
Proof. intros (?&?&?&?&?&?&?&?). by repeat split. Qed.

Lemma keeps_rebind_frame_updateData (elements : list ref) (data : list T) :
  keeps rebind_frame (updateData elements data).
Proof.
  unfold updateData, call_updateTemplate.
  repeat first
    [ keeps_step rebind_frame_refl rebind_frame_trans
    | intros s0; repeat split; simpl; apply length_alter
    | intros s0; by repeat split ].
Qed.

Lemma sound_rebind_frame (p : @Props T) s s' :
  rebind_frame s s' -> sound p s -> sound p s'.
Proof.
  intros (Hp & Hs & He & Hl & Hpool & Hlc & Hh).
  unfold sound. by rewrite Hp, Hs, He, Hl, Hpool, Hlc, Hh.
Qed.

Lemma sound_layout (p : @Props T) (direction : Direction) s :
  sound p s -> sound p (final (updateElementsPosition direction s)).
Proof.
  apply sound_rebind_frame, layout_frame_rebind_frame,
    keeps_frame_updateElementsPosition.
Qed.

Lemma sound_log (p : @Props T) (ev : Event) s : sound p s -> sound p (log ev s).
Proof. done. Qed.

Lemma sound_settle (p : @Props T) (r : @Result T unit) :
  sound p (final r) -> sound p (settle r).
Proof. by destruct r. Qed.

Lemma append_cards_without_template (data : list T) (fragment : list ref) s :
  getTemplate (props s) = None ->
  append_cards data fragment s
  = match data with
    | [] => Ok fragment s
    | _ :: _ => Throw TypeError s
    end.
Proof.
  intros Hgt. destruct data as [|d data]; [done|].
  simpl. unfold call_getTemplate. run. by rewrite Hgt.
Qed.

(** The pool after either recycle, for a page size that may be missing. *)
Lemma sound_sliced (p : @Props T) s :
  sound p s ->
  sound p (set_pool (slice_from (pageSize (props s)) (pool s)
                     ++ slice_to (pageSize (props s)) (pool s)) s).
Proof.
  intros (Hp & Hl & Hs & Hnd & Hperm & Hlc & Hnone).
  assert (Hrot : slice_from (pageSize (props s)) (pool s)
                 ++ slice_to (pageSize (props s)) (pool s) ≡ₚ pool s).
  { rewrite Hp. destruct (pageSize p) as [k|]; simpl.
    - apply rotated_perm.
    - by rewrite Hnone. }
  unfold sound. simpl.
  split; [done|]. split; [done|]. split; [done|].
  split; [by rewrite Hrot|]. split; [by rewrite Hrot|]. split; [done|].
  rewrite Hp. intros E. rewrite E. simpl. by rewrite (Hnone E).
Qed.

Lemma sound_appended (p : @Props T) (gt : T -> Element) (data : list T)
    (lim : nat) s :
  sound p s -> limit s = Some lim ->
  sound p (appended gt data s).
Proof.
  intros (Hp & Hl & Hs & Hnd & Hperm & Hlc & Hnone) Hlim.
  unfold sound, appended. simpl.
  split; [done|]. split; [done|]. split; [done|].
  split; [|split; [|split]].
  - apply NoDup_app. split; [done|]. split; [|apply NoDup_seq].
    intros r Hr [Hge _]%elem_of_seq.
    rewrite Hperm, Hlc in Hr. apply elem_of_seq in Hr. lia.
  - by rewrite Hperm.
  - rewrite length_app, length_fmap, Hlc. symmetry. apply seq_app.
  - intros E. rewrite Hl, E in Hlim. done.
Qed.

Lemma sound_bottom_handler (p : @Props T) s :
  sound p s -> sound p (final (handleBottomObserver s)).
Proof.
  intros Hsound.
  assert (Hb : sound p (set_end (end_ s + 1) s)).
  { destruct Hsound as (?&?&?&?&?&?&?). repeat split; try done; simpl; lia. }
  unfold handleBottomObserver, handleBottomObserver_begin. run.
  destruct (getPage (props s)) as [gp|]; [|done]. simpl.
  set (sb := log (Fetch (end_ s)) (set_end (end_ s + 1) s)).
  assert (Hsb : sound p sb) by by apply sound_log.
  unfold handleBottomObserver_resume. run.
  destruct (below_limit (length (pool s)) (limit s)) eqn:Hbelow.
  - destruct (limit s) as [lim|] eqn:Hlim; [|done].
    destruct (getTemplate (props s)) as [gt|] eqn:Hgt.
    + rewrite (append_cards_creates gt (gp (end_ s)) sb []) by done.
      simpl. apply (sound_layout p down (appended gt (gp (end_ s)) sb)).
      by eapply sound_appended.
    + rewrite (append_cards_without_template (gp (end_ s)) [] sb) by done.
      destruct (gp (end_ s)); [|done].
      apply (sound_layout p down). rewrite app_nil_r.
      by destruct Hsb as (?&?&?&?&?&Hlc&?).
  - pose proof (keeps_rebind_frame_updateData
                  (slice_to (pageSize (props sb)) (pool s)) (gp (end_ s))
                  (set_pool (slice_from (pageSize (props sb)) (pool s)
                             ++ slice_to (pageSize (props sb)) (pool s)) sb))
      as Hframe.
    pose proof (sound_sliced p sb Hsb) as Hsliced.
    destruct (updateData _ _ _) as [[] s1|e s1]; simpl in Hframe.
    + apply (sound_layout p down).
      pose proof (sound_rebind_frame p _ _ Hframe Hsliced)
        as (?&?&?&?&?&?&?).
      destruct Hframe as (_ & Hs1 & He1 & _). simpl in Hs1, He1.
      destruct Hsound as (_ & _ & Hcursors & _).
      repeat split; try done; simpl; lia.
    + simpl. by eapply sound_rebind_frame.
Qed.

Lemma sound_top_handler (p : @Props T) s :
  sound p s -> 0 < start s -> sound p (final (handleTopObserver s)).
Proof.
  intros Hsound Hpos.
  assert (Hb : sound p (set_end (end_ s - 1) (set_start (start s - 1) s))).
  { destruct Hsound as (?&?&?&?&?&?&?). repeat split; try done; simpl; lia. }
  unfold handleTopObserver, handleTopObserver_begin. run.
  destruct (getPage (props s)) as [gp|]; [|done]. simpl.
  set (sb := log (Fetch (start s - 1))
               (set_end (end_ s - 1) (set_start (start s - 1) s))).
  assert (Hsb : sound p sb) by by apply sound_log.
  unfold handleTopObserver_resume. run.
  pose proof (keeps_rebind_frame_updateData
                (slice_from (pageSize (props sb)) (pool s))
                (gp (start s - 1))
                (set_pool (slice_from (pageSize (props sb)) (pool s)
                           ++ slice_to (pageSize (props sb)) (pool s)) sb))
    as Hframe.
  pose proof (sound_sliced p sb Hsb) as Hsliced.
  destruct (updateData _ _ _) as [[] s1|e s1]; simpl in Hframe.
  - apply (sound_layout p top). by eapply sound_rebind_frame.
  - simpl. by eapply sound_rebind_frame.
Qed.

Lemma sound_reachable (p : @Props T) s : reachable p s -> sound p s.
Proof.
  induction 1 as [s Hinit | s entry _ IH].
  - unfold initialize, constructor, render in Hinit. revert Hinit. run.
    intros [= <-]. repeat split; try done; simpl; try lia.
    apply NoDup_nil_2.
  - destruct (notify_cases s entry) as [-> | [[Hpos ->] | ->]]; [done | |].
    + by apply sound_settle, sound_top_handler.
    + by apply sound_settle, sound_bottom_handler.
Qed.

(** X11.  Whatever the configuration and whatever the pages hold, mounted and
    driven by notifications the cursors satisfy [0 <= start <= end]. *)
Theorem cursors_stay_ordered (p : @Props T) s :
  reachable p s -> 0 <= start s <= end_ s.
Proof. by intros (_ & _ & H & _)%sound_reachable. Qed.

(** ** The mounted list when every page is full *)

Lemma rotated_halves (n : nat) (l : list ref) :
  length l = (n * 2)%nat ->
  take n (rotated n l) = drop n l /\ drop n (rotated n l) = take n l.
Proof.
  intros Hlen. unfold rotated.
  split; [apply take_app_length' | apply drop_app_length'];
    rewrite length_drop; lia.
Qed.

Lemma rotated_twice (n : nat) (l : list ref) :
  length l = (n * 2)%nat -> rotated n (rotated n l) = l.
Proof.
  intros Hlen. destruct (rotated_halves n l Hlen) as [Ht Hd].
  unfold rotated at 1. rewrite Ht, Hd. apply take_drop.
Qed.

Lemma take_drop_disjoint (n : nat) (l : list ref) r :
  NoDup l -> r ∈ take n l -> r ∉ drop n l.
Proof.
  intros Hnd. rewrite <- (take_drop n l) in Hnd.
  apply NoDup_app in Hnd as (_ & Hdis & _). apply Hdis.
Qed.

Lemma drop_take_disjoint (n : nat) (l : list ref) r :
  NoDup l -> r ∈ drop n l -> r ∉ take n l.
Proof. intros Hnd Hd Ht. by apply (take_drop_disjoint n l r). Qed.

(** The state a handler leaves when its pass has run on [sa]: the cards
    of [sa], at most moved, between the two sentinels. *)
Lemma bracketed_frame sa s1 rf rl :
  cards_only sa s1 -> layout_frame sa (bracketed s1 rf rl).
Proof. intros (h & -> & Hh). by repeat split. Qed.

Section FullPages.

Variables (gp : Z -> list T) (gt : T -> Element)
          (ut : T -> Element -> Element) (n : nat).
Hypothesis full_pages : forall page, length (gp page) = n.
Hypothesis positive_page_size : (0 < n)%nat.

Let p : @Props T := mkProps (Some gp) (Some gt) (Some ut) (Some n).

(** The bottom handler, in a state that meets the invariant: the state its
    pass runs on, and what the pass leaves. *)
Lemma bottom_handler_steps s :
  window_invariant p n s ->
  exists sa s1 rf rl,
    handleBottomObserver s = Ok tt (bracketed s1 rf rl) /\
    pool sa !! 0%nat = Some rf /\ last (pool sa) = Some rl /\
    cards_only sa s1 /\ moved_all sa s1 /\
    (forall j r, pool sa !! j = Some r ->
       y_at s1 r = Some (down_pos (pool_heights sa) (down_anchor sa) j)) /\
    window_invariant p n sa /\
    let sb := log (Fetch (end_ s)) (set_end (end_ s + 1) s) in
    ((length (pool s) < n * 2)%nat /\ sa = appended gt (gp (end_ s)) sb \/
     length (pool s) = (n * 2)%nat /\
     exists h,
       sa = recycled_down n (gp (end_ s)) h sb /\
       length h = length (heap s) /\
       (forall r, r ∉ take n (pool s) -> h !! r = heap s !! r) /\
       (forall i r d, take n (pool s) !! i = Some r ->
          gp (end_ s) !! i = Some d -> h !! r = ut d <$> heap s !! r)).
Proof.
  intros Hinv. pose proof Hinv as (Hp & Hl & Hv & Hnd & _).
  pose proof (window_invariant_full gp gt ut n s Hinv) as Hfull.
  set (sb := log (Fetch (end_ s)) (set_end (end_ s + 1) s)).
  assert (exists sa, handleBottomObserver s = updateElementsPosition down sa /\
            window_invariant p n sa /\ pool sa <> [] /\
            ((length (pool s) < n * 2)%nat /\
             sa = appended gt (gp (end_ s)) sb \/
             length (pool s) = (n * 2)%nat /\
             exists h,
               sa = recycled_down n (gp (end_ s)) h sb /\
               length h = length (heap s) /\
               (forall r, r ∉ take n (pool s) -> h !! r = heap s !! r) /\
               (forall i r d, take n (pool s) !! i = Some r ->
                  gp (end_ s) !! i = Some d -> h !! r = ut d <$> heap s !! r)))
    as (sa & Hrun & Hinva & Hne & Hcase).
  { unfold handleBottomObserver, bind.
    rewrite (handleBottomObserver_begin_fetches s gp) by by rewrite Hp.
    fold sb.
    destruct (decide (length (pool s) < n * 2)%nat) as [Hlt|Hge].
    - exists (appended gt (gp (end_ s)) sb). split; [|split; [|split]].
      + apply (resume_bottom_appends sb gt (n * 2));
          [by simpl; rewrite Hp | done | done].
      + by apply window_invariant_appended.
      + unfold appended. simpl. rewrite full_pages.
        destruct n; [lia|]. simpl. by destruct (pool s).
      + by left.
    - destruct (resume_bottom_recycles sb ut n (gp (end_ s)))
        as (h & Hres & Hh & Hout & Hin);
        [by simpl; rewrite Hp | by simpl; rewrite Hp | exact Hl
        | simpl; lia | exact Hv | exact Hnd | apply full_pages |].
      exists (recycled_down n (gp (end_ s)) h sb).
      split; [done|]. split; [|split].
      + apply window_invariant_recycled_down; [done | lia | done].
      + apply rotated_nonempty. intros E. change (pool s = []) in E.
        rewrite E in Hge. simpl in Hge. lia.
      + right. split; [lia|]. by exists h. }
  pose proof Hinva as (_ & _ & Hva & Hnda & _).
  destruct (down_pass sa Hva Hnda Hne)
    as (s1 & rf & rl & Hf & Hl' & Hpass & Hc & Hm & _ & Hpos).
  exists sa, s1, rf, rl. split; [by rewrite Hrun|]. by repeat (split; [done|]).
Qed.

(** The top handler, likewise, when [start] is positive. *)
Lemma top_handler_steps s :
  window_invariant p n s -> 0 < start s ->
  exists h sr s1 rf rl,
    sr = recycled_up n (gp (start s - 1)) h
           (log (Fetch (start s - 1))
                (set_end (end_ s - 1) (set_start (start s - 1) s))) /\
    handleTopObserver s = Ok tt (bracketed s1 rf rl) /\
    pool sr !! 0%nat = Some rf /\ last (pool sr) = Some rl /\
    cards_only sr s1 /\ moved_all sr s1 /\
    (forall r, r ∉ take n (pool sr) -> heap s1 !! r = heap sr !! r) /\
    (forall j r, (j < n)%nat -> pool sr !! j = Some r ->
       y_at s1 r = Some (to_number (match pool sr !! S j with
                                    | Some rn => y_at s1 rn
                                    | None => None
                                    end) - MARGIN * 2 - height_at sr r)) /\
    window_invariant p n sr /\
    length h = length (heap s) /\
    (forall r, r ∉ drop n (pool s) -> h !! r = heap s !! r) /\
    (forall i r d, drop n (pool s) !! i = Some r ->
       gp (start s - 1) !! i = Some d -> h !! r = ut d <$> heap s !! r).
Proof.
  intros Hinv Hpos.
  pose proof Hinv as (Hp & Hl & Hv & Hnd & _ & _ & _ & Hfull).
  specialize (Hfull Hpos).
  set (sb := log (Fetch (start s - 1))
               (set_end (end_ s - 1) (set_start (start s - 1) s))).
  destruct (resume_top_recycles sb ut n (gp (start s - 1)))
    as (h & Hres & Hh & Hout & Hin);
    [by simpl; rewrite Hp | by simpl; rewrite Hp | exact Hfull
    | exact Hv | exact Hnd | apply full_pages |].
  change (heap sb) with (heap s) in Hout, Hh, Hin.
  change (pool sb) with (pool s) in Hout, Hin.
  set (sr := recycled_up n (gp (start s - 1)) h sb) in *.
  assert (Hinvr : window_invariant p n sr)
    by by apply window_invariant_recycled_up.
  pose proof Hinvr as (Hpr & _ & Hvr & Hndr & _).
  assert (Hlenr : length (pool sr) = (n * 2)%nat)
    by (simpl; by rewrite rotated_length).
  destruct (top_pass sr n)
    as (s1 & rf & rl & Hf & Hl' & Hpass & Hc & Hm & Hout1 & Hpos1);
    [by rewrite Hpr | lia | done | done | |].
  { intros E. rewrite E in Hlenr. simpl in Hlenr. lia. }
  exists h, sr, s1, rf, rl. split; [done|]. split.
  { unfold handleTopObserver, bind.
    rewrite (handleTopObserver_begin_fetches s gp) by by rewrite Hp.
    fold sb. by rewrite Hres. }
  by repeat (split; [done|]).
Qed.

(** *** Events that are calls to the host *)

Definition is_call (ev : @Event T) : Prop :=
  match ev with Rejected _ => False | _ => True end.

Lemma is_call_zip_with {A B} (f : A -> B -> @Event T) (l : list A)
    (k : list B) :
  (forall a b, is_call (f a b)) -> Forall is_call (zip_with f l k).
Proof.
  intros Hf. revert k.
  induction l as [|a l IH]; intros [|b k]; simpl; constructor; auto.
Qed.

(** *** Stacked cards between the sentinels *)

(** From index [k] on, each pooled card lies under its predecessor. *)
Definition stacked_from (k : nat) (s : @State T) : Prop :=
  forall i prev curr, (k <= i)%nat ->
    pool s !! i = Some prev -> pool s !! S i = Some curr ->
    exists yp, y_at s prev = Some yp /\
               y_at s curr = Some (yp + height_at s prev + 2 * MARGIN).

(** The sentinels sit at the first card and under the last one. *)
Definition sentinels_around (s : @State T) : Prop :=
  forall rf rl, pool s !! 0%nat = Some rf -> last (pool s) = Some rl ->
    exists yf yl, y_at s rf = Some yf /\ y_at s rl = Some yl /\
      top_style s = Some (translateY (Some yf)) /\
      bottom_style s
      = Some (translateY (Some (yl + height_at s rl + 2 * MARGIN))).

Definition laid_out (s : @State T) : Prop :=
  placed s /\ stacked_from 0 s /\ sentinels_around s.

Lemma bracketed_sentinels sa s1 rf rl :
  cards_only sa s1 -> placed s1 ->
  pool sa !! 0%nat = Some rf -> last (pool sa) = Some rl ->
  sentinels_around (bracketed s1 rf rl).
Proof.
  intros Hc Hplaced Hf Hl rf' rl' Hf' Hl'.
  change (pool (bracketed s1 rf rl)) with (pool s1) in Hf', Hl'.
  rewrite (cards_only_pool _ _ Hc) in Hf', Hl'.
  assert (rf' = rf) as -> by congruence.
  assert (rl' = rl) as -> by congruence.
  rewrite <- (cards_only_pool _ _ Hc) in Hf, Hl.
  rewrite last_lookup in Hl.
  destruct (Forall_lookup_1 _ _ _ _ Hplaced Hf) as [yf Hyf].
  destruct (Forall_lookup_1 _ _ _ _ Hplaced Hl) as [yl Hyl].
  exists yf, yl.
  change (y_at (bracketed s1 rf rl)) with (y_at s1).
  change (height_at (bracketed s1 rf rl)) with (height_at s1).
  split; [done|]. split; [done|].
  unfold bracketed. simpl. rewrite Hyf, Hyl. simpl.
  split; [done|]. do 3 f_equal. lia.
Qed.

Lemma laid_out_after_down sa s1 rf rl :
  cards_only sa s1 -> moved_all sa s1 ->
  pool sa !! 0%nat = Some rf -> last (pool sa) = Some rl ->
  (forall j r, pool sa !! j = Some r ->
     y_at s1 r = Some (down_pos (pool_heights sa) (down_anchor sa) j)) ->
  laid_out (bracketed s1 rf rl).
Proof.
  intros Hc Hm Hf Hl Hpos.
  assert (Hplaced : placed s1).
  { unfold placed. rewrite (cards_only_pool _ _ Hc).
    apply Forall_lookup_2. intros j r Hj. by rewrite (Hpos j r Hj). }
  split; [done|]. split; [|by eapply bracketed_sentinels].
  intros i prev curr _ Hprev Hcurr.
  change (pool (bracketed s1 rf rl)) with (pool s1) in Hprev, Hcurr.
  rewrite (cards_only_pool _ _ Hc) in Hprev, Hcurr.
  change (y_at (bracketed s1 rf rl)) with (y_at s1).
  change (height_at (bracketed s1 rf rl)) with (height_at s1).
  eexists. split; [exact (Hpos i prev Hprev)|].
  rewrite (Hpos (S i) curr Hcurr). simpl.
  rewrite (pool_heights_lookup sa i prev Hprev).
  rewrite (moved_all_height sa s1 prev Hc Hm). f_equal. lia.
Qed.

Lemma laid_out_after_top sr s1 rf rl :
  cards_only sr s1 -> moved_all sr s1 ->
  pool sr !! 0%nat = Some rf -> last (pool sr) = Some rl ->
  NoDup (pool sr) ->
  (forall r, r ∉ take n (pool sr) -> heap s1 !! r = heap sr !! r) ->
  (forall j r, (j < n)%nat -> pool sr !! j = Some r ->
     y_at s1 r = Some (to_number (match pool sr !! S j with
                                  | Some rn => y_at s1 rn
                                  | None => None
                                  end) - MARGIN * 2 - height_at sr r)) ->
  placed_from n sr -> stacked_from n sr ->
  laid_out (bracketed s1 rf rl).
Proof.
  intros Hc Hm Hf Hl Hnd Hout Hpos Hfrom Hstack.
  assert (Hkeep : forall j r, (n <= j)%nat -> pool sr !! j = Some r ->
            heap s1 !! r = heap sr !! r).
  { intros j r Hj Hr. apply Hout.
    intros (j' & Hj' & Hlt)%elem_of_take.
    assert (j' = j) by by eapply NoDup_lookup. lia. }
  assert (Hplaced : placed s1).
  { unfold placed. rewrite (cards_only_pool _ _ Hc).
    apply Forall_lookup_2. intros j r Hj.
    destruct (decide (j < n)%nat) as [Hlt|Hge].
    - by rewrite (Hpos j r Hlt Hj).
    - rewrite (y_at_unchanged sr s1 r); [|apply (Hkeep j); [lia | done]].
      apply (Hfrom j); [lia | done]. }
  split; [done|]. split; [|by eapply bracketed_sentinels].
  intros i prev curr _ Hprev Hcurr.
  change (pool (bracketed s1 rf rl)) with (pool s1) in Hprev, Hcurr.
  pose proof Hcurr as Hcurr1.
  rewrite (cards_only_pool _ _ Hc) in Hprev, Hcurr.
  change (y_at (bracketed s1 rf rl)) with (y_at s1).
  change (height_at (bracketed s1 rf rl)) with (height_at s1).
  destruct (decide (i < n)%nat) as [Hlt|Hge].
  - destruct (Forall_lookup_1 _ _ _ _ Hplaced Hcurr1) as [yc Hyc].
    pose proof (Hpos i prev Hlt Hprev) as Hy. rewrite Hcurr, Hyc in Hy.
    simpl in Hy. eexists. split; [exact Hy|].
    rewrite Hyc, (moved_all_height sr s1 prev Hc Hm). f_equal. lia.
  - destruct (Hstack i prev curr) as (yp & Hyp & Hyc); [lia | done | done |].
    exists yp.
    rewrite (y_at_unchanged sr s1 prev), (y_at_unchanged sr s1 curr);
      [| apply (Hkeep (S i)); [lia | done] | apply (Hkeep i); [lia | done]].
    by rewrite (moved_all_height sr s1 prev Hc Hm).
Qed.

(** The cards the top handler leaves alone keep their places. *)
Lemma recycled_up_tail s (h : list Element) (data : list T)
    (sb : @State T) :
  pool sb = pool s -> length (pool s) = (n * 2)%nat -> NoDup (pool s) ->
  (forall r, r ∉ drop n (pool s) -> h !! r = heap s !! r) ->
  laid_out s ->
  placed_from n (recycled_up n data h sb) /\
  stacked_from n (recycled_up n data h sb).
Proof.
  intros Hpool Hlen Hnd Hout (Hplaced & Hstack & _).
  assert (Hat : forall i r, (n <= i)%nat ->
            pool (recycled_up n data h sb) !! i = Some r ->
            pool s !! (i - n)%nat = Some r /\
            heap (recycled_up n data h sb) !! r = heap s !! r).
  { intros i r Hi Hr. simpl in Hr. rewrite Hpool in Hr. unfold rotated in Hr.
    rewrite lookup_app_r in Hr; rewrite length_drop in *; [|lia].
    replace (i - (length (pool s) - n))%nat with (i - n)%nat in Hr by lia.
    rewrite lookup_take in Hr.
    destruct (decide (i - n < n)%nat) as [Hlt|]; [|done].
    split; [done|]. simpl. apply Hout.
    apply (take_drop_disjoint n (pool s) r Hnd).
    apply elem_of_take. by exists (i - n)%nat. }
  split.
  - intros i r Hi Hr. destruct (Hat i r Hi Hr) as [Hs Hh].
    rewrite (y_at_unchanged s _ r Hh).
    exact (Forall_lookup_1 _ _ _ _ Hplaced Hs).
  - intros i prev curr Hi Hprev Hcurr.
    destruct (Hat i prev Hi Hprev) as [Hsp Hhp].
    destruct (Hat (S i) curr) as [Hsc Hhc]; [lia | done |].
    replace (S i - n)%nat with (S (i - n)) in Hsc by lia.
    destruct (Hstack (i - n)%nat prev curr) as (yp & Hyp & Hyc);
      [lia | done | done |].
    exists yp.
    rewrite (y_at_unchanged s _ prev Hhp), (y_at_unchanged s _ curr Hhc).
    unfold height_at in *. by rewrite Hhp.
Qed.

(** *** What the window shows *)

(** The card [r] is what the host made for record [d], by [getTemplate] or
    by [updateTemplate], at most moved since. *)
Definition shows (s : @State T) (r : ref) (d : T) : Prop :=
  exists e e', heap s !! r = Some e /\ moved e' e /\
               (e' = gt d \/ exists e0, e' = ut d e0).

Definition shows_page (s : @State T) (cards : list ref) (page : Z) : Prop :=
  Forall2 (shows s) cards (gp page).

(** The first [pageSize] cards show page [start], the others page
    [start + 1]. *)
Definition window_shows (s : @State T) : Prop :=
  (start s < end_ s -> shows_page s (take n (pool s)) (start s)) /\
  (start s + 1 < end_ s -> shows_page s (drop n (pool s)) (start s + 1)).

Lemma shows_moved s s' r (d : T) :
  moved_all s s' -> shows s r d -> shows s' r d.
Proof.
  intros Hm (e & e' & He & Hmv & Hsrc).
  destruct (Hm r e He) as (e2 & He2 & Hmv2).
  exists e2, e'. split; [done|]. split; [by eapply moved_trans | done].
Qed.

Lemma shows_same s s' r (d : T) :
  heap s' !! r = heap s !! r -> shows s r d -> shows s' r d.
Proof. intros Hh (e & e' & He & H). exists e, e'. by rewrite Hh. Qed.

Lemma shows_page_same s s' (cards : list ref) (page : Z) :
  (forall r, r ∈ cards -> heap s' !! r = heap s !! r) ->
  shows_page s cards page -> shows_page s' cards page.
Proof.
  intros Hh. unfold shows_page. rewrite !Forall2_same_length_lookup.
  intros [Hlen Hall]. split; [done|]. intros i r d Hr Hd.
  apply (shows_same s); [|by eapply Hall].
  apply Hh. apply list_elem_of_lookup. by exists i.
Qed.

Lemma window_shows_relaid sa s' :
  layout_frame sa s' -> moved_all sa s' -> window_shows sa -> window_shows s'.
Proof.
  intros (_ & Hs & He & _ & Hpool & _) Hm [H1 H2].
  unfold window_shows. rewrite Hs, He, Hpool.
  split; intros Hlt; [specialize (H1 Hlt) | specialize (H2 Hlt)];
    (eapply Forall2_impl; [done|]); intros r d; by apply shows_moved.
Qed.

(** Cards rebound to a page show it. *)
Lemma rebound_cards_show s (h : list Element) (cards : list ref) (page : Z)
    (s' : @State T) :
  heap s' = h -> length cards = n ->
  Forall (fun r => (r < length (heap s))%nat) cards ->
  (forall i r d, cards !! i = Some r -> gp page !! i = Some d ->
     h !! r = ut d <$> heap s !! r) ->
  shows_page s' cards page.
Proof.
  intros Hh Hlen Hv Hin. apply Forall2_same_length_lookup.
  split; [by rewrite full_pages|]. intros i r d Hr Hd.
  destruct (lookup_lt_is_Some_2 (heap s) r) as [e0 He0].
  { exact (Forall_lookup_1 _ _ _ _ Hv Hr). }
  exists (ut d e0), (ut d e0). rewrite Hh, (Hin i r d Hr Hd), He0.
  split; [done|]. split; [apply moved_refl|]. right. by exists e0.
Qed.

Lemma window_shows_appended s :
  window_invariant p n s -> (length (pool s) < n * 2)%nat ->
  window_shows s ->
  window_shows
    (appended gt (gp (end_ s)) (log (Fetch (end_ s)) (set_end (end_ s + 1) s))).
Proof.
  intros (_ & _ & Hv & _ & _ & Hlen & Hdiff & _) Hlt [H1 _].
  assert (Hnew : shows_page
            (appended gt (gp (end_ s))
                      (log (Fetch (end_ s)) (set_end (end_ s + 1) s)))
            (seq (length (heap s)) (length (gp (end_ s)))) (end_ s)).
  { apply Forall2_same_length_lookup. split; [apply length_seq|].
    intros i r d [-> Hi]%lookup_seq Hd.
    exists (gt d), (gt d). split; [|split; [apply moved_refl | by left]].
    simpl. rewrite lookup_app_r, list_lookup_fmap by lia.
    replace (length (heap s) + i - length (heap s))%nat with i by lia.
    by rewrite Hd. }
  assert (Hold : forall cards page,
            Forall (fun r => (r < length (heap s))%nat) cards ->
            shows_page s cards page ->
            shows_page
              (appended gt (gp (end_ s))
                        (log (Fetch (end_ s)) (set_end (end_ s + 1) s)))
              cards page).
  { intros cards page Hc. apply shows_page_same. intros r Hr. simpl.
    apply lookup_app_l. exact (proj1 (Forall_forall _ _) Hc r Hr). }
  unfold window_shows. simpl.
  assert (end_ s = start s \/ end_ s = start s + 1) as [E|E] by nia.
  - assert (pool s = []) as -> by (apply length_zero_iff_nil; nia).
    simpl. split; [|lia]. intros _.
    rewrite take_ge by (rewrite length_seq, full_pages; lia).
    by rewrite <- E.
  - assert (Hn : length (pool s) = n) by nia.
    rewrite take_app_length', drop_app_length' by done.
    split.
    + intros _. apply Hold; [done|].
      rewrite <- (take_ge (pool s) n) at 1 by lia. apply H1. lia.
    + intros _. by rewrite <- E.
Qed.

Lemma window_shows_recycled_down s (h : list Element) :
  window_invariant p n s -> length (pool s) = (n * 2)%nat ->
  (forall r, r ∉ take n (pool s) -> h !! r = heap s !! r) ->
  (forall i r d, take n (pool s) !! i = Some r ->
     gp (end_ s) !! i = Some d -> h !! r = ut d <$> heap s !! r) ->
  window_shows s ->
  window_shows
    (recycled_down n (gp (end_ s)) h
       (log (Fetch (end_ s)) (set_end (end_ s + 1) s))).
Proof.
  intros (_ & _ & Hv & Hnd & _ & Hlen & Hd & _) Hfull Hout Hin [_ H2].
  destruct (rotated_halves n (pool s) Hfull) as [Ht Hdr].
  assert (E : end_ s = start s + 2) by nia.
  unfold window_shows. simpl. rewrite Ht, Hdr. split; intros _.
  - apply (shows_page_same s); [|apply H2; lia].
    intros r Hr. simpl. apply Hout. by apply drop_take_disjoint.
  - replace (start s + 1 + 1) with (end_ s) by lia.
    apply (rebound_cards_show s h); [done | | by apply Forall_take | done].
    rewrite length_take. lia.
Qed.

Lemma window_shows_recycled_up s (h : list Element) :
  window_invariant p n s -> 0 < start s ->
  (forall r, r ∉ drop n (pool s) -> h !! r = heap s !! r) ->
  (forall i r d, drop n (pool s) !! i = Some r ->
     gp (start s - 1) !! i = Some d -> h !! r = ut d <$> heap s !! r) ->
  window_shows s ->
  window_shows
    (recycled_up n (gp (start s - 1)) h
       (log (Fetch (start s - 1))
            (set_end (end_ s - 1) (set_start (start s - 1) s)))).
Proof.
  intros (_ & _ & Hv & Hnd & _ & Hlen & Hd & Hfull) Hpos Hout Hin [H1 _].
  specialize (Hfull Hpos).
  destruct (rotated_halves n (pool s) Hfull) as [Ht Hdr].
  assert (E : end_ s = start s + 2) by nia.
  unfold window_shows. simpl. rewrite Ht, Hdr. split; intros _.
  - apply (rebound_cards_show s h); [done | | by apply Forall_drop | done].
    rewrite length_drop. lia.
  - replace (start s - 1 + 1) with (start s) by lia.
    apply (shows_page_same s); [|apply H1; lia].
    intros r Hr. simpl. apply Hout. by apply take_drop_disjoint.
Qed.

Lemma reachable_window_shows s : reachable p s -> window_shows s.
Proof.
  induction 1 as [s Hinit | s entry Hreach IH].
  - unfold initialize, constructor, render in Hinit. revert Hinit. run.
    intros [= <-]. split; simpl; lia.
  - pose proof (reachable_invariant gp gt ut n full_pages s Hreach) as Hinv.
    destruct (notify_cases s entry) as [-> | [[Hpos ->] | ->]]; [done | |].
    + destruct (top_handler_steps s Hinv Hpos)
        as (h & sr & s1 & rf & rl & -> & -> & _ & _ & Hc & Hm & _ & _ & _
            & _ & Hout & Hin).
      simpl. eapply window_shows_relaid;
        [by apply bracketed_frame | exact Hm |].
      by apply window_shows_recycled_up.
    + destruct (bottom_handler_steps s Hinv)
        as (sa & s1 & rf & rl & -> & _ & _ & Hc & Hm & _ & _ & Hcase).
      simpl. eapply window_shows_relaid;
        [by apply bracketed_frame | exact Hm |].
      simpl in Hcase.
      destruct Hcase as [[Hlt ->] | [Hfull (h & -> & _ & Hout & Hin)]].
      * by apply window_shows_appended.
      * by apply window_shows_recycled_down.
Qed.

(** X16.  For a configuration with all four fields present, whose host
    functions return when they are called, while every page has
    [pageSize > 0] records, and provided each notification reports a single
    entry and the handler it starts has run to its end before the next
    notification: the pool shows the pages [start .. end - 1], in order.
    Its first [pageSize] cards are, one by one and at most moved, what the
    host made for the records of page [start], and the cards after them
    what it made for page [start + 1].  The proviso is needed: a batch, or
    pages that arrive out of order, leave other pages in the pool
    ([batch_leaves_stale_page], [overlapped_pages_out_of_order]). *)
Theorem window_shows_pages_in_order s :
  reachable (mkProps (Some gp) (Some gt) (Some ut) (Some n)) s ->
  (start s < end_ s ->
   Forall2 (shows s) (take n (pool s)) (gp (start s))) /\
  (start s + 1 < end_ s ->
   Forall2 (shows s) (drop n (pool s)) (gp (start s + 1))).
Proof. apply reachable_window_shows. Qed.

(** *** Scrolling there and back *)

Lemma settle_frame (r : @Result T unit) :
  pool (settle r) = pool (final r) /\ start (settle r) = start (final r) /\
  end_ (settle r) = end_ (final r) /\
  list_children (settle r) = list_children (final r) /\
  length (heap (settle r)) = length (heap (final r)).
Proof. by destruct r. Qed.

Lemma notify_bottom_at_limit s :
  window_invariant p n s -> length (pool s) = (n * 2)%nat ->
  let s' := notify [bottom_visible] s in
  pool s' = rotated n (pool s) /\ start s' = start s + 1 /\
  end_ s' = end_ s + 1 /\ list_children s' = list_children s /\
  length (heap s') = length (heap s).
Proof.
  intros Hinv Hfull. simpl. rewrite notify_bottom_visible.
  destruct (settle_frame (handleBottomObserver s)) as (-> & -> & -> & -> & ->).
  destruct (bottom_handler_at_limit gp gt ut n full_pages s Hinv)
    as (h & Hh & _ & -> & -> & _ & -> & -> & _ & ->); [lia|].
  by simpl.
Qed.

Lemma notify_top_recycles s :
  window_invariant p n s -> 0 < start s ->
  let s' := notify [top_visible] s in
  pool s' = rotated n (pool s) /\ start s' = start s - 1 /\
  end_ s' = end_ s - 1 /\ list_children s' = list_children s /\
  length (heap s') = length (heap s).
Proof.
  intros Hinv Hpos. simpl. rewrite notify_top_visible by done.
  destruct (settle_frame (handleTopObserver s)) as (-> & -> & -> & -> & ->).
  destruct (top_handler_recycles gp gt ut n full_pages s Hinv Hpos)
    as (h & Hh & _ & -> & -> & _ & -> & -> & _ & ->).
  by simpl.
Qed.

(** X17.  While every page has [pageSize > 0] records, a bottom trigger on a full
    pool followed by a top trigger, or a top trigger at [start > 0]
    followed by a bottom trigger, brings back the pool order and both
    cursors, with the same cards rendered: recycling down and recycling up
    undo each other. *)
Theorem recycling_down_and_up_cancel s :
  reachable (mkProps (Some gp) (Some gt) (Some ut) (Some n)) s ->
  let restored s' :=
    pool s' = pool s /\ start s' = start s /\ end_ s' = end_ s /\
    list_children s' = list_children s /\
    length (heap s') = length (heap s) in
  (length (pool s) = (n * 2)%nat ->
   restored (notify [top_visible] (notify [bottom_visible] s))) /\
  (0 < start s ->
   restored (notify [bottom_visible] (notify [top_visible] s))).
Proof.
  intros Hreach. simpl.
  pose proof (reachable_invariant gp gt ut n full_pages s Hreach) as Hinv.
  pose proof Hinv as (_ & _ & _ & _ & Hs & _ & _ & Hfull).
  split.
  - intros Hlen.
    destruct (notify_bottom_at_limit s Hinv Hlen) as (Hp1 & Hs1 & He1 & Hl1 & Hh1).
    destruct (notify_top_recycles (notify [bottom_visible] s))
      as (-> & -> & -> & -> & ->);
      [by apply window_invariant_notify | lia |].
    rewrite Hp1, Hs1, He1, Hl1, Hh1, rotated_twice by done.
    repeat split; lia.
  - intros Hpos. specialize (Hfull Hpos).
    destruct (notify_top_recycles s Hinv Hpos) as (Hp1 & Hs1 & He1 & Hl1 & Hh1).
    destruct (notify_bottom_at_limit (notify [top_visible] s))
      as (-> & -> & -> & -> & ->);
      [by apply window_invariant_notify
      | by rewrite Hp1, rotated_length |].
    rewrite Hp1, Hs1, He1, Hl1, Hh1, rotated_twice by done.
    repeat split; lia.
Qed.

(** *** Both sentinels in one notification *)

(** X19.  While every page has [pageSize > 0] records: when one notification
    reports the top and then the bottom sentinel visible, with [start > 0],
    and the pages arrive in the order requested, both handlers run up to
    their [await] before either resumes, so the bottom handler fetches
    page [end - 1], the last page shown, instead of page [end].  Both then
    return; the same [pageSize] cards are rebound twice, first to page
    [start - 1] and then to page [end - 1], and the pool order and both
    cursors end as they were. *)
Theorem both_sentinels_in_one_notification s :
  reachable (mkProps (Some gp) (Some gt) (Some ut) (Some n)) s ->
  0 < start s ->
  let s' := notify [top_visible; bottom_visible] s in
  pool s' = pool s /\ start s' = start s /\ end_ s' = end_ s /\
  list_children s' = list_children s /\
  length (heap s') = length (heap s) /\
  trace s' = trace s
             ++ [Fetch (start s - 1); Fetch (end_ s - 1)]
             ++ zip_with Bind (gp (start s - 1)) (drop n (pool s))
             ++ zip_with Bind (gp (end_ s - 1)) (drop n (pool s)).
Proof.
  intros Hreach Hpos. simpl.
  pose proof (reachable_invariant gp gt ut n full_pages s Hreach)
    as (Hp & Hl & Hv & Hnd & _ & _ & _ & Hfull).
  specialize (Hfull Hpos).
  unfold notify, handleIntersectionObserver, handle_entry, top_visible,
    bottom_visible, call_async.
  simpl. destruct (Z.ltb_spec 0 (start s)) as [_|?]; [|lia].
  rewrite (handleTopObserver_begin_fetches s gp) by by rewrite Hp.
  rewrite (handleBottomObserver_begin_fetches _ gp) by by simpl; rewrite Hp.
  simpl.
  set (sb := log (Fetch (end_ s - 1)) _).
  destruct (resume_top_recycles sb ut n (gp (start s - 1)))
    as (h & -> & Hh & _);
    [by simpl; rewrite Hp | by simpl; rewrite Hp | exact Hfull
    | exact Hv | exact Hnd | apply full_pages |].
  set (sr := recycled_up n (gp (start s - 1)) h sb).
  destruct (top_pass sr n)
    as (s1 & rf & rl & _ & _ & -> & (h1 & -> & Hh1) & _);
    [by simpl; rewrite Hp | by simpl; rewrite rotated_length; lia
    | by apply rotated_valid | by apply rotated_NoDup
    | apply rotated_nonempty; intros E; change (pool s = []) in E;
      rewrite E in Hfull; simpl in Hfull; lia
    |].
  simpl.
  set (st := bracketed (set_heap h1 sr) rf rl).
  destruct (resume_bottom_recycles st ut n (gp (end_ s - 1)))
    as (h2 & -> & Hh2 & _);
    [by simpl; rewrite Hp | by simpl; rewrite Hp | exact Hl
    | by simpl; rewrite rotated_length; lia
    | unfold valid; simpl; rewrite Hh1; by apply rotated_valid
    | by apply rotated_NoDup | apply full_pages |].
  set (sd := recycled_down n (gp (end_ s - 1)) h2 st).
  destruct (down_pass sd)
    as (s2 & rf2 & rl2 & _ & _ & -> & (h3 & -> & Hh3) & _).
  { unfold valid. simpl. rewrite Hh2. simpl. rewrite Hh1. simpl.
    rewrite Hh, !rotated_perm. exact Hv. }
  { simpl. by do 2 apply rotated_NoDup. }
  { simpl. do 2 apply rotated_nonempty.
    intros E. change (pool s = []) in E.
    rewrite E in Hfull. simpl in Hfull. lia. }
  simpl. destruct (rotated_halves n (pool s) Hfull) as [-> _].
  rewrite rotated_twice by done.
  repeat split; try lia.
  - rewrite Hh3. simpl. rewrite Hh2. simpl. rewrite Hh1. simpl. done.
  - by rewrite <- !app_assoc.
Qed.

End FullPages.

End Further.

(** * Every schedule of notifications and page arrivals *)

Section Schedules.

Context {T : Type}.

Implicit Types (s : @State T) (q : list (@Pending T)).

Ltac run :=
  unfold bind, gets, modify, ret, throw; simpl.

(** The page a suspended handler has been given, and the rest of the
    handler, which runs when that page arrives. *)
Definition data_of (h : @Pending T) : list T :=
  match h with PendingTop data => data | PendingBottom data => data end.

Definition continuation (h : @Pending T) : @M T unit :=
  match h with
  | PendingTop data => handleTopObserver_resume data
  | PendingBottom data => handleBottomObserver_resume data
  end.

(** The mounted component between two of its steps: the instance with its
    document, and the handlers suspended at their [await].  A step is
    either a notification of the observer, with any number of entries, which
    runs each handler it starts up to its [await]; or the arrival of the
    page that one of the suspended handlers waits for, any of them, which
    runs that handler to its end.  Notifications may come while handlers
    are suspended, and pages may arrive in any order. *)
Inductive scheduled (p : @Props T)
  : @State T -> list (@Pending T) -> Prop :=
| scheduled_initial s : initialize p = Ok tt s -> scheduled p s []
| scheduled_observe s q entries s' started :
    scheduled p s q ->
    handleIntersectionObserver entries s = (s', started) ->
    scheduled p s' (q ++ started)
| scheduled_arrive s q1 h q2 :
    scheduled p s (q1 ++ h :: q2) ->
    scheduled p (resume h s) (q1 ++ q2).

(** What starting a handler may change: the cursors and the trace. *)
Definition cursors_only (s s' : @State T) : Prop :=
  props s' = props s /\ limit s' = limit s /\ pool s' = pool s /\
  heap s' = heap s /\ list_children s' = list_children s /\
  top_style s' = top_style s /\ bottom_style s' = bottom_style s.

(** What holds of the pool and the document for every configuration. *)
Definition intact (p : @Props T) (s : @State T) : Prop :=
  props s = p /\
  limit s = option_map (fun n => (n * 2)%nat) (pageSize p) /\
  NoDup (pool s) /\ pool s ≡ₚ list_children s /\
  list_children s = seq 0 (length (heap s)) /\
  (pageSize p = None -> pool s = []).

Lemma resume_continuation (h : @Pending T) s : resume h s = settle (continuation h s).
Proof. by destruct h. Qed.

(** An invariant of the schedules is established by mounting, kept by the
    start of a handler for one entry, and kept by one arrival. *)
Lemma scheduled_invariant (p : @Props T)
    (I : @State T -> list (@Pending T) -> Prop) :
  (forall s, initialize p = Ok tt s -> I s []) ->
  (forall s q entry,
     I s q -> I (fst (handle_entry entry s)) (q ++ snd (handle_entry entry s))) ->
  (forall s q1 h q2, I s (q1 ++ h :: q2) -> I (resume h s) (q1 ++ q2)) ->
  forall s q, scheduled p s q -> I s q.
Proof.
  intros Hinit Hentry Harrive s q Hs.
  induction Hs as [s Hs | s q entries s' started _ IH Hobs | s q1 h q2 _ IH];
    [by apply Hinit | | by apply Harrive].
  revert s q s' started IH Hobs.
  induction entries as [|entry rest IHe]; intros s q s' started IH Hobs.
  - simpl in Hobs. injection Hobs as <- <-. by rewrite app_nil_r.
  - simpl in Hobs. specialize (Hentry s q entry IH).
    destruct (handle_entry entry s) as [s1 p1].
    destruct (handleIntersectionObserver rest s1) as [s2 p2] eqn:E2.
    injection Hobs as <- <-. rewrite app_assoc.
    by apply (IHe s1 (q ++ p1) s2 p2).
Qed.

Lemma scheduled_drain (p : @Props T) q :
  forall s, scheduled p s q ->
    scheduled p (foldl (fun s h => resume h s) s q) [].
Proof.
  induction q as [|h q IH]; intros s Hs; [done|].
  simpl. apply IH. exact (scheduled_arrive p s [] h q Hs).
Qed.

(** A notification whose handlers all get their pages, in the order they
    were started, before the next notification, is one of the schedules. *)
Lemma scheduled_notify (p : @Props T) (entries : list Entry) s :
  scheduled p s [] -> scheduled p (notify entries s) [].
Proof.
  intros Hs. unfold notify.
  destruct (handleIntersectionObserver entries s) as [s1 pending] eqn:E.
  apply scheduled_drain.
  exact (scheduled_observe p s [] entries s1 pending Hs E).
Qed.

Lemma reachable_scheduled (p : @Props T) s :
  reachable p s -> scheduled p s [].
Proof.
  induction 1 as [s Hinit | s entry _ IH].
  - by apply scheduled_initial.
  - by apply scheduled_notify.
Qed.

Lemma cursors_only_log (ev : @Event T) s : cursors_only s (log ev s).
Proof. by repeat split. Qed.

Lemma handle_entry_cursors_only (entry : Entry) s :
  cursors_only s (fst (handle_entry entry s)).
Proof.
  unfold handle_entry, call_async, handleTopObserver_begin,
    handleBottomObserver_begin.
  run.
  destruct (isIntersecting entry); [|by repeat split].
  destruct (String.eqb (target_id entry) "top-observer" && (0 <? start s)).
  { destruct (getPage (props s)); by repeat split. }
  destruct (String.eqb (target_id entry) "bottom-observer");
    [|by repeat split].
  destruct (getPage (props s)); by repeat split.
Qed.

(** ** The pool and the rendered list *)

Lemma intact_cursors_only (p : @Props T) s s' :
  cursors_only s s' -> intact p s -> intact p s'.
Proof.
  intros (Hp & Hl & Hpool & Hh & Hlc & _). unfold intact.
  by rewrite Hp, Hl, Hpool, Hh, Hlc.
Qed.

Lemma intact_rebind_frame (p : @Props T) s s' :
  rebind_frame s s' -> intact p s -> intact p s'.
Proof.
  intros (Hp & _ & _ & Hl & Hpool & Hlc & Hh). unfold intact.
  by rewrite Hp, Hl, Hpool, Hlc, Hh.
Qed.

Lemma intact_layout (p : @Props T) (direction : Direction) s :
  intact p s -> intact p (final (updateElementsPosition direction s)).
Proof.
  apply intact_rebind_frame, layout_frame_rebind_frame,
    keeps_frame_updateElementsPosition.
Qed.

Lemma intact_settle (p : @Props T) (r : @Result T unit) :
  intact p (final r) -> intact p (settle r).
Proof. by destruct r. Qed.

Lemma intact_sliced (p : @Props T) s :
  intact p s ->
  intact p (set_pool (slice_from (pageSize (props s)) (pool s)
                      ++ slice_to (pageSize (props s)) (pool s)) s).
Proof.
  intros (Hp & Hl & Hnd & Hperm & Hlc & Hnone).
  assert (Hrot : slice_from (pageSize (props s)) (pool s)
                 ++ slice_to (pageSize (props s)) (pool s) ≡ₚ pool s).
  { rewrite Hp. destruct (pageSize p) as [k|]; simpl.
    - apply rotated_perm.
    - by rewrite Hnone. }
  unfold intact. simpl.
  split; [done|]. split; [done|].
  split; [by rewrite Hrot|]. split; [by rewrite Hrot|]. split; [done|].
  rewrite Hp. intros E. rewrite E. simpl. by rewrite (Hnone E).
Qed.

Lemma intact_appended (p : @Props T) (gt : T -> Element) (data : list T)
    (lim : nat) s :
  intact p s -> limit s = Some lim ->
  intact p (appended gt data s).
Proof.
  intros (Hp & Hl & Hnd & Hperm & Hlc & Hnone) Hlim.
  unfold intact, appended. simpl.
  split; [done|]. split; [done|].
  split; [|split; [|split]].
  - apply NoDup_app. split; [done|]. split; [|apply NoDup_seq].
    intros r Hr [Hge _]%elem_of_seq.
    rewrite Hperm, Hlc in Hr. apply elem_of_seq in Hr. lia.
  - by rewrite Hperm.
  - rewrite length_app, length_fmap, Hlc. symmetry. apply seq_app.
  - intros E. rewrite Hl, E in Hlim. done.
Qed.

Lemma intact_bottom_resume (p : @Props T) (data : list T) s :
  intact p s -> intact p (final (handleBottomObserver_resume data s)).
Proof.
  intros Hs. unfold handleBottomObserver_resume. run.
  destruct (below_limit (length (pool s)) (limit s)) eqn:Hbelow.
  - destruct (limit s) as [lim|] eqn:Hlim; [|done].
    destruct (getTemplate (props s)) as [gt|] eqn:Hgt.
    + rewrite (append_cards_creates gt data s []) by done.
      simpl. apply (intact_layout p down (appended gt data s)).
      by eapply intact_appended.
    + rewrite (append_cards_without_template data [] s) by done.
      destruct data; [|done].
      apply (intact_layout p down). rewrite app_nil_r.
      by destruct Hs as (?&?&?&?&?&?).
  - pose proof (keeps_rebind_frame_updateData
                  (slice_to (pageSize (props s)) (pool s)) data
                  (set_pool (slice_from (pageSize (props s)) (pool s)
                             ++ slice_to (pageSize (props s)) (pool s)) s))
      as Hframe.
    pose proof (intact_sliced p s Hs) as Hsliced.
    destruct (updateData _ _ _) as [[] s1|e s1]; simpl in Hframe.
    + apply (intact_layout p down).
      by apply (intact_rebind_frame p _ _ Hframe) in Hsliced.
    + simpl. by eapply intact_rebind_frame.
Qed.

Lemma intact_top_resume (p : @Props T) (data : list T) s :
  intact p s -> intact p (final (handleTopObserver_resume data s)).
Proof.
  intros Hs. unfold handleTopObserver_resume. run.
  pose proof (keeps_rebind_frame_updateData
                (slice_from (pageSize (props s)) (pool s)) data
                (set_pool (slice_from (pageSize (props s)) (pool s)
                           ++ slice_to (pageSize (props s)) (pool s)) s))
    as Hframe.
  pose proof (intact_sliced p s Hs) as Hsliced.
  destruct (updateData _ _ _) as [[] s1|e s1]; simpl in Hframe.
  - apply (intact_layout p top). by eapply intact_rebind_frame.
  - simpl. by eapply intact_rebind_frame.
Qed.

Lemma intact_scheduled (p : @Props T) s q : scheduled p s q -> intact p s.
Proof.
  apply (scheduled_invariant p (fun s _ => intact p s)).
  - intros s0. unfold initialize, constructor, render. run.
    intros [= <-]. repeat split; try done. apply NoDup_nil_2.
  - intros s0 _ entry. apply intact_cursors_only, handle_entry_cursors_only.
  - intros s0 _ h _ Hs. rewrite resume_continuation. apply intact_settle.
    destruct h; [by apply intact_top_resume | by apply intact_bottom_resume].
Qed.

(** X12.  For every configuration, with any of its four fields missing,
    whose host functions return when they are called, whatever the pages
    hold and under every schedule of notifications and page arrivals,
    batches and overlapping handlers included: the pool has no repeated
    card and is a rearrangement of the children of the rendered list, which
    are all the cards ever created, in the order of creation.  No card is
    dropped, duplicated or left out of the document, also after a handler
    has thrown. *)
Theorem pool_rearranges_rendered_cards (p : @Props T) s q :
  scheduled p s q ->
  NoDup (pool s) /\ pool s ≡ₚ list_children s /\
  list_children s = seq 0 (length (heap s)) /\ valid s.
Proof.
  intros (_ & _ & Hnd & Hperm & Hlc & _)%intact_scheduled.
  repeat split; try done.
  unfold valid. rewrite Hperm, Hlc. apply Forall_seq. intros; lia.
Qed.

(** ** When every page is full *)

Section FullPagesAnySchedule.

Variables (gp : Z -> list T) (gt : T -> Element)
          (ut : T -> Element -> Element) (n : nat).
Hypothesis full_pages : forall page, length (gp page) = n.

Let p : @Props T := mkProps (Some gp) (Some gt) (Some ut) (Some n).

(** What every step keeps: the pool holds no, one or two pages of distinct
    created cards, and [start] has left 0 only once the pool was full. *)
Definition steady (s : @State T) : Prop :=
  props s = p /\ limit s = Some (n * 2)%nat /\
  valid s /\ NoDup (pool s) /\
  (length (pool s) = 0%nat \/ length (pool s) = n \/
   length (pool s) = (n * 2)%nat) /\
  0 <= start s /\
  (0 < start s -> length (pool s) = (n * 2)%nat).

(** A suspended handler holds a page of [pageSize] records, and a
    suspended top handler was started when the pool was full. *)
Definition awaited (s : @State T) (h : @Pending T) : Prop :=
  length (data_of h) = n /\
  (forall data, h = PendingTop data -> length (pool s) = (n * 2)%nat).

Lemma steady_frame s s' : layout_frame s s' -> steady s -> steady s'.
Proof.
  intros (Hp & Hs & _ & Hl & Hpool & _ & _ & Hh).
  unfold steady, valid. by rewrite Hp, Hs, Hl, Hpool, Hh.
Qed.

Lemma steady_cursors s s' :
  cursors_only s s' -> 0 <= start s' ->
  (0 < start s' -> length (pool s) = (n * 2)%nat) ->
  steady s -> steady s'.
Proof.
  intros (Hp & Hl & Hpool & Hh & _) Hs Hfull (Hps & Hls & Hv & Hnd & Hlen & _).
  unfold steady, valid. rewrite Hp, Hl, Hpool, Hh. by repeat split.
Qed.

Lemma steady_appended (data : list T) s :
  steady s -> length data = n -> (length (pool s) < n * 2)%nat ->
  steady (appended gt data s) /\
  length (pool (appended gt data s)) = (length (pool s) + n)%nat.
Proof.
  intros (Hp & Hl & Hv & Hnd & Hlen & Hs & Hfull) Hdata Hlt.
  assert (Hgrown : length (pool (appended gt data s))
                   = (length (pool s) + n)%nat).
  { unfold appended. simpl. by rewrite length_app, length_seq, Hdata. }
  split; [|done]. unfold steady. rewrite Hgrown.
  split; [done|]. split; [done|].
  split; [by apply appended_valid|]. split; [by apply appended_NoDup|].
  split; [lia|]. split; [done|].
  change (start (appended gt data s)) with (start s).
  intros Hpos. specialize (Hfull Hpos). lia.
Qed.

Lemma steady_recycled_down (data : list T) (h : list Element) s :
  steady s -> (n * 2 <= length (pool s))%nat ->
  length h = length (heap s) ->
  steady (recycled_down n data h s).
Proof.
  intros (Hp & Hl & Hv & Hnd & Hlen & Hs & Hfull) Hge Hh.
  unfold steady, valid, recycled_down. simpl.
  split; [done|]. split; [done|].
  split; [by apply rotated_valid|]. split; [by apply rotated_NoDup|].
  rewrite rotated_length. split; [done|]. split; [lia|]. intros _. lia.
Qed.

Lemma steady_recycled_up (data : list T) (h : list Element) s :
  steady s -> length h = length (heap s) ->
  steady (recycled_up n data h s).
Proof.
  intros (Hp & Hl & Hv & Hnd & Hlen & Hs & Hfull) Hh.
  unfold steady, valid, recycled_up. simpl.
  split; [done|]. split; [done|].
  split; [by apply rotated_valid|]. split; [by apply rotated_NoDup|].
  by rewrite rotated_length.
Qed.

(** The rest of the bottom handler, whether it returns or throws. *)
Lemma bottom_resume_frame (data : list T) s :
  steady s -> length data = n ->
  (length (pool s) < n * 2)%nat /\
  layout_frame (appended gt data s)
               (final (handleBottomObserver_resume data s)) \/
  length (pool s) = (n * 2)%nat /\
  exists h, length h = length (heap s) /\
    layout_frame (recycled_down n data h s)
                 (final (handleBottomObserver_resume data s)).
Proof.
  intros (Hp & Hl & Hv & Hnd & Hlen & _) Hdata.
  destruct (decide (length (pool s) < n * 2)%nat) as [Hlt|Hge].
  - left. split; [done|].
    rewrite (resume_bottom_appends s gt (n * 2));
      [| by rewrite Hp | done | done].
    apply keeps_frame_updateElementsPosition.
  - right. split; [lia|].
    destruct (resume_bottom_recycles s ut n data) as (h & Hres & Hh & _);
      [by rewrite Hp | by rewrite Hp | exact Hl | lia | exact Hv | exact Hnd
      | exact Hdata |].
    exists h. split; [done|]. rewrite Hres.
    apply keeps_frame_updateElementsPosition.
Qed.

(** The rest of the top handler, on a full pool. *)
Lemma top_resume_frame (data : list T) s :
  steady s -> length (pool s) = (n * 2)%nat -> length data = n ->
  exists h, length h = length (heap s) /\
    layout_frame (recycled_up n data h s)
                 (final (handleTopObserver_resume data s)).
Proof.
  intros (Hp & Hl & Hv & Hnd & _) Hfull Hdata.
  destruct (resume_top_recycles s ut n data) as (h & Hres & Hh & _);
    [by rewrite Hp | by rewrite Hp | exact Hfull | exact Hv | exact Hnd
    | exact Hdata |].
  exists h. split; [done|]. rewrite Hres.
  apply keeps_frame_updateElementsPosition.
Qed.

Lemma steady_settle (r : @Result T unit) :
  steady (final r) -> steady (settle r).
Proof. by destruct r. Qed.

Lemma pool_settle (r : @Result T unit) : pool (settle r) = pool (final r).
Proof. by destruct r. Qed.

(** One arrival keeps the invariant, and a full pool stays full. *)
Lemma steady_arrive s (h : @Pending T) :
  steady s -> awaited s h ->
  steady (resume h s) /\
  (length (pool s) = (n * 2)%nat ->
   length (pool (resume h s)) = (n * 2)%nat).
Proof.
  intros Hs [Hdata Htop]. rewrite resume_continuation, pool_settle.
  destruct h as [data|data]; simpl in Hdata; simpl continuation.
  - specialize (Htop data eq_refl).
    destruct (top_resume_frame data s Hs Htop Hdata) as (h & Hh & Hframe).
    split.
    + apply steady_settle. eapply steady_frame; [exact Hframe|].
      by apply steady_recycled_up.
    + intros _. destruct Hframe as (_ & _ & _ & _ & -> & _). simpl.
      by rewrite rotated_length.
  - destruct (bottom_resume_frame data s Hs Hdata)
      as [[Hlt Hframe] | [Hfull (h & Hh & Hframe)]].
    + split; [|lia].
      apply steady_settle. eapply steady_frame; [exact Hframe|].
      by apply steady_appended.
    + split.
      * apply steady_settle. eapply steady_frame; [exact Hframe|].
        apply steady_recycled_down; [done | lia | done].
      * intros _. destruct Hframe as (_ & _ & _ & _ & -> & _). simpl.
        by rewrite rotated_length.
Qed.

(** The three things an entry can do. *)
Lemma handle_entry_cases (entry : Entry) s :
  getPage (props s) = Some gp ->
  handle_entry entry s = (s, []) \/
  (0 < start s /\
   handle_entry entry s
   = (log (Fetch (start s - 1))
          (set_end (end_ s - 1) (set_start (start s - 1) s)),
      [PendingTop (gp (start s - 1))])) \/
  handle_entry entry s
  = (log (Fetch (end_ s)) (set_end (end_ s + 1) s),
     [PendingBottom (gp (end_ s))]).
Proof.
  intros Hgp. unfold handle_entry.
  destruct (isIntersecting entry); [|by left].
  destruct (String.eqb (target_id entry) "top-observer" && (0 <? start s))
    eqn:Htop.
  - apply andb_true_iff in Htop as [_ Hpos%Z.ltb_lt].
    right; left. split; [done|]. unfold call_async.
    by rewrite (handleTopObserver_begin_fetches s gp Hgp).
  - destruct (String.eqb (target_id entry) "bottom-observer"); [|by left].
    right; right. unfold call_async.
    by rewrite (handleBottomObserver_begin_fetches s gp Hgp).
Qed.

Lemma awaited_pool s s' (h : @Pending T) :
  pool s' = pool s -> awaited s h -> awaited s' h.
Proof. intros Hpool. unfold awaited. by rewrite Hpool. Qed.

Lemma steady_entry (entry : Entry) s q :
  steady s -> Forall (awaited s) q ->
  steady (fst (handle_entry entry s)) /\
  Forall (awaited (fst (handle_entry entry s)))
         (q ++ snd (handle_entry entry s)).
Proof.
  intros Hs Hq. pose proof Hs as (Hp & Hl & Hv & Hnd & Hlen & Hstart & Hfull).
  destruct (handle_entry_cases entry s) as [-> | [[Hpos ->] | ->]];
    [by rewrite Hp | | |]; simpl.
  - split; [done|]. by rewrite app_nil_r.
  - split.
    + apply (steady_cursors s); [by repeat split | simpl; lia | | done].
      simpl. intros _. by apply Hfull.
    + apply Forall_app. split.
      * eapply Forall_impl; [exact Hq|]. intros h.
        by apply awaited_pool.
      * apply Forall_singleton. split; [apply full_pages|].
        intros _ _. simpl. by apply Hfull.
  - split.
    + apply (steady_cursors s); [by repeat split | done | | done].
      simpl. exact Hfull.
    + apply Forall_app. split.
      * eapply Forall_impl; [exact Hq|]. intros h.
        by apply awaited_pool.
      * apply Forall_singleton. split; [apply full_pages|].
        intros data [=].
Qed.

Lemma steady_scheduled s q :
  scheduled p s q -> steady s /\ Forall (awaited s) q.
Proof.
  apply (scheduled_invariant p
           (fun s q => steady s /\ Forall (awaited s) q)).
  - intros s0. unfold initialize, constructor, render. run.
    intros [= <-]. split; [|done].
    unfold steady, valid. simpl.
    repeat split; try done; try lia; try apply NoDup_nil_2; by left.
  - intros s0 q0 entry [Hs Hq]. by apply steady_entry.
  - intros s0 q1 h q2 [Hs Hq].
    apply Forall_app in Hq as [Hq1 Hq2].
    apply Forall_cons in Hq2 as [Hh Hq2].
    destruct (steady_arrive s0 h Hs Hh) as [Hs' Hfull].
    split; [done|].
    apply Forall_app. split; (eapply Forall_impl; [done|]);
      intros h' [Hdata Htop]; (split; [done|]);
      intros data E; apply Hfull; by apply (Htop data).
Qed.

(** C3.  Whatever boundary triggers come, alone or in batches, before or
    after the pages of earlier ones have arrived and whatever the order of
    arrival, while each page has [pageSize] records the pool never holds
    more than [2 * pageSize] cards, and every suspended handler holds a
    page of [pageSize] records.  When the page of a bottom trigger arrives
    below that limit, the handler appends one newly created card per record
    and rebinds nothing; when it arrives at the limit, the handler creates
    no card: it moves the first [pageSize] cards behind the others and
    rebinds exactly them, in order. *)
Theorem pool_never_exceeds_limit s q :
  scheduled (mkProps (Some gp) (Some gt) (Some ut) (Some n)) s q ->
  (length (pool s) <= 2 * n)%nat /\
  Forall (fun h => length (data_of h) = n) q /\
  forall data, length data = n ->
    let s' := final (handleBottomObserver_resume data s) in
    let cards := seq (length (heap s)) n in
    ((length (pool s) < 2 * n)%nat ->
     pool s' = pool s ++ cards /\
     length (heap s') = (length (heap s) + n)%nat /\
     trace s' = trace s ++ zip_with Create data cards) /\
    (length (pool s) = (2 * n)%nat ->
     pool s' = drop n (pool s) ++ take n (pool s) /\
     length (heap s') = length (heap s) /\
     trace s' = trace s ++ zip_with Bind data (take n (pool s))).
Proof.
  intros [Hs Hq]%steady_scheduled.
  pose proof Hs as (_ & _ & _ & _ & Hlen & _).
  split; [lia|]. split.
  { eapply Forall_impl; [exact Hq|]. by intros h [Hdata _]. }
  intros data Hdata. simpl.
  destruct (bottom_resume_frame data s Hs Hdata)
    as [[Hlt Hframe] | [Hfull (h & Hh & Hframe)]];
    destruct Hframe as (_ & _ & _ & _ & Hpool & _ & Htrace & Hheap);
    rewrite Hpool, Htrace, Hheap;
    (split; [intros Hlt' | intros Hfull']; try lia).
  - unfold appended. simpl. by rewrite length_app, length_fmap, Hdata.
  - by unfold recycled_down.
Qed.

(** X18.  For a configuration with all four fields present, whose host
    functions return when they are called, while every page has
    [pageSize] records and under every schedule of notifications and page
    arrivals: the document holds exactly as many cards as the pool and as
    the rendered list, and never more than [2 * pageSize] of them, however
    far the list is scrolled. *)
Theorem document_holds_at_most_two_pages s q :
  scheduled (mkProps (Some gp) (Some gt) (Some ut) (Some n)) s q ->
  length (heap s) = length (pool s) /\
  length (list_children s) = length (pool s) /\
  (length (heap s) <= 2 * n)%nat.
Proof.
  intros Hsched.
  destruct (steady_scheduled s q Hsched) as [(_ & _ & _ & _ & Hlen & _) _].
  destruct (intact_scheduled _ s q Hsched) as (_ & _ & _ & Hperm & Hlc & _).
  assert (Hpool : length (pool s) = length (heap s)).
  { rewrite Hperm, Hlc. apply length_seq. }
  rewrite <- Hperm. split; [done|]. split; [done|]. lia.
Qed.

Hypothesis positive_page_size : (0 < n)%nat.

(** The rest of the bottom handler when the page size is positive: the
    state its pass runs on, and what the pass leaves. *)
Lemma bottom_resume_steps (data : list T) s :
  steady s -> length data = n ->
  exists sa s1 rf rl,
    handleBottomObserver_resume data s = Ok tt (bracketed s1 rf rl) /\
    pool sa !! 0%nat = Some rf /\ last (pool sa) = Some rl /\
    cards_only sa s1 /\ moved_all sa s1 /\
    (forall j r, pool sa !! j = Some r ->
       y_at s1 r = Some (down_pos (pool_heights sa) (down_anchor sa) j)) /\
    ((length (pool s) < n * 2)%nat /\ sa = appended gt data s \/
     length (pool s) = (n * 2)%nat /\
     exists h, sa = recycled_down n data h s /\ length h = length (heap s)).
Proof.
  intros Hs Hdata. pose proof Hs as (Hp & Hl & Hv & Hnd & Hlen & _).
  assert (exists sa,
            handleBottomObserver_resume data s
            = updateElementsPosition down sa /\
            steady sa /\ pool sa <> [] /\
            ((length (pool s) < n * 2)%nat /\ sa = appended gt data s \/
             length (pool s) = (n * 2)%nat /\
             exists h, sa = recycled_down n data h s /\
                       length h = length (heap s)))
    as (sa & Hrun & (_ & _ & Hva & Hnda & _) & Hne & Hcase).
  { destruct (decide (length (pool s) < n * 2)%nat) as [Hlt|Hge].
    - exists (appended gt data s).
      destruct (steady_appended data s Hs Hdata Hlt) as [Hsa Hgrown].
      split; [|split; [done|split; [|by left]]].
      + apply (resume_bottom_appends s gt (n * 2)); [by rewrite Hp | done..].
      + intros E. rewrite E in Hgrown. simpl in Hgrown. lia.
    - destruct (resume_bottom_recycles s ut n data) as (h & Hres & Hh & _);
        [by rewrite Hp | by rewrite Hp | exact Hl | lia | exact Hv
        | exact Hnd | exact Hdata |].
      exists (recycled_down n data h s).
      split; [done|]. split; [|split].
      + apply steady_recycled_down; [done | lia | done].
      + apply rotated_nonempty. intros E. rewrite E in Hge.
        simpl in Hge. lia.
      + right. split; [lia|]. by exists h. }
  destruct (down_pass sa Hva Hnda Hne)
    as (s1 & rf & rl & Hf & Hl' & Hpass & Hc & Hm & _ & Hpos).
  exists sa, s1, rf, rl. split; [by rewrite Hrun|].
  by repeat (split; [done|]).
Qed.

(** The rest of the top handler, on a full pool. *)
Lemma top_resume_steps (data : list T) s :
  steady s -> length (pool s) = (n * 2)%nat -> length data = n ->
  exists h sr s1 rf rl,
    sr = recycled_up n data h s /\
    handleTopObserver_resume data s = Ok tt (bracketed s1 rf rl) /\
    pool sr !! 0%nat = Some rf /\ last (pool sr) = Some rl /\
    cards_only sr s1 /\ moved_all sr s1 /\
    (forall r, r ∉ take n (pool sr) -> heap s1 !! r = heap sr !! r) /\
    (forall j r, (j < n)%nat -> pool sr !! j = Some r ->
       y_at s1 r = Some (to_number (match pool sr !! S j with
                                    | Some rn => y_at s1 rn
                                    | None => None
                                    end) - MARGIN * 2 - height_at sr r)) /\
    length h = length (heap s) /\
    (forall r, r ∉ drop n (pool s) -> h !! r = heap s !! r).
Proof.
  intros Hs Hfull Hdata. pose proof Hs as (Hp & Hl & Hv & Hnd & _).
  destruct (resume_top_recycles s ut n data) as (h & Hres & Hh & Hout & _);
    [by rewrite Hp | by rewrite Hp | exact Hfull | exact Hv | exact Hnd
    | exact Hdata |].
  set (sr := recycled_up n data h s) in *.
  pose proof (steady_recycled_up data h s Hs Hh) as (Hpr & _ & Hvr & Hndr & _).
  fold sr in Hpr, Hvr, Hndr.
  assert (Hlenr : length (pool sr) = (n * 2)%nat)
    by (simpl; by rewrite rotated_length).
  destruct (top_pass sr n)
    as (s1 & rf & rl & Hf & Hl' & Hpass & Hc & Hm & Hout1 & Hpos1);
    [by rewrite Hpr | lia | done | done | |].
  { intros E. rewrite E in Hlenr. simpl in Hlenr. lia. }
  exists h, sr, s1, rf, rl. split; [done|]. split; [by rewrite Hres|].
  by repeat (split; [done|]).
Qed.

Lemma laid_out_cursors_only s s' :
  cursors_only s s' -> laid_out s -> laid_out s'.
Proof.
  intros (_ & _ & Hpool & Hh & _ & Hts & Hbs).
  unfold laid_out, placed, stacked_from, sentinels_around, y_at, height_at.
  by rewrite Hpool, Hh, Hts, Hbs.
Qed.

(** One arrival, when the page size is positive: the handler returns, the
    cards are laid out, and only calls to the host are added to the
    trace. *)
Lemma orderly_arrive s (h : @Pending T) :
  steady s -> awaited s h -> laid_out s ->
  exists s', continuation h s = Ok tt s' /\ laid_out s' /\
    (Forall is_call (trace s) -> Forall is_call (trace s')).
Proof.
  intros Hs [Hdata Htop] Hlaid. pose proof Hs as (_ & _ & _ & Hnd & _).
  destruct h as [data|data]; simpl in Hdata; simpl continuation.
  - specialize (Htop data eq_refl).
    destruct (top_resume_steps data s Hs Htop Hdata)
      as (h & sr & s1 & rf & rl & Hsr & Hrun & Hf & Hl & Hc & Hm & Hout1
          & Hpos1 & Hh & Hout).
    destruct (recycled_up_tail n positive_page_size s h data s)
      as [Hfrom Hstack]; [done..|].
    rewrite <- Hsr in Hfrom, Hstack.
    exists (bracketed s1 rf rl). split; [done|]. split.
    + eapply (laid_out_after_top n positive_page_size); try done.
      rewrite Hsr. simpl. by apply rotated_NoDup.
    + destruct Hc as (h1 & -> & _). rewrite Hsr. simpl. intros Hcalls.
      apply Forall_app. split; [done|]. by apply is_call_zip_with.
  - destruct (bottom_resume_steps data s Hs Hdata)
      as (sa & s1 & rf & rl & Hrun & Hf & Hl & Hc & Hm & Hpos1 & Hcase).
    exists (bracketed s1 rf rl). split; [done|]. split.
    + by eapply (laid_out_after_down n positive_page_size).
    + destruct Hc as (h1 & -> & _). intros Hcalls.
      destruct Hcase as [[_ ->] | [_ (h & -> & _)]]; simpl;
        (apply Forall_app; split; [done|]; by apply is_call_zip_with).
Qed.

Lemma orderly_scheduled s q :
  scheduled p s q ->
  (steady s /\ Forall (awaited s) q) /\
  laid_out s /\ Forall is_call (trace s).
Proof.
  apply (scheduled_invariant p
           (fun s q => (steady s /\ Forall (awaited s) q) /\
                       laid_out s /\ Forall is_call (trace s))).
  - intros s0 Hinit. split; [by apply steady_scheduled, scheduled_initial|].
    revert Hinit. unfold initialize, constructor, render. run.
    intros [= <-]. split; [|by apply Forall_nil].
    split; [by apply Forall_nil|]. split.
    + by intros i prev curr _ Hprev.
    + by intros rf rl Hf.
  - intros s0 q0 entry ([Hs Hq] & Hlaid & Hcalls).
    split; [by apply steady_entry|]. split.
    + eapply laid_out_cursors_only; [apply handle_entry_cursors_only | done].
    + destruct Hs as (Hp & _).
      destruct (handle_entry_cases entry s0) as [-> | [[_ ->] | ->]];
        [by rewrite Hp | done | |]; simpl;
        (apply Forall_app; split; [done | by repeat constructor]).
  - intros s0 q1 h q2 ([Hs Hq] & Hlaid & Hcalls).
    apply Forall_app in Hq as [Hq1 Hq2].
    apply Forall_cons in Hq2 as [Hh Hq2].
    destruct (steady_arrive s0 h Hs Hh) as [Hs' Hfull].
    destruct (orderly_arrive s0 h Hs Hh Hlaid) as (s' & Hrun & Hlaid' & Hcalls').
    split; [split; [done|]|].
    + apply Forall_app. split; (eapply Forall_impl; [done|]);
        intros h' [Hdata Htop]; (split; [done|]);
        intros data E; apply Hfull; by apply (Htop data).
    + rewrite resume_continuation, Hrun. simpl. split; [done | by apply Hcalls'].
Qed.

(** X13.  For a configuration with all four fields present, whose host
    functions return when they are called, while every page has
    [pageSize > 0] records, no handler ever fails, under any schedule of
    notifications and page arrivals, batches and overlapping handlers
    included: no rejection has been recorded, every suspended handler
    returns when its page arrives, and a bottom trigger, or a top trigger
    when [start > 0], handled from here to its end returns. *)
Theorem handlers_are_never_rejected s q :
  scheduled (mkProps (Some gp) (Some gt) (Some ut) (Some n)) s q ->
  (forall e, Rejected e ∉ trace s) /\
  (forall h, h ∈ q -> exists s', continuation h s = Ok tt s') /\
  (exists s', handleBottomObserver s = Ok tt s') /\
  (0 < start s -> exists s', handleTopObserver s = Ok tt s').
Proof.
  intros ([Hs Hq] & Hlaid & Hcalls)%orderly_scheduled.
  pose proof Hs as (Hp & _ & _ & _ & _ & Hstart & Hfull).
  split; [|split; [|split]].
  - intros e He. exact (proj1 (Forall_forall _ _) Hcalls _ He).
  - intros h Hh.
    destruct (orderly_arrive s h Hs
                (proj1 (Forall_forall _ _) Hq h Hh) Hlaid) as (s' & Hrun & _).
    by exists s'.
  - unfold handleBottomObserver, bind.
    rewrite (handleBottomObserver_begin_fetches s gp) by by rewrite Hp.
    destruct (bottom_resume_steps (gp (end_ s))
                (log (Fetch (end_ s)) (set_end (end_ s + 1) s)))
      as (sa & s1 & rf & rl & Hrun & _); [|apply full_pages|by eexists].
    by apply (steady_cursors s); [repeat split | | |].
  - intros Hpos. unfold handleTopObserver, bind.
    rewrite (handleTopObserver_begin_fetches s gp) by by rewrite Hp.
    destruct (top_resume_steps (gp (start s - 1))
                (log (Fetch (start s - 1))
                   (set_end (end_ s - 1) (set_start (start s - 1) s))))
      as (h & sr & s1 & rf & rl & _ & Hrun & _);
      [|by apply Hfull|apply full_pages|by eexists].
    apply (steady_cursors s); [by repeat split | simpl; lia | | done].
    intros _. by apply Hfull.
Qed.

(** X14.  For a configuration with all four fields present, whose host
    functions return when they are called, while every page has
    [pageSize > 0] records and under every schedule of notifications and
    page arrivals: each pooled card has a stored position, and each begins
    exactly [2 * MARGIN] below the bottom edge, position plus height, of the
    card before it in the pool. *)
Theorem cards_stay_stacked s q :
  scheduled (mkProps (Some gp) (Some gt) (Some ut) (Some n)) s q ->
  (forall r, r ∈ pool s -> is_Some (y_at s r)) /\
  forall i prev curr,
    pool s !! i = Some prev -> pool s !! S i = Some curr ->
    exists yp, y_at s prev = Some yp /\
               y_at s curr = Some (yp + height_at s prev + 2 * MARGIN).
Proof.
  intros (_ & (Hplaced & Hstack & _) & _)%orderly_scheduled.
  split; [by apply Forall_forall|].
  intros i prev curr. apply Hstack. lia.
Qed.

(** X15.  For a configuration with all four fields present, whose host
    functions return when they are called, while every page has
    [pageSize > 0] records and under every schedule of notifications and
    page arrivals: whenever the pool has cards, the [style.transform] of
    the top sentinel is the text [translateY(], the decimal numeral of the
    stored position of the first pooled card, [px)], and that of the
    bottom sentinel is the same with the position of the last pooled card
    plus its height plus [2 * MARGIN]. *)
Theorem sentinels_follow_pool s q :
  scheduled (mkProps (Some gp) (Some gt) (Some ut) (Some n)) s q ->
  forall rf rl, pool s !! 0%nat = Some rf -> last (pool s) = Some rl ->
    exists yf yl, y_at s rf = Some yf /\ y_at s rl = Some yl /\
      top_style s = Some ("translateY(" +:+ pretty yf +:+ "px)") /\
      bottom_style s
      = Some ("translateY("
              +:+ pretty (yl + height_at s rl + 2 * MARGIN) +:+ "px)").
Proof.
  intros (_ & (_ & _ & Hsent) & _)%orderly_scheduled. exact Hsent.
Qed.

End FullPagesAnySchedule.

End Schedules.

(** * The starter skeleton *)

(** [5-1-skeleton/begin/virtual-list.js]: the same helpers and the same
    markup, an instance with the two cursors only, a bottom handler that
    appends and nothing else.  The instance fields the starter does not
    have stay empty in the state; its code never reads them. *)
Module Skeleton.
Section Starter.

Context {T : Type}.

Notation "'let*' x ':=' m 'in' k" := (bind m (fun x => k))
  (at level 10, x name, m at level 100, k at level 200).
Notation "m ';;' k" := (bind m (fun _ => k))
  (at level 100, k at level 200, right associativity).

Definition constructor (p : @Props T) : @Result T unit :=
  Ok tt (mkState p 0 0 None [] [] [] None None []).

Definition initialize (p : @Props T) : @Result T unit :=
  match constructor p with
  | Ok _ s => render s
  | Throw e s => Throw e s
  end.

(** The loop [for (const datum of data)]. *)
Fixpoint append_cards (data : list T) (fragment : list ref)
  : @M T (list ref) :=
  match data with
  | [] => ret fragment
  | datum :: rest =>
      let* card := call_getTemplate datum in
      append_cards rest (fragment ++ [card])
  end.

(** After the [await]. *)
Definition handleBottomObserver_resume (data : list T) : @M T unit :=
  let* fragment := append_cards data [] in
  modify (fun s => set_list_children (list_children s ++ fragment) s).

Definition handleBottomObserver : @M T unit :=
  let* data := handleBottomObserver_begin in
  handleBottomObserver_resume data.

(** [async #handleTopObserver() {}] *)
Definition handleTopObserver : @M T unit := ret tt.

Definition handle_entry (entry : Entry) (s : @State T)
  : @State T * list (@Pending T) :=
  if isIntersecting entry then
    if String.eqb (target_id entry) "top-observer" then
      (settle (handleTopObserver s), [])
    else call_async handleBottomObserver_begin PendingBottom s
  else (s, []).

Fixpoint handleIntersectionObserver (entries : list Entry) (s : @State T)
  : @State T * list (@Pending T) :=
  match entries with
  | [] => (s, [])
  | entry :: rest =>
      let (s1, p1) := handle_entry entry s in
      let (s2, p2) := handleIntersectionObserver rest s1 in
      (s2, p1 ++ p2)
  end.

Definition resume (p : @Pending T) (s : @State T) : @State T :=
  match p with
  | PendingTop _ => s
  | PendingBottom data => settle (handleBottomObserver_resume data s)
  end.

Definition notify (entries : list Entry) (s : @State T) : @State T :=
  let (s1, pending) := handleIntersectionObserver entries s in
  foldl (fun s p => resume p s) s1 pending.

End Starter.
End Skeleton.

Section StarterProperties.

Context {T : Type}.

Implicit Types (s : @State T).

Ltac run :=
  unfold bind, gets, modify, ret, throw; simpl.

Lemma starter_append_cards_creates (gt : T -> Element) (data : list T) :
  forall s (fragment : list ref),
  getTemplate (props s) = Some gt ->
  let cards := seq (length (heap s)) (length data) in
  Skeleton.append_cards data fragment s
  = Ok (fragment ++ cards)
       (set_heap (heap s ++ (gt <$> data))
          (log_all (zip_with Create data cards) s)).
Proof.
  induction data as [|d data IH]; intros s fragment Hgt; simpl.
  - unfold ret. rewrite !app_nil_r. f_equal. destruct s.
    unfold set_heap, log_all. simpl. by rewrite !app_nil_r.
  - unfold call_getTemplate. run. rewrite Hgt. simpl.
    rewrite IH by done. simpl. rewrite length_app. simpl.
    replace (length (heap s) + 1)%nat with (S (length (heap s))) by lia.
    rewrite <- !app_assoc. simpl. f_equal.
    unfold set_heap, log_all. simpl.
    by rewrite <- !app_assoc.
Qed.

Lemma starter_notify_bottom s (gp : Z -> list T) (gt : T -> Element)
    (entry : Entry) :
  getPage (props s) = Some gp -> getTemplate (props s) = Some gt ->
  isIntersecting entry = true -> target_id entry <> "top-observer" ->
  let data := gp (end_ s) in
  let cards := seq (length (heap s)) (length data) in
  Skeleton.notify [entry] s
  = set_list_children (list_children s ++ cards)
      (set_heap (heap s ++ (gt <$> data))
         (log_all (zip_with Create data cards)
            (log (Fetch (end_ s)) (set_end (end_ s + 1) s)))).
Proof.
  intros Hgp Hgt Hvis Hid. simpl.
  unfold Skeleton.notify, Skeleton.handleIntersectionObserver,
    Skeleton.handle_entry.
  rewrite Hvis.
  destruct (String.eqb_spec (target_id entry) "top-observer") as [|_];
    [done|].
  unfold call_async.
  rewrite (handleBottomObserver_begin_fetches s gp Hgp). simpl.
  unfold Skeleton.handleBottomObserver_resume. run.
  by rewrite (starter_append_cards_creates gt (gp (end_ s)) _ []).
Qed.

(** X20.  In the starter skeleton every visible entry that is not the top
    sentinel, whatever its id, fetches page [end] and appends one new card
    per record to the rendered list; [start] stays, [end] advances, no
    existing card is touched.  A visible top sentinel changes nothing. *)
Theorem starter_appends_on_any_other_entry s (gp : Z -> list T)
    (gt : T -> Element) (entry : Entry) :
  getPage (props s) = Some gp -> getTemplate (props s) = Some gt ->
  isIntersecting entry = true -> target_id entry <> "top-observer" ->
  let data := gp (end_ s) in
  let cards := seq (length (heap s)) (length data) in
  let s' := Skeleton.notify [entry] s in
  heap s' = heap s ++ (gt <$> data) /\
  list_children s' = list_children s ++ cards /\
  start s' = start s /\ end_ s' = end_ s + 1 /\
  trace s' = trace s ++ Fetch (end_ s) :: zip_with Create data cards /\
  Skeleton.notify [top_visible] s = s.
Proof.
  intros Hgp Hgt Hvis Hid. simpl.
  rewrite (starter_notify_bottom s gp gt entry) by done. simpl.
  repeat split; try done. by rewrite <- app_assoc.
Qed.

Lemma starter_pages_pile_up (p : @Props T) (gp : Z -> list T)
    (gt : T -> Element) (k : nat) :
  getPage p = Some gp -> getTemplate p = Some gt ->
  let s := Nat.iter k (Skeleton.notify [bottom_visible])
             (final (Skeleton.initialize p)) in
  props s = p /\ start s = 0 /\ end_ s = Z.of_nat k /\
  heap s = gt <$> concat ((fun i => gp (Z.of_nat i)) <$> seq 0 k) /\
  list_children s = seq 0 (length (heap s)).
Proof.
  intros Hgp Hgt. induction k as [|k (Hp & Hs & He & Hh & Hlc)].
  - by simpl.
  - cbn zeta in *. rewrite Nat.iter_succ.
    set (s := Nat.iter k _ _) in *.
    rewrite (starter_notify_bottom s gp gt bottom_visible);
      [| by rewrite Hp | by rewrite Hp | done | done].
    rewrite seq_S, fmap_app, concat_app, fmap_app.
    simpl. rewrite Hs, He, Hlc.
    split; [done|]. split; [done|]. split; [lia|]. split.
    + by rewrite Hh, app_nil_r.
    + rewrite length_app, length_fmap. symmetry. apply seq_app.
Qed.

(** X21.  The starter skeleton never recycles: after [k] bottom triggers the
    document holds one card for every record of the pages [0 .. k - 1], in
    order, all of them rendered; [start] is still 0 and [end] is [k]. *)
Theorem starter_never_recycles (p : @Props T) (gp : Z -> list T)
    (gt : T -> Element) (k : nat) :
  getPage p = Some gp -> getTemplate p = Some gt ->
  let s := Nat.iter k (Skeleton.notify [bottom_visible])
             (final (Skeleton.initialize p)) in
  start s = 0 /\ end_ s = Z.of_nat k /\
  heap s = gt <$> concat ((fun i => gp (Z.of_nat i)) <$> seq 0 k) /\
  list_children s = seq 0 (length (heap s)).
Proof.
  intros Hgp Hgt.
  by destruct (starter_pages_pile_up p gp gt k Hgp Hgt) as (_ & H).
Qed.

End StarterProperties.

(** * The further theorems at work on the concrete lists *)

(** A document with one card, not pooled. *)
Definition one_card : State := set_heap [demo_getTemplate 5] demo_initial.

(** A host with nothing to show. *)
Definition no_records_props : Props :=
  mkProps (Some (fun _ : Z => [])) (Some demo_getTemplate)
          (Some demo_updateTemplate) (Some 2%nat).

Definition no_records_initial : State := final (initialize no_records_props).

(** A host with five records in pages of two: the third page is short. *)
Definition short_getPage (page : Z) : list Z :=
  if page <? 2 then [10 * page; 10 * page + 1]
  else if page =? 2 then [20] else [].

Definition short_props : Props :=
  mkProps (Some short_getPage) (Some demo_getTemplate)
          (Some demo_updateTemplate) (Some 2%nat).

Definition short_two_pages : State :=
  notify [bottom_visible]
    (notify [bottom_visible] (final (initialize short_props))).

(** The starter skeleton mounted on the concrete list. *)
Definition starter_initial : State := final (Skeleton.initialize demo_props).

Lemma demo_page_size_positive : (0 < 2)%nat.
Proof. lia. Qed.

Lemma demo_reachable_recycled : reachable demo_props demo_recycled.
Proof. apply reachable_notify, demo_reachable_two_pages. Qed.

Lemma demo_valid_one_page : valid demo_one_page.
Proof. unfold valid. by_evaluation. Qed.

Lemma demo_NoDup_one_page : NoDup (pool demo_one_page).
Proof. by_evaluation. Qed.


Lemma demo_cards_created :
  Forall (fun r => (r < length (heap demo_two_pages))%nat) [0; 1]%nat.
Proof. by_evaluation. Qed.

Lemma demo_cards_distinct : NoDup [0; 1]%nat.
Proof. by_evaluation. Qed.

Lemma short_valid_two_pages : valid short_two_pages.
Proof. unfold valid. by_evaluation. Qed.

Lemma short_NoDup_two_pages : NoDup (pool short_two_pages).
Proof. by_evaluation. Qed.

Lemma short_nonempty_two_pages : pool short_two_pages <> [].
Proof. by_evaluation. Qed.

Lemma y_stores_then_returns_witness :
  exists s',
    y (Some 0%nat) (Some 7) one_card = Ok (Some 7) s' /\
    y (Some 0%nat) None s' = Ok (Some 7) s'.
Proof.
  destruct (y_stores_then_returns one_card 0%nat 7 (demo_getTemplate 5)
              eq_refl) as (s' & Hset & Hget & _).
  exists s'. split; [exact Hset | exact Hget].
Defined.

(** A top pass for pages of five on a pool of two cards. *)
Lemma top_pass_beyond_pool_throws_witness :
  let s := set_pool [0; 1]%nat
             (set_heap [demo_getTemplate 0; demo_getTemplate 1] five_initial) in
  updateElementsPosition top s = Throw TypeError s.
Proof.
  simpl. apply (top_pass_beyond_pool_throws _ 5); [reflexivity|].
  vm_compute. lia.
Defined.

Lemma pass_over_empty_pool_throws_witness :
  updateElementsPosition down demo_initial = Throw TypeError demo_initial.
Proof. exact (pass_over_empty_pool_throws down demo_initial eq_refl). Defined.


(** A hidden bottom sentinel and a visible element that is no sentinel. *)
Lemma idle_entries_are_ignored_witness :
  notify [mkEntry "bottom-observer" false; mkEntry "footer" true]
         demo_two_pages
  = demo_two_pages.
Proof.
  apply (idle_entries_are_ignored
           [mkEntry "bottom-observer" false; mkEntry "footer" true]
           demo_two_pages).
  apply Forall_cons. split; [by left|].
  apply Forall_cons. split; [|apply Forall_nil_2].
  right. split; discriminate.
Defined.

(** One record for two cards: only the first card is rebound. *)
Lemma updateData_rebinds_in_order_witness :
  exists h,
    updateData [0; 1]%nat [7] demo_two_pages
    = Ok tt (set_heap h (log_all [Bind 7 0%nat] demo_two_pages)) /\
    h !! 1%nat = heap demo_two_pages !! 1%nat.
Proof.
  destruct (updateData_rebinds_in_order demo_two_pages demo_updateTemplate
              [0; 1]%nat [7] eq_refl demo_cards_created demo_cards_distinct)
    as (h & Hok & _ & _ & Hout); [simpl; lia|].
  exists h. split; [exact Hok|]. apply Hout. simpl.
  apply not_elem_of_cons. split; [lia | apply not_elem_of_nil].
Defined.

(** The second bottom trigger on the concrete list. *)
Lemma bottom_trigger_below_limit_appends_witness :
  exists s',
    handleBottomObserver demo_one_page = Ok tt s' /\
    pool s' = [0; 1; 2; 3]%nat /\ end_ s' = 2.
Proof.
  destruct (bottom_trigger_below_limit_appends demo_one_page demo_getPage
              demo_getTemplate 4)
    as (s' & Hok & _ & Hpool & _ & _ & He & _);
    [reflexivity | reflexivity | reflexivity | vm_compute; lia
    | exact demo_valid_one_page | exact demo_NoDup_one_page
    | right; vm_compute; discriminate |].
  exists s'. split; [exact Hok|]. split; [exact Hpool | exact He].
Defined.

Lemma bottom_trigger_with_nothing_to_show_witness :
  notify [bottom_visible] no_records_initial
  = log (Rejected TypeError)
        (log (Fetch 0) (set_end 1 no_records_initial)).
Proof.
  exact (proj2 (bottom_trigger_with_nothing_to_show no_records_initial
                  (fun _ => []) 4 eq_refl eq_refl
                  (Nat.lt_0_succ 3) eq_refl eq_refl)).
Defined.

(** The third bottom trigger when the third page has one record. *)
Lemma bottom_trigger_with_short_page_witness :
  exists s',
    handleBottomObserver short_two_pages = Ok tt s' /\
    pool s' = [2; 3; 0; 1]%nat /\
    trace s' = trace short_two_pages ++ [Fetch 2; Bind 20 0%nat].
Proof.
  destruct (bottom_trigger_with_short_page short_two_pages short_getPage
              demo_updateTemplate 2)
    as (s' & Hok & Hpool & _ & _ & Htrace & _);
    [reflexivity | reflexivity | reflexivity | reflexivity
    | vm_compute; lia | exact short_valid_two_pages
    | exact short_NoDup_two_pages | exact short_nonempty_two_pages
    | vm_compute; lia |].
  exists s'. split; [exact Hok|]. split; [exact Hpool | exact Htrace].
Defined.

Lemma cursors_stay_ordered_witness :
  0 <= start demo_two_pages <= end_ demo_two_pages.
Proof.
  exact (cursors_stay_ordered demo_props demo_two_pages
           demo_reachable_two_pages).
Defined.

(** After the recycle the pool shows pages 1 and 2. *)
Lemma window_shows_pages_in_order_witness :
  Forall2 (shows demo_getTemplate demo_updateTemplate demo_recycled)
          [2; 3]%nat [10; 11] /\
  Forall2 (shows demo_getTemplate demo_updateTemplate demo_recycled)
          [0; 1]%nat [20; 21].
Proof.
  destruct (window_shows_pages_in_order demo_getPage demo_getTemplate
              demo_updateTemplate 2 (fun page => eq_refl)
              demo_page_size_positive demo_recycled demo_reachable_recycled)
    as [Hfirst Hsecond].
  split; [exact (Hfirst eq_refl) | exact (Hsecond eq_refl)].
Defined.

Lemma recycling_down_and_up_cancel_witness :
  pool (notify [top_visible] (notify [bottom_visible] demo_two_pages))
  = pool demo_two_pages.
Proof.
  exact (proj1 (proj1 (recycling_down_and_up_cancel demo_getPage
                         demo_getTemplate demo_updateTemplate 2
                         (fun page => eq_refl) demo_page_size_positive
                         demo_two_pages demo_reachable_two_pages)
                  eq_refl)).
Defined.

Lemma both_sentinels_in_one_notification_witness :
  let s' := notify [top_visible; bottom_visible] demo_recycled in
  pool s' = pool demo_recycled /\ start s' = 1 /\ end_ s' = 3.
Proof.
  destruct (both_sentinels_in_one_notification demo_getPage demo_getTemplate
              demo_updateTemplate 2 (fun page => eq_refl)
              demo_page_size_positive demo_recycled demo_reachable_recycled
              eq_refl)
    as (Hpool & Hs & He & _).
  split; [exact Hpool|]. split; [exact Hs | exact He].
Defined.

(** In the starter, a visible element that is no sentinel loads a page. *)
Lemma starter_appends_on_any_other_entry_witness :
  list_children (Skeleton.notify [mkEntry "footer" true] starter_initial)
  = [0; 1]%nat.
Proof.
  destruct (starter_appends_on_any_other_entry starter_initial demo_getPage
              demo_getTemplate (mkEntry "footer" true))
    as (_ & Hlc & _); [reflexivity | reflexivity | reflexivity | discriminate |].
  exact Hlc.
Defined.

Lemma starter_never_recycles_witness :
  let s := Nat.iter 3 (Skeleton.notify [bottom_visible]) starter_initial in
  end_ s = 3 /\ list_children s = seq 0 (length (heap s)).
Proof.
  destruct (starter_never_recycles demo_props demo_getPage demo_getTemplate 3
              eq_refl eq_refl)
    as (_ & He & _ & Hlc).
  split; [exact He | exact Hlc].
Defined.

(** * Schedules on the concrete list *)

(** [translateY] on a position, on a negative one and on [null]. *)
Example translateY_text :
  translateY (Some 165) = "translateY(165px)" /\
  translateY (Some (-5)) = "translateY(-5px)" /\
  translateY None = "translateY(nullpx)".
Proof. by vm_compute. Qed.

(** One notification reports the bottom sentinel three times; the three
    pages are requested at once. *)
Definition demo_batch : State * list Pending :=
  handleIntersectionObserver [bottom_visible; bottom_visible; bottom_visible]
    demo_initial.

(** The last page requested arrives first ... *)
Definition demo_first_arrival : State :=
  resume (PendingBottom (demo_getPage 2)) (fst demo_batch).

(** ... then the second, then the first. *)
Definition demo_overlapped : State :=
  resume (PendingBottom (demo_getPage 0))
    (resume (PendingBottom (demo_getPage 1)) demo_first_arrival).

Lemma demo_scheduled_batch :
  scheduled demo_props (fst demo_batch)
    [PendingBottom (demo_getPage 0); PendingBottom (demo_getPage 1);
     PendingBottom (demo_getPage 2)].
Proof.
  exact (scheduled_observe demo_props demo_initial []
           [bottom_visible; bottom_visible; bottom_visible]
           (fst demo_batch) (snd demo_batch)
           (scheduled_initial demo_props demo_initial eq_refl) eq_refl).
Qed.

Lemma demo_scheduled_first_arrival :
  scheduled demo_props demo_first_arrival
    [PendingBottom (demo_getPage 0); PendingBottom (demo_getPage 1)].
Proof.
  exact (scheduled_arrive demo_props (fst demo_batch)
           [PendingBottom (demo_getPage 0); PendingBottom (demo_getPage 1)]
           (PendingBottom (demo_getPage 2)) [] demo_scheduled_batch).
Qed.

Lemma demo_scheduled_overlapped : scheduled demo_props demo_overlapped [].
Proof.
  apply (scheduled_arrive demo_props _ [] (PendingBottom (demo_getPage 0)) []).
  exact (scheduled_arrive demo_props demo_first_arrival
           [PendingBottom (demo_getPage 0)]
           (PendingBottom (demo_getPage 1)) [] demo_scheduled_first_arrival).
Qed.

(** The arrivals out of order leave page 1 before page 0 in the pool,
    while [start] is 1. *)
Example overlapped_pages_out_of_order :
  pool demo_overlapped = [2; 3; 0; 1]%nat /\
  innerHTML <$> heap demo_overlapped = ["0"; "1"; "10"; "11"] /\
  start demo_overlapped = 1 /\ end_ demo_overlapped = 3.
Proof. by vm_compute. Qed.

(** So does a batch: after a bottom and a top entry in one notification the
    first two cards of the pool show page 0, while [start] is 1. *)
Example batch_leaves_stale_page :
  let s := notify [bottom_visible; top_visible] demo_recycled in
  start s = 1 /\ end_ s = 3 /\ pool s = [2; 3; 0; 1]%nat /\
  innerHTML <$> heap s = ["20"; "21"; "0"; "1"].
Proof. by vm_compute. Qed.

(** C3 after the first arrival, two handlers still suspended: the page that
    arrives next is appended. *)
Lemma pool_never_exceeds_limit_witness :
  (length (pool demo_first_arrival) <= 2 * 2)%nat /\
  pool (final (handleBottomObserver_resume (demo_getPage 1)
                 demo_first_arrival))
  = [0; 1; 2; 3]%nat.
Proof.
  destruct (pool_never_exceeds_limit demo_getPage demo_getTemplate
              demo_updateTemplate 2 (fun page => eq_refl)
              demo_first_arrival _ demo_scheduled_first_arrival)
    as (Hle & _ & Hresume).
  split; [exact Hle|].
  destruct (Hresume (demo_getPage 1) eq_refl) as [Hbelow _].
  apply Hbelow. vm_compute. lia.
Defined.

Lemma pool_rearranges_rendered_cards_witness :
  pool demo_overlapped ≡ₚ list_children demo_overlapped.
Proof.
  exact (proj1 (proj2 (pool_rearranges_rendered_cards demo_props
                         demo_overlapped [] demo_scheduled_overlapped))).
Defined.

(** The first page requested, still awaited after the first arrival. *)
Lemma handlers_are_never_rejected_witness :
  exists s',
    continuation (PendingBottom (demo_getPage 0)) demo_first_arrival
    = Ok tt s'.
Proof.
  exact (proj1 (proj2 (handlers_are_never_rejected demo_getPage
                         demo_getTemplate demo_updateTemplate 2
                         (fun page => eq_refl) demo_page_size_positive
                         demo_first_arrival _ demo_scheduled_first_arrival))
           (PendingBottom (demo_getPage 0)) (list_elem_of_here _ _)).
Defined.

Lemma cards_stay_stacked_witness :
  exists yp,
    y_at demo_overlapped 2%nat = Some yp /\
    y_at demo_overlapped 3%nat
    = Some (yp + height_at demo_overlapped 2%nat + 2 * MARGIN).
Proof.
  exact (proj2 (cards_stay_stacked demo_getPage demo_getTemplate
                  demo_updateTemplate 2 (fun page => eq_refl)
                  demo_page_size_positive demo_overlapped []
                  demo_scheduled_overlapped)
           0%nat 2%nat 3%nat eq_refl eq_refl).
Defined.

Lemma sentinels_follow_pool_witness :
  exists yf yl : Z,
    y_at demo_overlapped 2%nat = Some yf /\
    y_at demo_overlapped 1%nat = Some yl /\
    top_style demo_overlapped = Some ("translateY(" +:+ pretty yf +:+ "px)") /\
    top_style demo_overlapped = Some "translateY(165px)" /\
    bottom_style demo_overlapped = Some "translateY(475px)".
Proof.
  destruct (sentinels_follow_pool demo_getPage demo_getTemplate
              demo_updateTemplate 2 (fun page => eq_refl)
              demo_page_size_positive demo_overlapped []
              demo_scheduled_overlapped 2%nat 1%nat eq_refl eq_refl)
    as (yf & yl & Hyf & Hyl & Htop & _).
  exists yf, yl. split; [exact Hyf|]. split; [exact Hyl|].
  split; [exact Htop|]. split; vm_compute; reflexivity.
Defined.

Lemma document_holds_at_most_two_pages_witness :
  (length (heap demo_overlapped) <= 2 * 2)%nat.
Proof.
  exact (proj2 (proj2 (document_holds_at_most_two_pages demo_getPage
                         demo_getTemplate demo_updateTemplate 2
                         (fun page => eq_refl) demo_overlapped []
                         demo_scheduled_overlapped))).
Defined.
